(** * SpartanEngine: the render-hardware-interface core, embedded in Rocq

    A shallow embedding of the parts of the engine that its specification
    makes testable statements about:

    - [RHI_Device]: physical-device and display-mode registration, primary
      device selection, resolution validation (Runtime/RHI/RHI_Device.cpp);
    - [RHI_DescriptorCache]: layout selection per shader pair, descriptor
      merging, capacity management (RHI_DescriptorCache.cpp and
      Vulkan/Vulkan_DescriptorCache.cpp);
    - [Renderer]: renderable acquisition and sorting, resolution changes,
      the depth passes and the post-process chain (Renderer.cpp and
      Renderer_Passes.cpp).

    Unsigned 32-bit quantities are integers in [0, 2^32) with the wrap-around
    written out; containers are lists and finite maps; logging and command
    recording are returned as explicit traces. *)

From Stdlib Require Import ZArith QArith Lia String Ascii.
From stdpp Require Import gmap strings list sorting pretty.

Local Open Scope Z_scope.

(** ** Machine integers *)

Definition UINT32_MOD : Z := 2 ^ 32.

(** Arithmetic on [uint32_t] is modulo 2^32. *)
Definition wrap32 (z : Z) : Z := z mod UINT32_MOD.

Definition is_u32 (z : Z) : Prop := 0 <= z < UINT32_MOD.

Lemma wrap32_range z : is_u32 (wrap32 z).
Proof. unfold is_u32, wrap32, UINT32_MOD. apply Z.mod_pos_bound. lia. Qed.

Lemma wrap32_small z : is_u32 z -> wrap32 z = z.
Proof. unfold is_u32, wrap32. intros Hz. by apply Z.mod_small. Qed.

(** ** Logging

    [LOG_INFO], [LOG_WARNING] and [LOG_ERROR] write to a global logger. The
    calls are modelled by the entries they emit, one constructor per format
    string of the sources, the printf arguments kept as data. *)
Inductive log_entry : Type :=
| Log_Info_Device (name : string) (memory : Z)        (* "%s (%d MB)" *)
| Log_Info_Capacity (capacity : Z)                    (* "Capacity has been increased to %d elements" *)
| Log_Info_Resolution (width height : Z)              (* "Resolution set to %dx%d" *)
| Log_Warning_Resolution (width height : Z)           (* "%dx%d is an invalid resolution" *)
| Log_Error (message : string).

(** ** std::sort

    The C++ standard promises, for a comparator that is a strict weak
    ordering, that the range ends up a permutation of itself in which no
    element is ordered strictly before an earlier one. It promises nothing
    about elements the comparator does not tell apart. *)
Record StrictWeakOrder {A : Type} (comp : A -> A -> bool) : Prop := {
  swo_irrefl : forall a, comp a a = false;
  swo_trans : forall a b c, comp a b = true -> comp b c = true -> comp a c = true;
  swo_neg_trans : forall a b c, comp a b = false -> comp b c = false -> comp a c = false
}.

(** [a] may precede [b] in a range sorted by [comp]. *)
Definition not_after {A : Type} (comp : A -> A -> bool) (a b : A) : Prop :=
  comp b a = false.

Class StdSort : Type := {
  std_sort : forall {A : Type}, (A -> A -> bool) -> list A -> list A;
  std_sort_perm : forall (A : Type) (comp : A -> A -> bool) (l : list A),
    StrictWeakOrder comp -> std_sort comp l ≡ₚ l;
  std_sort_sorted : forall (A : Type) (comp : A -> A -> bool) (l : list A),
    StrictWeakOrder comp -> StronglySorted (not_after comp) (std_sort comp l)
}.

(** The insertion sort that libstdc++ and the MSVC library run on short
    ranges (fewer than 16, resp. 32 elements): an element moves left only
    past elements it is ordered strictly before. *)
Fixpoint insert_sorted {A : Type} (comp : A -> A -> bool) (x : A) (l : list A) : list A :=
  match l with
  | [] => [x]
  | y :: l' => if comp x y then x :: y :: l' else y :: insert_sorted comp x l'
  end.

Definition insertion_sort {A : Type} (comp : A -> A -> bool) (l : list A) : list A :=
  fold_left (fun acc x => insert_sorted comp x acc) l [].

(** ** RHI_Device (Runtime/RHI/RHI_Device.cpp) *)
Module Device.

(** [PhysicalDevice]: a name and the adapter memory in MB ([uint32_t]). *)
Record PhysicalDevice : Type := {
  GetName : string;
  GetMemory : Z
}.

(** [DisplayMode]: the refresh rate is a [double]; a finite double is
    modelled by the rational it denotes, on which [>] is exact. *)
Record DisplayMode : Type := {
  width : Z;
  height : Z;
  refresh_rate : Q
}.

(** The members of [RHI_Device] the functions below touch.
    [max_texture_dimension_2d] lives in the device's [RHI_Context];
    [target_fps] is the value last handed to [Timer::SetTargetFps]. *)
Record RHI_Device : Type := {
  m_physical_devices : list PhysicalDevice;
  m_physical_device_index : Z;
  m_display_modes : list DisplayMode;
  m_display_mode_index : Z;
  max_texture_dimension_2d : Z;
  target_fps : Q
}.

Definition set_physical_devices (l : list PhysicalDevice) (d : RHI_Device) : RHI_Device :=
  {| m_physical_devices := l;
     m_physical_device_index := m_physical_device_index d;
     m_display_modes := m_display_modes d;
     m_display_mode_index := m_display_mode_index d;
     max_texture_dimension_2d := max_texture_dimension_2d d;
     target_fps := target_fps d |}.

Definition set_physical_device_index (i : Z) (d : RHI_Device) : RHI_Device :=
  {| m_physical_devices := m_physical_devices d;
     m_physical_device_index := i;
     m_display_modes := m_display_modes d;
     m_display_mode_index := m_display_mode_index d;
     max_texture_dimension_2d := max_texture_dimension_2d d;
     target_fps := target_fps d |}.

Definition set_display_modes (l : list DisplayMode) (fps : Q) (d : RHI_Device) : RHI_Device :=
  {| m_physical_devices := m_physical_devices d;
     m_physical_device_index := m_physical_device_index d;
     m_display_modes := l;
     m_display_mode_index := m_display_mode_index d;
     max_texture_dimension_2d := max_texture_dimension_2d d;
     target_fps := fps |}.

(** The lambda of [RegisterPhysicalDevice]:
    [adapter1.GetMemory() > adapter2.GetMemory()]. *)
Definition memory_greater (adapter1 adapter2 : PhysicalDevice) : bool :=
  GetMemory adapter2 <? GetMemory adapter1.

(** The lambda of [RegisterDisplayMode]:
    [display_mode_a.refresh_rate > display_mode_b.refresh_rate]. *)
Definition refresh_rate_greater (display_mode_a display_mode_b : DisplayMode) : bool :=
  negb (Qle_bool (refresh_rate display_mode_a) (refresh_rate display_mode_b)).

Section WithSort.
Context `{StdSort}.

(** [emplace_back], then [sort] over the whole vector, then [LOG_INFO]. *)
Definition RegisterPhysicalDevice (physical_device : PhysicalDevice) (d : RHI_Device)
  : RHI_Device * list log_entry :=
  (set_physical_devices
     (std_sort memory_greater (m_physical_devices d ++ [physical_device])) d,
   [Log_Info_Device (GetName physical_device) (GetMemory physical_device)]).

(** [emplace_back], [sort], then the front's rate goes to the timer. *)
Definition RegisterDisplayMode (display_mode : DisplayMode) (d : RHI_Device) : RHI_Device :=
  let modes := std_sort refresh_rate_greater (m_display_modes d ++ [display_mode]) in
  set_display_modes modes
    (match modes with m :: _ => refresh_rate m | [] => target_fps d end) d.

Definition register_physical_devices (l : list PhysicalDevice) (d : RHI_Device) : RHI_Device :=
  fold_left (fun d pd => (RegisterPhysicalDevice pd d).1) l d.

Definition register_display_modes (l : list DisplayMode) (d : RHI_Device) : RHI_Device :=
  fold_left (fun d m => RegisterDisplayMode m d) l d.

End WithSort.

(** [GetPrimaryPhysicalDevice]: [nullptr] when the index is not below the
    size, else the address of the element. *)
Definition GetPrimaryPhysicalDevice (d : RHI_Device) : option PhysicalDevice :=
  if Z.of_nat (length (m_physical_devices d)) <=? m_physical_device_index d
  then None
  else m_physical_devices d !! Z.to_nat (m_physical_device_index d).

(** [SetPrimaryPhysicalDevice]: the index is stored first; the device that
    [GetPrimaryPhysicalDevice] then finds, if any, is logged. *)
Definition SetPrimaryPhysicalDevice (index : Z) (d : RHI_Device)
  : RHI_Device * list log_entry :=
  let d' := set_physical_device_index index d in
  match GetPrimaryPhysicalDevice d' with
  | Some physical_device =>
      (d', [Log_Info_Device (GetName physical_device) (GetMemory physical_device)])
  | None => (d', [])
  end.

(** [ValidateResolution]. *)
Definition ValidateResolution (width height : Z) (d : RHI_Device) : bool :=
  (0 <? width) && (width <=? max_texture_dimension_2d d) &&
  (0 <? height) && (height <=? max_texture_dimension_2d d).

(** A device right after construction, before any registration. *)
Definition fresh_device (max_dim : Z) : RHI_Device :=
  {| m_physical_devices := [];
     m_physical_device_index := 0;
     m_display_modes := [];
     m_display_mode_index := 0;
     max_texture_dimension_2d := max_dim;
     target_fps := 0%Q |}.

Definition adapter (name : string) (memory : Z) : PhysicalDevice :=
  {| GetName := name; GetMemory := memory |}.

(** Highest memory first / highest refresh rate first. *)
Definition memory_non_increasing (l : list PhysicalDevice) : Prop :=
  StronglySorted (fun a b => GetMemory b <= GetMemory a) l.

Definition refresh_rate_non_increasing (l : list DisplayMode) : Prop :=
  StronglySorted (fun a b => Qle (refresh_rate b) (refresh_rate a)) l.

End Device.

(** ** RHI_DescriptorCache (RHI_DescriptorCache.cpp, Vulkan_DescriptorCache.cpp) *)
Module DescriptorCache.

(** Modelled from the spec: the enumeration [RHI_Descriptor_Type] is declared
    in RHI_Definition.h, which is not among the sources; the data model of
    the specification lists its kinds. The code names the two constant-buffer
    kinds. *)
Inductive RHI_Descriptor_Type : Type :=
| RHI_Descriptor_ConstantBuffer
| RHI_Descriptor_ConstantBufferDynamic
| RHI_Descriptor_SampledImage
| RHI_Descriptor_Sampler
| RHI_Descriptor_StorageImage.

#[global] Instance RHI_Descriptor_Type_eq_dec : EqDecision RHI_Descriptor_Type.
Proof. solve_decision. Defined.

(** [RHI_Descriptor]: the three members [GenerateDescriptors] reads and
    writes; [slot] is a [uint32_t], [stage] a bitmask of shader stages. *)
Record RHI_Descriptor : Type := {
  type : RHI_Descriptor_Type;
  slot : Z;
  stage : Z
}.

Inductive Shader_Compilation_State : Type :=
| Shader_Compilation_Unknown
| Shader_Compilation_Compiling
| Shader_Compilation_Succeeded
| Shader_Compilation_Failed.

(** What the cache reads of an [RHI_Shader]. *)
Record RHI_Shader : Type := {
  GetId : Z;
  GetName : string;
  GetCompilationState : Shader_Compilation_State;
  GetDescriptors : list RHI_Descriptor
}.

(** What the cache reads of an [RHI_PipelineState]; a shader pointer may be
    null, [dynamic_constant_buffer_slot] is an [int] with -1 for "none". *)
Record RHI_PipelineState : Type := {
  shader_vertex : option RHI_Shader;
  shader_pixel : option RHI_Shader;
  dynamic_constant_buffer_slot : Z
}.

(** The one constant of [RHI_Context] the cache reads. *)
Record RHI_Context : Type := {
  shader_shift_buffer : Z
}.

(** A native object behind a [void*], or a resource passed by pointer;
    [None] is [nullptr]. *)
Definition handle : Type := option Z.

(** Modelled from the spec: the class [RHI_DescriptorSetLayout] is not among
    the sources. Per the specification a layout owns the merged descriptor
    list and the descriptor sets bound from it, and can be marked "needs
    rebind". *)
Record RHI_DescriptorSetLayout : Type := {
  layout_descriptors : list RHI_Descriptor;
  layout_needs_to_bind : bool;
  layout_descriptor_set_count : Z
}.

(** [make_shared<RHI_DescriptorSetLayout>(m_rhi_device, descriptors)]:
    a layout without descriptor sets. *)
Definition new_layout (descriptors : list RHI_Descriptor) : RHI_DescriptorSetLayout :=
  {| layout_descriptors := descriptors;
     layout_needs_to_bind := false;
     layout_descriptor_set_count := 0 |}.

Definition NeedsToBind (l : RHI_DescriptorSetLayout) : RHI_DescriptorSetLayout :=
  {| layout_descriptors := layout_descriptors l;
     layout_needs_to_bind := true;
     layout_descriptor_set_count := layout_descriptor_set_count l |}.

(** The members of [RHI_DescriptorCache]. [m_rhi_device] is [None] for a
    null device and [Some None] for a device without context. The layouts
    are an [unordered_map] from the shader hash; [m_descriptor_layout_current]
    points into that map and is modelled by the key it points at.
    [m_descriptor_pool] records the [maxSets] the live pool was created with. *)
Record RHI_DescriptorCache : Type := {
  m_name : string;
  m_rhi_device : option (option RHI_Context);
  m_descriptor_set_capacity : Z;
  m_descriptor_set_layouts : gmap Z RHI_DescriptorSetLayout;
  m_descriptor_layout_current : option Z;
  m_descriptor_pool : option Z
}.

(** The parts of the engine the cache calls into and that are not among the
    sources: [Utility::Hash::hash_combine] and the member functions of
    [RHI_DescriptorSetLayout] that the cache forwards to. *)
Class Collaborators : Type := {
  hash_combine : Z -> Z -> Z;
  layout_SetConstantBuffer : Z -> handle -> RHI_DescriptorSetLayout -> RHI_DescriptorSetLayout;
  layout_SetSampler : Z -> handle -> RHI_DescriptorSetLayout -> RHI_DescriptorSetLayout;
  layout_SetTexture : Z -> handle -> RHI_DescriptorSetLayout -> RHI_DescriptorSetLayout;
  layout_GetResource_DescriptorSetLayout : RHI_DescriptorSetLayout -> handle;
  layout_GetResource_DescriptorSet :
    RHI_DescriptorCache -> RHI_DescriptorSetLayout -> RHI_DescriptorSetLayout * bool * handle;
  layout_GetDynamicOffsets : RHI_DescriptorSetLayout -> list Z
}.

Definition set_layouts (layouts : gmap Z RHI_DescriptorSetLayout)
  (c : RHI_DescriptorCache) : RHI_DescriptorCache :=
  {| m_name := m_name c;
     m_rhi_device := m_rhi_device c;
     m_descriptor_set_capacity := m_descriptor_set_capacity c;
     m_descriptor_set_layouts := layouts;
     m_descriptor_layout_current := m_descriptor_layout_current c;
     m_descriptor_pool := m_descriptor_pool c |}.

Definition set_capacity (capacity : Z) (c : RHI_DescriptorCache) : RHI_DescriptorCache :=
  {| m_name := m_name c;
     m_rhi_device := m_rhi_device c;
     m_descriptor_set_capacity := capacity;
     m_descriptor_set_layouts := m_descriptor_set_layouts c;
     m_descriptor_layout_current := m_descriptor_layout_current c;
     m_descriptor_pool := m_descriptor_pool c |}.

(** *** GenerateDescriptors *)

Definition is_same_resource (descriptor descriptor_reflected : RHI_Descriptor) : bool :=
  bool_decide (type descriptor = type descriptor_reflected) &&
  (slot descriptor =? slot descriptor_reflected).

Definition or_stage (descriptor descriptor_reflected : RHI_Descriptor) : RHI_Descriptor :=
  {| type := type descriptor;
     slot := slot descriptor;
     stage := Z.lor (stage descriptor) (stage descriptor_reflected) |}.

(** The inner loop: the first descriptor with the type and slot of
    [descriptor_reflected] gets its stage OR-ed, and the loop breaks;
    [None] when the loop ends with [updated_existing] still false. *)
Fixpoint update_existing (descriptor_reflected : RHI_Descriptor)
  (descriptors : list RHI_Descriptor) : option (list RHI_Descriptor) :=
  match descriptors with
  | [] => None
  | descriptor :: rest =>
      if is_same_resource descriptor descriptor_reflected
      then Some (or_stage descriptor descriptor_reflected :: rest)
      else cons descriptor <$> update_existing descriptor_reflected rest
  end.

(** One round of the outer loop over the pixel shader's descriptors. *)
Definition merge_descriptor (descriptors : list RHI_Descriptor)
  (descriptor_reflected : RHI_Descriptor) : list RHI_Descriptor :=
  match update_existing descriptor_reflected descriptors with
  | Some updated => updated
  | None => descriptors ++ [descriptor_reflected]
  end.

(** The body of the last loop; the sum on the right of [==] is unsigned. *)
Definition make_dynamic (dynamic_slot shift : Z) (descriptor : RHI_Descriptor) : RHI_Descriptor :=
  if bool_decide (type descriptor = RHI_Descriptor_ConstantBuffer) &&
     (slot descriptor =? wrap32 (dynamic_slot + shift))
  then {| type := RHI_Descriptor_ConstantBufferDynamic;
          slot := slot descriptor;
          stage := stage descriptor |}
  else descriptor.

Definition is_compiling (s : RHI_Shader) : bool :=
  match GetCompilationState s with
  | Shader_Compilation_Compiling => true
  | _ => false
  end.

(** [GenerateDescriptors]. The result is [None] when the call does not
    return: it spins on a shader whose state stays [Compiling], or it reads
    [shader_shift_buffer] through a null device or context. *)
Definition GenerateDescriptors (pipeline_state : RHI_PipelineState)
  (c : RHI_DescriptorCache) : option (list RHI_Descriptor * list log_entry) :=
  match shader_vertex pipeline_state with
  | None => Some ([], [Log_Error "Vertex shader is invalid"])
  | Some vertex =>
      if is_compiling vertex then None else
      merged ← match shader_pixel pipeline_state with
               | None => Some (GetDescriptors vertex)
               | Some pixel =>
                   if is_compiling pixel then None
                   else Some (fold_left merge_descriptor (GetDescriptors pixel)
                                (GetDescriptors vertex))
               end;
      if dynamic_constant_buffer_slot pipeline_state =? -1 then Some (merged, [])
      else match m_rhi_device c with
           | Some (Some context) =>
               Some (make_dynamic (dynamic_constant_buffer_slot pipeline_state)
                       (shader_shift_buffer context) <$> merged, [])
           | _ =>
               if existsb (fun d => bool_decide (type d = RHI_Descriptor_ConstantBuffer)) merged
               then None else Some (merged, [])
           end
  end.

Section WithCollaborators.
Context `{Collaborators}.

(** The hash that selects the layout. *)
Definition shader_hash (vertex : RHI_Shader) (pixel : option RHI_Shader) : Z :=
  let hash := hash_combine 0 (GetId vertex) in
  match pixel with
  | Some p => hash_combine hash (GetId p)
  | None => hash
  end.

Definition shader_name (s : option RHI_Shader) : string :=
  match s with Some s => GetName s | None => "null" end.

(** [SetPipelineState]. [None]: the call does not return, because
    [GenerateDescriptors] does not, or because the vertex shader is null and
    [shader_vertex->GetId()] dereferences it. *)
Definition SetPipelineState (pipeline_state : RHI_PipelineState)
  (c : RHI_DescriptorCache) : option (RHI_DescriptorCache * list log_entry) :=
  let name := shader_name (shader_vertex pipeline_state) +:+ "-" +:+
              shader_name (shader_pixel pipeline_state) in
  vertex ← shader_vertex pipeline_state;
  let hash := shader_hash vertex (shader_pixel pipeline_state) in
  '(layouts, log) ←
     match m_descriptor_set_layouts c !! hash with
     | None =>
         '(descriptors, log) ← GenerateDescriptors pipeline_state c;
         Some (<[hash := new_layout descriptors]> (m_descriptor_set_layouts c), log)
     | Some _ => Some (m_descriptor_set_layouts c, [])
     end;
  Some ({| m_name := name;
           m_rhi_device := m_rhi_device c;
           m_descriptor_set_capacity := m_descriptor_set_capacity c;
           m_descriptor_set_layouts := alter NeedsToBind hash layouts;
           m_descriptor_layout_current := Some hash;
           m_descriptor_pool := m_descriptor_pool c |}, log).

Definition invalid_layout : log_entry := Log_Error "Invalid descriptor set layout".

(** The layout [m_descriptor_layout_current] points at. *)
Definition current_layout (c : RHI_DescriptorCache) : option RHI_DescriptorSetLayout :=
  key ← m_descriptor_layout_current c; m_descriptor_set_layouts c !! key.

Definition update_current (f : RHI_DescriptorSetLayout -> RHI_DescriptorSetLayout)
  (key : Z) (c : RHI_DescriptorCache) : RHI_DescriptorCache :=
  set_layouts (alter f key (m_descriptor_set_layouts c)) c.

Definition SetConstantBuffer (slot : Z) (constant_buffer : handle)
  (c : RHI_DescriptorCache) : RHI_DescriptorCache * list log_entry :=
  match m_descriptor_layout_current c with
  | None => (c, [invalid_layout])
  | Some key => (update_current (layout_SetConstantBuffer slot constant_buffer) key c, [])
  end.

Definition SetSampler (slot : Z) (sampler : handle)
  (c : RHI_DescriptorCache) : RHI_DescriptorCache * list log_entry :=
  match m_descriptor_layout_current c with
  | None => (c, [invalid_layout])
  | Some key => (update_current (layout_SetSampler slot sampler) key c, [])
  end.

Definition SetTexture (slot : Z) (texture : handle)
  (c : RHI_DescriptorCache) : RHI_DescriptorCache * list log_entry :=
  match m_descriptor_layout_current c with
  | None => (c, [invalid_layout])
  | Some key => (update_current (layout_SetTexture slot texture) key c, [])
  end.

(** A [const] member: the cache cannot change. *)
Definition GetResource_DescriptorSetLayout (c : RHI_DescriptorCache)
  : handle * list log_entry :=
  match current_layout c with
  | None => (None, [invalid_layout])
  | Some layout => (layout_GetResource_DescriptorSetLayout layout, [])
  end.

(** The result is a [bool]: the [nullptr] of the error path converts to
    [false]. The out-parameter [descriptor_set] is written by the layout
    only. *)
Definition GetResource_DescriptorSet (descriptor_set : handle)
  (c : RHI_DescriptorCache) : RHI_DescriptorCache * bool * handle * list log_entry :=
  match m_descriptor_layout_current c, current_layout c with
  | Some key, Some layout =>
      let '(layout', ok, set) := layout_GetResource_DescriptorSet c layout in
      (update_current (fun _ => layout') key c, ok, set, [])
  | _, _ => (c, false, descriptor_set, [invalid_layout])
  end.

(** What a returned [const std::vector<uint32_t>&] refers to: the offsets
    of a live vector, or a temporary that is destroyed before the caller
    can look at it. *)
Inductive offsets_reference : Type :=
| Offsets_of (offsets : list Z)
| Destroyed_temporary.

(** A [const] member that returns a reference. The error path returns
    [std::vector<uint32_t>()], a temporary that dies with the [return]:
    the caller is handed a dangling reference. *)
Definition GetDynamicOffsets (c : RHI_DescriptorCache)
  : offsets_reference * list log_entry :=
  match current_layout c with
  | None => (Destroyed_temporary, [invalid_layout])
  | Some layout => (Offsets_of (layout_GetDynamicOffsets layout), [])
  end.

End WithCollaborators.

(** *** Capacity *)

(** [GetDescriptorSetCount]: a [uint32_t] accumulator over all layouts. *)
Definition GetDescriptorSetCount (c : RHI_DescriptorCache) : Z :=
  map_fold (fun _ layout descriptor_set_count =>
              wrap32 (descriptor_set_count + layout_descriptor_set_count layout))
    0 (m_descriptor_set_layouts c).

Definition HasEnoughCapacity (c : RHI_DescriptorCache) : bool :=
  GetDescriptorSetCount c <? m_descriptor_set_capacity c.

(** [SetDescriptorSetCapacity] of the Vulkan backend: without device or
    context it logs and returns; otherwise it waits for the queues, destroys
    all layouts and the pool, and creates a pool for the capacity asked. *)
Definition SetDescriptorSetCapacity (descriptor_set_capacity : Z)
  (c : RHI_DescriptorCache) : RHI_DescriptorCache * list log_entry :=
  match m_rhi_device c with
  | Some (Some _) =>
      ({| m_name := m_name c;
          m_rhi_device := m_rhi_device c;
          m_descriptor_set_capacity := m_descriptor_set_capacity c;
          m_descriptor_set_layouts := ∅;
          m_descriptor_layout_current := None;
          m_descriptor_pool := Some descriptor_set_capacity |}, [])
  | _ => (c, [Log_Error "Invalid internals"])
  end.

(** [GrowIfNeeded]. *)
Definition GrowIfNeeded (c : RHI_DescriptorCache) : RHI_DescriptorCache * list log_entry :=
  let required_capacity := wrap32 (GetDescriptorSetCount c + 1) in
  if m_descriptor_set_capacity c <? required_capacity then
    let c1 := set_capacity (wrap32 (m_descriptor_set_capacity c * 2)) c in
    let '(c2, log) := SetDescriptorSetCapacity (m_descriptor_set_capacity c1) c1 in
    (c2, log ++ [Log_Info_Capacity (m_descriptor_set_capacity c2)])
  else (c, []).

(** The constructor: it stores the device and calls
    [SetDescriptorSetCapacity] with the capacity the class declaration
    initialises [m_descriptor_set_capacity] with (RHI_DescriptorCache.h, not
    among the sources, hence a parameter); no layout is selected. *)
Definition RHI_DescriptorCache_new (rhi_device : option (option RHI_Context))
  (initial_capacity : Z) : RHI_DescriptorCache * list log_entry :=
  SetDescriptorSetCapacity initial_capacity
    {| m_name := "";
       m_rhi_device := rhi_device;
       m_descriptor_set_capacity := initial_capacity;
       m_descriptor_set_layouts := ∅;
       m_descriptor_layout_current := None;
       m_descriptor_pool := None |}.

End DescriptorCache.

(** ** Renderer (Renderer.cpp, Renderer_Passes.cpp) *)
Module Renderer.

(** *** Numbers and strings *)

(** [static_cast<float>] of a [uint32_t], as the integer the float denotes:
    exact below 2^24, otherwise rounded to 24 significant bits, ties to
    even. *)
Definition float_of_u32 (n : Z) : Z :=
  if n <? 2 ^ 24 then n
  else
    let e := Z.log2 n - 23 in
    let q := n / 2 ^ e in
    let r := n mod 2 ^ e in
    let half := 2 ^ (e - 1) in
    if r <? half then q * 2 ^ e
    else if half <? r then (q + 1) * 2 ^ e
    else (if Z.even q then q else q + 1) * 2 ^ e.

(** The float nearest to an integer, of either sign: what a float
    operation yields when its exact result is that integer. Results past
    the largest float, which become infinite, are not covered. *)
Definition float_round (n : Z) : Z :=
  if n <? 0 then - float_of_u32 (- n) else float_of_u32 n.

(** The coordinates of a [Vector3] are floats. The model covers the floats
    that are integers. Vector3.h is not among the sources: [operator-]
    subtracts and [LengthSquared] sums the squares coordinate by coordinate,
    in float arithmetic, so every difference, product and sum is rounded to
    24 significant bits. *)
Record Vector3 : Type := { x : Z; y : Z; z : Z }.

Definition Vector3_sub (a b : Vector3) : Vector3 :=
  {| x := float_round (x a - x b);
     y := float_round (y a - y b);
     z := float_round (z a - z b) |}.

Definition LengthSquared (v : Vector3) : Z :=
  float_round
    (float_round (float_round (x v * x v) + float_round (y v * y v))
     + float_round (z v * z v)).

(** [std::to_string(float)] prints with "%f": six digits after the point.
    For a float that is an integer those six digits are zeros. *)
Definition to_string (value : Z) : string := pretty value +:+ ".000000".

Definition is_digit (c : ascii) : bool :=
  (48 <=? Z.of_N (N_of_ascii c)) && (Z.of_N (N_of_ascii c) <=? 57).

Definition digit_value (c : ascii) : Z := Z.of_N (N_of_ascii c) - 48.

(** The longest run of decimal digits at the head of [s]: its value
    continued from [acc], the number of digits read, and the rest. *)
Fixpoint read_digits (s : string) (acc : Z) (count : nat) : Z * nat * string :=
  match s with
  | String c rest =>
      if is_digit c then read_digits rest (acc * 10 + digit_value c) (S count)
      else (acc, count, s)
  | EmptyString => (acc, count, s)
  end.

(** An optional sign at the head of [s]: whether it is a minus, and the
    rest. *)
Definition read_sign (s : string) : bool * string :=
  match s with
  | String "-" rest => (true, rest)
  | String "+" rest => (false, rest)
  | _ => (false, s)
  end.

(** [std::stof]: it converts the longest prefix that reads as a decimal
    number (sign, digits, point, digits) and ignores whatever follows. The
    value is given as the rational the prefix denotes. Exponents, "inf" and
    "nan" do not occur in the strings [to_string] makes; [stof] throws when
    there is no digit at all, which the model answers with 0. *)
Definition stof (s : string) : Q :=
  let '(negative, s1) := read_sign s in
  let '(integral, _, s2) := read_digits s1 0 0 in
  let '(numerator, decimals, _) :=
    match s2 with
    | String "." rest => read_digits rest integral 0
    | _ => (integral, 0%nat, s2)
    end in
  let value := Qmake numerator (Z.to_pos (10 ^ Z.of_nat decimals)) in
  if negative then Qopp value else value.

(** *** Scene data *)

(** A texture object, by identity. *)
Definition texture : Type := Z.

Record Material : Type := {
  Material_GetId : Z;
  GetColorAlbedo_w : Q;
  GetTexture_Albedo : option texture
}.

(** [geometry_ready]: the model and its vertex and index buffers exist.
    [in_view_frustrum] answers [IsInViewFrustrum] of the camera;
    [in_light_frustrum] that of a light, per light index and cascade. *)
Record Renderable : Type := {
  GetMaterial : option Material;
  GetAabb_GetCenter : Vector3;
  GetCastShadows : bool;
  geometry_ready : bool;
  Geometry_GetId : Z;
  GeometryIndexCount : Z;
  GeometryIndexOffset : Z;
  GeometryVertexOffset : Z;
  in_view_frustrum : bool;
  in_light_frustrum : nat -> Z -> bool
}.

Definition HasMaterial (r : Renderable) : bool := bool_decide (is_Some (GetMaterial r)).

Inductive LightType : Type := LightType_Directional | LightType_Point | LightType_Spot.

#[global] Instance LightType_eq_dec : EqDecision LightType.
Proof. solve_decision. Defined.

(** [depth_texture]: the shadow map and its array size, when there is one. *)
Record Light : Type := {
  GetLightType : LightType;
  GetShadowsEnabled : bool;
  GetShadowsTransparentEnabled : bool;
  GetDepthTexture : option (texture * Z);
  GetColorTexture : option texture
}.

Record Camera : Type := {
  GetPosition : Vector3
}.

Record Entity : Type := {
  IsActive : bool;
  GetRenderable : option Renderable;
  GetLight : option Light;
  GetCamera : option Camera
}.

Inductive Renderer_Object_Type : Type :=
| Renderer_Object_Opaque
| Renderer_Object_Transparent
| Renderer_Object_Light
| Renderer_Object_LightDirectional
| Renderer_Object_LightPoint
| Renderer_Object_LightSpot
| Renderer_Object_Camera.

#[global] Instance Renderer_Object_Type_eq_dec : EqDecision Renderer_Object_Type.
Proof. solve_decision. Defined.

(** [m_entities]: a vector of entities per object type. *)
Definition entity_lists : Type := Renderer_Object_Type -> list Entity.

Definition emplace_back (t : Renderer_Object_Type) (e : Entity) (m : entity_lists)
  : entity_lists :=
  fun t' => if decide (t' = t) then m t' ++ [e] else m t'.

Definition set_entities (t : Renderer_Object_Type) (l : list Entity) (m : entity_lists)
  : entity_lists :=
  fun t' => if decide (t' = t) then l else m t'.

(** *** RenderablesAcquire and RenderablesSort *)

(** The lambda [render_hash]. The hash is a [float]: 0 without renderable
    or material, otherwise what [stof] reads back from the depth and the
    material id printed side by side with a dash between them. *)
Definition render_hash (m_camera : Camera) (entity : Entity) : Q :=
  match GetRenderable entity with
  | None => 0%Q
  | Some renderable =>
      match GetMaterial renderable with
      | None => 0%Q
      | Some material =>
          let num_depth :=
            LengthSquared (Vector3_sub (GetAabb_GetCenter renderable) (GetPosition m_camera)) in
          let num_material := float_of_u32 (Material_GetId material) in
          stof (to_string num_depth +:+ "-" +:+ to_string num_material)
      end
  end.

(** The comparator handed to [sort]: [render_hash(a) < render_hash(b)]. *)
Definition render_hash_less (m_camera : Camera) (a b : Entity) : bool :=
  negb (Qle_bool (render_hash m_camera b) (render_hash m_camera a)).

Section WithSort.
Context `{StdSort}.

(** [RenderablesSort]: nothing happens without a camera or for a vector of
    at most two entities. *)
Definition RenderablesSort (m_camera : option Camera) (renderables : list Entity)
  : list Entity :=
  match m_camera with
  | None => renderables
  | Some camera =>
      if (length renderables <=? 2)%nat then renderables
      else std_sort (render_hash_less camera) renderables
  end.

(** One round of the loop of [RenderablesAcquire]; a null or inactive
    entity is skipped. *)
Definition acquire_entity (state : entity_lists * option Camera) (entity : option Entity)
  : entity_lists * option Camera :=
  match entity with
  | None => state
  | Some e =>
      if negb (IsActive e) then state else
      let '(m_entities, m_camera) := state in
      let m_entities :=
        match GetRenderable e with
        | Some renderable =>
            let is_transparent :=
              if negb (HasMaterial renderable) then false
              else match GetMaterial renderable with
                   | Some material => negb (Qle_bool 1 (GetColorAlbedo_w material))
                   | None => false
                   end in
            emplace_back (if is_transparent then Renderer_Object_Transparent
                          else Renderer_Object_Opaque) e m_entities
        | None => m_entities
        end in
      let m_entities :=
        match GetLight e with
        | Some light =>
            let m := emplace_back Renderer_Object_Light e m_entities in
            let m := if decide (GetLightType light = LightType_Directional)
                     then emplace_back Renderer_Object_LightDirectional e m else m in
            let m := if decide (GetLightType light = LightType_Point)
                     then emplace_back Renderer_Object_LightPoint e m else m in
            if decide (GetLightType light = LightType_Spot)
            then emplace_back Renderer_Object_LightSpot e m else m
        | None => m_entities
        end in
      match GetCamera e with
      | Some camera => (emplace_back Renderer_Object_Camera e m_entities, Some camera)
      | None => (m_entities, m_camera)
      end
  end.

(** [RenderablesAcquire]: the previous lists and camera are dropped, the
    entities are sorted into the lists, and the opaque and the transparent
    list are handed to [RenderablesSort]. *)
Definition RenderablesAcquire (entities : list (option Entity))
  : entity_lists * option Camera :=
  let '(m_entities, m_camera) := fold_left acquire_entity entities (fun _ => [], None) in
  let m_entities :=
    set_entities Renderer_Object_Opaque
      (RenderablesSort m_camera (m_entities Renderer_Object_Opaque)) m_entities in
  let m_entities :=
    set_entities Renderer_Object_Transparent
      (RenderablesSort m_camera (m_entities Renderer_Object_Transparent)) m_entities in
  (m_entities, m_camera).

End WithSort.

(** *** SetResolution *)

(** What a call of [SetResolution] does besides writing [m_resolution]. *)
Inductive resolution_event : Type :=
| Resolution_Log (entry : log_entry)
| CreateRenderTextures
| Fire_Event_Frame_Resolution_Changed.

(** [m_resolution] is a [Vector2] of floats that only ever receives
    converted [uint32_t] values; [max_res] is the device's
    [max_texture_dimension_2d]. *)
Record resolution_members : Type := {
  m_resolution : Z * Z;
  max_res : Z
}.

Definition SetResolution (width height : Z) (r : resolution_members)
  : resolution_members * list resolution_event :=
  if (width =? 0) || (max_res r <? width) || (height =? 0) || (max_res r <? height)
  then (r, [Resolution_Log (Log_Warning_Resolution width height)])
  else
    let width := width - (if negb (width mod 2 =? 0) then 1 else 0) in
    let height := height - (if negb (height mod 2 =? 0) then 1 else 0) in
    if ((m_resolution r).1 =? float_of_u32 width) &&
       ((m_resolution r).2 =? float_of_u32 height)
    then (r, [])
    else
      ({| m_resolution := (float_of_u32 width, float_of_u32 height);
          max_res := max_res r |},
       [CreateRenderTextures; Fire_Event_Frame_Resolution_Changed;
        Resolution_Log (Log_Info_Resolution width height)]).

(** *** The command list and the passes *)

Inductive Renderer_Shader_Type : Type :=
| Shader_Depth_V | Shader_Depth_P | Shader_Quad_V | Shader_Texture_P
| Shader_Taa_P | Shader_MotionBlur_P
| Shader_BloomDownsampleLuminance_P | Shader_BloomDownsample_P
| Shader_Upsample_P | Shader_BloomBlend_P
| Shader_ToneMapping_P | Shader_GammaCorrection_P
| Shader_Luma_P | Shader_Fxaa_P
| Shader_ChromaticAberration_P | Shader_Dithering_P | Shader_Sharpen_Luma_P.

Inductive Renderer_Option : Type :=
| Render_DepthPrepass
| Render_AntiAliasing_Taa
| Render_MotionBlur
| Render_Bloom
| Render_Dithering
| Render_AntiAliasing_Fxaa
| Render_Sharpening_LumaSharpen
| Render_ChromaticAberration.

(** The fields of [RHI_PipelineState] that tell the passes below apart. *)
Record RHI_PipelineState : Type := {
  pass_name : string;
  shader_vertex : Renderer_Shader_Type;
  shader_pixel : option Renderer_Shader_Type;
  render_target_color_texture : option texture;
  render_target_depth_texture : option texture;
  render_target_texture_array_index : Z
}.

(** Whose vertex and index buffer is bound: the full-screen quad or the
    geometry of a model. *)
Inductive geometry : Type :=
| Quad
| Model (id : Z).

(** The calls a pass makes on its [RHI_CommandList], in order. *)
Inductive command : Type :=
| Cmd_Begin (pipeline_state : RHI_PipelineState)
| Cmd_SetBufferVertex (g : geometry)
| Cmd_SetBufferIndex (g : geometry)
| Cmd_SetTexture (slot : Z) (t : option texture)
| Cmd_SetConstantBuffer (slot : Z)
| Cmd_DrawIndexed (index_count index_offset vertex_offset : Z)
| Cmd_End
| Cmd_Submit.

(** What the passes rely on and the sources do not contain: the bit each
    [Renderer_Option] stands for (Renderer.h); whether
    [RHI_CommandList::Begin] accepts a pipeline state; and, for
    [UpdateObjectBuffer], whether it succeeds and whether it rebinds the
    object buffer, both of which hang on the state of GPU buffers. *)
Class Backend : Type := {
  option_bit : Renderer_Option -> Z;
  Begin_succeeds : RHI_PipelineState -> bool;
  UpdateObjectBuffer : Entity -> Z -> bool * bool
}.

(** The render targets the post-process chain touches, each slot of
    [m_render_targets] with the texture object it currently holds. *)
Record render_targets : Type := {
  RenderTarget_Composition_Hdr : texture;
  RenderTarget_Composition_Hdr_2 : texture;
  RenderTarget_Composition_Ldr : texture;
  RenderTarget_Composition_Ldr_2 : texture;
  RenderTarget_TaaHistory : texture;
  RenderTarget_Gbuffer_Velocity : texture;
  RenderTarget_Gbuffer_Depth : texture
}.

(** The members of [Renderer] the passes read. [IsCompiled] answers for the
    shader stored under a type in [m_shaders]. *)
Record Renderer : Type := {
  m_options : Z;
  Option_Value_Tonemapping : Q;
  IsCompiled : Renderer_Shader_Type -> bool;
  m_entities : entity_lists;
  m_render_targets : render_targets;
  m_render_tex_bloom : list texture;
  m_tex_white : texture
}.

Definition Rectangle_GetIndexCount : Z := 6.

Section WithBackend.
Context `{Backend}.

(** [GetOption]: the bit of the option is set in [m_options]. *)
Definition GetOption (option : Renderer_Option) (r : Renderer) : bool :=
  negb (Z.land (m_options r) (option_bit option) =? 0).

(** [if (cmd_list->Begin(pipeline_state)) { body }]: a [Begin] that fails
    records nothing. *)
Definition begun (pipeline_state : RHI_PipelineState) (body : list command) : list command :=
  if Begin_succeeds pipeline_state then Cmd_Begin pipeline_state :: body else [].

(** **** The depth passes *)

(** The entity loop of [Pass_LightDepth]; [m_set_material_id] is the
    material bound last. *)
Fixpoint light_depth_entities (m_tex_white : texture) (light_index : nat) (array_index : Z)
  (m_set_material_id : Z) (entities : list Entity) : list command :=
  match entities with
  | [] => []
  | entity :: rest =>
      let skip := light_depth_entities m_tex_white light_index array_index
                    m_set_material_id rest in
      match GetRenderable entity with
      | None => skip
      | Some renderable =>
          if negb (GetCastShadows renderable) then skip
          else if negb (geometry_ready renderable) then skip
          else match GetMaterial renderable with
               | None => skip
               | Some material =>
                   if negb (in_light_frustrum renderable light_index array_index) then skip
                   else
                     let bind_material :=
                       if negb (m_set_material_id =? Material_GetId material)
                       then [Cmd_SetTexture 28
                               (Some (default m_tex_white (GetTexture_Albedo material)))]
                       else [] in
                     let bind_geometry :=
                       [Cmd_SetBufferIndex (Model (Geometry_GetId renderable));
                        Cmd_SetBufferVertex (Model (Geometry_GetId renderable))] in
                     let '(updated, rebound) := UpdateObjectBuffer entity array_index in
                     let bind_object := if rebound then [Cmd_SetConstantBuffer 2] else [] in
                     let draw :=
                       if updated
                       then [Cmd_DrawIndexed (GeometryIndexCount renderable)
                               (GeometryIndexOffset renderable)
                               (GeometryVertexOffset renderable)]
                       else [] in
                     bind_material ++ bind_geometry ++ bind_object ++ draw ++
                     light_depth_entities m_tex_white light_index array_index
                       (Material_GetId material) rest
               end
      end
  end.

(** The body of the loop over the lights, for the light at [light_index]. *)
Definition light_depth_light (r : Renderer) (transparent_pass : bool)
  (entities : list Entity) (light_index : nat) (light_entity : Entity) : list command :=
  match GetLight light_entity with
  | None => []
  | Some light =>
      if negb (GetShadowsEnabled light) then []
      else if transparent_pass && negb (GetShadowsTransparentEnabled light) then []
      else match GetDepthTexture light with
           | None => []
           | Some (tex_depth, array_size) =>
               flat_map
                 (fun array_index : nat =>
                    begun
                      {| pass_name := if transparent_pass then "Pass_LightShadowTransparent"
                                      else "Pass_LightShadow";
                         shader_vertex := Shader_Depth_V;
                         shader_pixel := if transparent_pass then Some Shader_Depth_P else None;
                         render_target_color_texture := GetColorTexture light;
                         render_target_depth_texture := Some tex_depth;
                         render_target_texture_array_index := Z.of_nat array_index |}
                      (light_depth_entities (m_tex_white r) light_index
                         (Z.of_nat array_index) 0 entities ++ [Cmd_End; Cmd_Submit]))
                 (seq 0 (Z.to_nat array_size))
           end
  end.

(** [Pass_LightDepth]. *)
Definition Pass_LightDepth (object_type : Renderer_Object_Type) (r : Renderer) : list command :=
  if negb (IsCompiled r Shader_Depth_V) || negb (IsCompiled r Shader_Depth_P) then []
  else
    let entities := m_entities r object_type in
    match entities with
    | [] => []
    | _ =>
        let transparent_pass := bool_decide (object_type = Renderer_Object_Transparent) in
        concat (imap (light_depth_light r transparent_pass entities)
                  (m_entities r Renderer_Object_Light))
    end.

(** The entity loop of [Pass_DepthPrePass]. *)
Fixpoint depth_prepass_entities (currently_bound_geometry : Z) (entities : list Entity)
  : list command :=
  match entities with
  | [] => []
  | entity :: rest =>
      let skip := depth_prepass_entities currently_bound_geometry rest in
      match GetRenderable entity with
      | None => skip
      | Some renderable =>
          if negb (geometry_ready renderable) then skip
          else if negb (in_view_frustrum renderable) then skip
          else
            (if negb (currently_bound_geometry =? Geometry_GetId renderable)
             then [Cmd_SetBufferIndex (Model (Geometry_GetId renderable));
                   Cmd_SetBufferVertex (Model (Geometry_GetId renderable))]
             else []) ++
            [Cmd_DrawIndexed (GeometryIndexCount renderable)
               (GeometryIndexOffset renderable) (GeometryVertexOffset renderable)] ++
            depth_prepass_entities (Geometry_GetId renderable) rest
      end
  end.

Definition depth_prepass_state (r : Renderer) : RHI_PipelineState :=
  {| pass_name := "Pass_DepthPrePass";
     shader_vertex := Shader_Depth_V;
     shader_pixel := None;
     render_target_color_texture := None;
     render_target_depth_texture := Some (RenderTarget_Gbuffer_Depth (m_render_targets r));
     render_target_texture_array_index := 0 |}.

(** [Pass_DepthPrePass]: the entity list is looked at only after [Begin]. *)
Definition Pass_DepthPrePass (r : Renderer) : list command :=
  if negb (IsCompiled r Shader_Depth_V) then []
  else
    begun (depth_prepass_state r)
      ((match m_entities r Renderer_Object_Opaque with
        | [] => []
        | entities => depth_prepass_entities 0 entities
        end) ++ [Cmd_End; Cmd_Submit]).


(** **** The post-process chain *)

(** The pipeline state of a full-screen pass: the quad vertex shader, one
    pixel shader, one colour target. *)
Definition quad_state (name : string) (pixel : Renderer_Shader_Type) (tex_out : texture)
  : RHI_PipelineState :=
  {| pass_name := name;
     shader_vertex := Shader_Quad_V;
     shader_pixel := Some pixel;
     render_target_color_texture := Some tex_out;
     render_target_depth_texture := None;
     render_target_texture_array_index := 0 |}.

Definition draw_quad : list command :=
  [Cmd_DrawIndexed Rectangle_GetIndexCount 0 0; Cmd_End; Cmd_Submit].

Definition bind_quad : list command :=
  [Cmd_SetBufferVertex Quad; Cmd_SetBufferIndex Quad].

Definition Pass_Copy (tex_in tex_out : texture) (r : Renderer) : list command :=
  if negb (IsCompiled r Shader_Quad_V) || negb (IsCompiled r Shader_Texture_P) then []
  else begun (quad_state "Pass_Copy" Shader_Texture_P tex_out)
         ([Cmd_SetTexture 28 (Some tex_in)] ++ bind_quad ++ draw_quad).

Definition Pass_TAA (tex_in tex_out : texture) (r : Renderer) : list command :=
  if negb (IsCompiled r Shader_Quad_V) || negb (IsCompiled r Shader_Taa_P) then []
  else
    let tex_history := RenderTarget_TaaHistory (m_render_targets r) in
    begun (quad_state "Pass_TAA" Shader_Taa_P tex_out)
      (bind_quad ++
       [Cmd_SetTexture 28 (Some tex_history);
        Cmd_SetTexture 29 (Some tex_in);
        Cmd_SetTexture 11 (Some (RenderTarget_Gbuffer_Velocity (m_render_targets r)));
        Cmd_SetTexture 12 (Some (RenderTarget_Gbuffer_Depth (m_render_targets r)))] ++
       draw_quad) ++
    Pass_Copy tex_out tex_history r.

Definition Pass_MotionBlur (tex_in tex_out : texture) (r : Renderer) : list command :=
  if negb (IsCompiled r Shader_MotionBlur_P) then []
  else begun (quad_state "Pass_MotionBlur" Shader_MotionBlur_P tex_out)
         (bind_quad ++
          [Cmd_SetTexture 28 (Some tex_in);
           Cmd_SetTexture 11 (Some (RenderTarget_Gbuffer_Velocity (m_render_targets r)));
           Cmd_SetTexture 12 (Some (RenderTarget_Gbuffer_Depth (m_render_targets r)))] ++
          draw_quad).

Definition Pass_Downsample (tex_in tex_out : texture) (pixel_shader : Renderer_Shader_Type)
  (r : Renderer) : list command :=
  if negb (IsCompiled r Shader_Quad_V) || negb (IsCompiled r pixel_shader) then []
  else begun (quad_state "Pass_Downsample" pixel_shader tex_out)
         (bind_quad ++ [Cmd_SetTexture 28 (Some tex_in)] ++ draw_quad).

(** The lambda [upsample] of [Pass_Bloom]. *)
Definition bloom_upsample (tex_in tex_out : texture) : list command :=
  begun (quad_state "Pass_Bloom_Upsample" Shader_Upsample_P tex_out)
    (bind_quad ++ [Cmd_SetTexture 28 (Some tex_in)] ++ draw_quad).

(** Neighbours in the bloom chain: (bloom[i], bloom[i+1]) for every i the
    loops of [Pass_Bloom] visit, in ascending order of i. *)
Definition bloom_steps (bloom : list texture) : list (texture * texture) :=
  zip bloom (tail bloom).

(** [Pass_Bloom]. The bloom vector is filled when the render textures are
    created; [m_render_tex_bloom[0]] and [front()] are its head. *)
Definition Pass_Bloom (tex_in tex_out : texture) (r : Renderer) : list command :=
  if negb (IsCompiled r Shader_BloomDownsample_P) ||
     negb (IsCompiled r Shader_BloomDownsampleLuminance_P) ||
     negb (IsCompiled r Shader_Upsample_P) ||
     negb (IsCompiled r Shader_BloomDownsample_P)
  then []
  else
    let bloom := m_render_tex_bloom r in
    let bloom_0 := hd 0 bloom in
    begun (quad_state "Pass_Bloom_Luminance" Shader_BloomDownsampleLuminance_P bloom_0)
      (bind_quad ++ [Cmd_SetTexture 28 (Some tex_in)] ++ draw_quad) ++
    flat_map (fun step => Pass_Downsample step.1 step.2 Shader_BloomDownsample_P r)
      (bloom_steps bloom) ++
    flat_map (fun step => bloom_upsample step.2 step.1) (rev (bloom_steps bloom)) ++
    begun (quad_state "Pass_Bloom_Additive_Blending" Shader_BloomBlend_P tex_out)
      (bind_quad ++
       [Cmd_SetTexture 28 (Some tex_in); Cmd_SetTexture 29 (Some bloom_0)] ++
       draw_quad).

Definition Pass_ToneMapping (tex_in tex_out : texture) (r : Renderer) : list command :=
  if negb (IsCompiled r Shader_ToneMapping_P) || negb (IsCompiled r Shader_Quad_V) then []
  else begun (quad_state "Pass_ToneMapping" Shader_ToneMapping_P tex_out)
         (bind_quad ++ [Cmd_SetTexture 28 (Some tex_in)] ++ draw_quad).

Definition Pass_GammaCorrection (tex_in tex_out : texture) (r : Renderer) : list command :=
  if negb (IsCompiled r Shader_GammaCorrection_P) || negb (IsCompiled r Shader_Quad_V) then []
  else begun (quad_state "Pass_GammaCorrection" Shader_GammaCorrection_P tex_out)
         (bind_quad ++ [Cmd_SetTexture 28 (Some tex_in)] ++ draw_quad).

(** [Pass_FXAA] takes its textures by reference and swaps them before it
    returns: the luminance pass renders into [tex_out], the FXAA pass reads
    that and renders back into [tex_in]. The result carries the two
    references as the caller finds them afterwards. *)
Definition Pass_FXAA (tex_in tex_out : texture) (r : Renderer)
  : list command * (texture * texture) :=
  if negb (IsCompiled r Shader_Quad_V) || negb (IsCompiled r Shader_Luma_P) ||
     negb (IsCompiled r Shader_Fxaa_P)
  then ([], (tex_in, tex_out))
  else
    (begun (quad_state "Pass_FXAA_Luminance" Shader_Luma_P tex_out)
       (bind_quad ++ [Cmd_SetTexture 28 (Some tex_in)] ++ draw_quad) ++
     begun (quad_state "Pass_FXAA_FXAA" Shader_Fxaa_P tex_in)
       (bind_quad ++ [Cmd_SetTexture 28 (Some tex_out)] ++ draw_quad),
     (tex_out, tex_in)).

Definition Pass_ChromaticAberration (tex_in tex_out : texture) (r : Renderer)
  : list command :=
  if negb (IsCompiled r Shader_ChromaticAberration_P) then []
  else begun (quad_state "Pass_ChromaticAberration" Shader_ChromaticAberration_P tex_out)
         (bind_quad ++ [Cmd_SetTexture 28 (Some tex_in)] ++ draw_quad).

Definition Pass_Dithering (tex_in tex_out : texture) (r : Renderer) : list command :=
  if negb (IsCompiled r Shader_Dithering_P) || negb (IsCompiled r Shader_Quad_V) then []
  else begun (quad_state "Pass_Dithering" Shader_Dithering_P tex_out)
         (bind_quad ++ [Cmd_SetTexture 28 (Some tex_in)] ++ draw_quad).

Definition Pass_LumaSharpen (tex_in tex_out : texture) (r : Renderer) : list command :=
  if negb (IsCompiled r Shader_Sharpen_Luma_P) || negb (IsCompiled r Shader_Quad_V) then []
  else begun (quad_state "Pass_LumaSharpen" Shader_Sharpen_Luma_P tex_out)
         (bind_quad ++ [Cmd_SetTexture 28 (Some tex_in)] ++ draw_quad).

(** The local references of [Pass_PostProcess] into [m_render_targets]:
    the HDR pair and the LDR pair, each as (in, out). *)
Definition ping_pong : Type := (texture * texture) * (texture * texture).

(** A stage guarded by a render option: when the option is on, the pass
    runs on (in, out) of the pair and the two are swapped. *)
Definition optional_stage (enabled : bool)
  (pass : texture -> texture -> Renderer -> list command)
  (r : Renderer) (pair : texture * texture) : list command * (texture * texture) :=
  if enabled then (pass pair.1 pair.2 r, (pair.2, pair.1)) else ([], pair).

(** [Pass_PostProcess]: the commands it records and the render-target
    slots as it leaves them. *)
Definition Pass_PostProcess (r : Renderer) : list command * render_targets :=
  let targets := m_render_targets r in
  let hdr := (RenderTarget_Composition_Hdr targets, RenderTarget_Composition_Hdr_2 targets) in
  let ldr := (RenderTarget_Composition_Ldr targets, RenderTarget_Composition_Ldr_2 targets) in
  (* TAA *)
  let '(taa, hdr) := optional_stage (GetOption Render_AntiAliasing_Taa r) Pass_TAA r hdr in
  (* Motion Blur *)
  let '(motion_blur, hdr) := optional_stage (GetOption Render_MotionBlur r) Pass_MotionBlur r hdr in
  (* Bloom *)
  let '(bloom, hdr) := optional_stage (GetOption Render_Bloom r) Pass_Bloom r hdr in
  (* Tone-Mapping, HDR -> LDR *)
  let tone_mapping :=
    if negb (Qeq_bool (Option_Value_Tonemapping r) 0)
    then Pass_ToneMapping hdr.1 ldr.1 r
    else Pass_Copy hdr.1 ldr.1 r in
  (* Dithering *)
  let '(dithering, ldr) := optional_stage (GetOption Render_Dithering r) Pass_Dithering r ldr in
  (* FXAA *)
  let '(fxaa, ldr) :=
    if GetOption Render_AntiAliasing_Fxaa r
    then let '(commands, (tex_in, tex_out)) := Pass_FXAA ldr.1 ldr.2 r in
         (commands, (tex_out, tex_in))
    else ([], ldr) in
  (* Sharpening *)
  let '(sharpen, ldr) :=
    optional_stage (GetOption Render_Sharpening_LumaSharpen r) Pass_LumaSharpen r ldr in
  (* Chromatic aberration *)
  let '(chromatic_aberration, ldr) :=
    optional_stage (GetOption Render_ChromaticAberration r) Pass_ChromaticAberration r ldr in
  (* Gamma correction, then the last swap *)
  let gamma := Pass_GammaCorrection ldr.1 ldr.2 r in
  let ldr := (ldr.2, ldr.1) in
  (taa ++ motion_blur ++ bloom ++ tone_mapping ++ dithering ++ fxaa ++ sharpen ++
   chromatic_aberration ++ gamma,
   {| RenderTarget_Composition_Hdr := hdr.1;
      RenderTarget_Composition_Hdr_2 := hdr.2;
      RenderTarget_Composition_Ldr := ldr.1;
      RenderTarget_Composition_Ldr_2 := ldr.2;
      RenderTarget_TaaHistory := RenderTarget_TaaHistory targets;
      RenderTarget_Gbuffer_Velocity := RenderTarget_Gbuffer_Velocity targets;
      RenderTarget_Gbuffer_Depth := RenderTarget_Gbuffer_Depth targets |}).

End WithBackend.

End Renderer.

(** * Vocabulary of the statements, and examples *)

(** One adapter registered and selected as primary. *)
Definition single_adapter_device : Device.RHI_Device :=
  Device.set_physical_devices [Device.adapter "A" 8192] (Device.fresh_device 16384).

(** What identifies a descriptor within a layout. *)
Definition descriptor_key (d : DescriptorCache.RHI_Descriptor)
  : DescriptorCache.RHI_Descriptor_Type * Z :=
  (DescriptorCache.type d, DescriptorCache.slot d).

(** Shader reflection reports the resources a stage declares; the dynamic
    constant-buffer kind only comes out of [GenerateDescriptors]. *)
Definition reflected (ds : list DescriptorCache.RHI_Descriptor) : Prop :=
  Forall (fun d => DescriptorCache.type d
                   <> DescriptorCache.RHI_Descriptor_ConstantBufferDynamic) ds.

(** The descriptor as the last loop of [GenerateDescriptors] leaves it. *)
Definition after_dynamic (ps : DescriptorCache.RHI_PipelineState)
  (context : DescriptorCache.RHI_Context) (d : DescriptorCache.RHI_Descriptor)
  : DescriptorCache.RHI_Descriptor :=
  if DescriptorCache.dynamic_constant_buffer_slot ps =? -1 then d
  else DescriptorCache.make_dynamic (DescriptorCache.dynamic_constant_buffer_slot ps)
         (DescriptorCache.shader_shift_buffer context) d.

(** The list [GenerateDescriptors] builds before its last loop. *)
Definition merged_descriptors (vertex : DescriptorCache.RHI_Shader)
  (pixel : option DescriptorCache.RHI_Shader) : list DescriptorCache.RHI_Descriptor :=
  match pixel with
  | None => DescriptorCache.GetDescriptors vertex
  | Some p => fold_left DescriptorCache.merge_descriptor
                (DescriptorCache.GetDescriptors p) (DescriptorCache.GetDescriptors vertex)
  end.

(** Collaborators for the examples: the usual golden-ratio [hash_combine]
    on a 64-bit [size_t], and a layout that keeps no bindings. *)
Definition example_collaborators : DescriptorCache.Collaborators := {|
  DescriptorCache.hash_combine seed v :=
    Z.lxor seed (v + 0x9e3779b9 + Z.shiftl seed 6 + Z.shiftr seed 2) mod 2 ^ 64;
  DescriptorCache.layout_SetConstantBuffer _ _ l := l;
  DescriptorCache.layout_SetSampler _ _ l := l;
  DescriptorCache.layout_SetTexture _ _ l := l;
  DescriptorCache.layout_GetResource_DescriptorSetLayout _ := Some 1;
  DescriptorCache.layout_GetResource_DescriptorSet _ l := (l, true, Some 2);
  DescriptorCache.layout_GetDynamicOffsets _ := []
|}.

(** A cache as the renderer creates it, on a device with a context. *)
Definition example_cache : DescriptorCache.RHI_DescriptorCache :=
  (DescriptorCache.RHI_DescriptorCache_new
     (Some (Some {| DescriptorCache.shader_shift_buffer := 0 |})) 16).1.

(** [grows k c c']: [c'] is reached from [c] by calls of the cache's member
    functions, [k] of which were calls of [GrowIfNeeded] that found the
    cache over budget. No other member function writes
    [m_descriptor_set_capacity]. *)
Inductive grows : nat -> DescriptorCache.RHI_DescriptorCache ->
                  DescriptorCache.RHI_DescriptorCache -> Prop :=
| grows_none c : grows 0 c c
| grows_other k c c1 c2 :
    grows k c c1 ->
    DescriptorCache.m_descriptor_set_capacity c2
      = DescriptorCache.m_descriptor_set_capacity c1 ->
    grows k c c2
| grows_call k c c1 :
    grows k c c1 ->
    grows (k + (if (DescriptorCache.m_descriptor_set_capacity c1
                    <? wrap32 (DescriptorCache.GetDescriptorSetCount c1 + 1))%Z
                then 1 else 0))%nat
      c (DescriptorCache.GrowIfNeeded c1).1.

(** A cache at its budget: one layout holding all 16 descriptor sets. *)
Definition full_cache : DescriptorCache.RHI_DescriptorCache :=
  DescriptorCache.set_layouts
    {[ 1 := {| DescriptorCache.layout_descriptors := [];
               DescriptorCache.layout_needs_to_bind := false;
               DescriptorCache.layout_descriptor_set_count := 16 |} ]}
    example_cache.

(** The descriptor sets of all layouts together, as a plain sum. *)
Definition total_descriptor_sets (c : DescriptorCache.RHI_DescriptorCache) : Z :=
  foldr Z.add 0
    (DescriptorCache.layout_descriptor_set_count <$>
       (map_to_list (DescriptorCache.m_descriptor_set_layouts c)).*2).

(** A cache at a budget of 2^31: one layout holding all 2^31 descriptor
    sets. *)
Definition huge_cache : DescriptorCache.RHI_DescriptorCache :=
  DescriptorCache.set_capacity (2 ^ 31)
    (DescriptorCache.set_layouts
       {[ 1 := {| DescriptorCache.layout_descriptors := [];
                  DescriptorCache.layout_needs_to_bind := false;
                  DescriptorCache.layout_descriptor_set_count := 2 ^ 31 |} ]}
       example_cache).

(** A cache constructed with a capacity of 0. *)
Definition zero_cache : DescriptorCache.RHI_DescriptorCache :=
  (DescriptorCache.RHI_DescriptorCache_new
     (Some (Some {| DescriptorCache.shader_shift_buffer := 0 |})) 0).1.

(** A cache without device whose one layout holds 40 descriptor sets
    against a capacity of 16. *)
Definition overfull_cache : DescriptorCache.RHI_DescriptorCache :=
  DescriptorCache.set_layouts
    {[ 1 := {| DescriptorCache.layout_descriptors := [];
               DescriptorCache.layout_needs_to_bind := false;
               DescriptorCache.layout_descriptor_set_count := 40 |} ]}
    (DescriptorCache.RHI_DescriptorCache_new None 16).1.

(** A vertex and a pixel shader that both declare the frame constant
    buffer at slot 0; the pixel shader adds a texture and a sampler. *)
Definition example_vertex_shader : DescriptorCache.RHI_Shader := {|
  DescriptorCache.GetId := 11;
  DescriptorCache.GetName := "quad.hlsl";
  DescriptorCache.GetCompilationState := DescriptorCache.Shader_Compilation_Succeeded;
  DescriptorCache.GetDescriptors :=
    [ {| DescriptorCache.type := DescriptorCache.RHI_Descriptor_ConstantBuffer;
         DescriptorCache.slot := 0; DescriptorCache.stage := 1 |};
      {| DescriptorCache.type := DescriptorCache.RHI_Descriptor_ConstantBuffer;
         DescriptorCache.slot := 2; DescriptorCache.stage := 1 |} ]
|}.

Definition example_pixel_shader : DescriptorCache.RHI_Shader := {|
  DescriptorCache.GetId := 12;
  DescriptorCache.GetName := "texture.hlsl";
  DescriptorCache.GetCompilationState := DescriptorCache.Shader_Compilation_Succeeded;
  DescriptorCache.GetDescriptors :=
    [ {| DescriptorCache.type := DescriptorCache.RHI_Descriptor_ConstantBuffer;
         DescriptorCache.slot := 0; DescriptorCache.stage := 2 |};
      {| DescriptorCache.type := DescriptorCache.RHI_Descriptor_SampledImage;
         DescriptorCache.slot := 28; DescriptorCache.stage := 2 |};
      {| DescriptorCache.type := DescriptorCache.RHI_Descriptor_Sampler;
         DescriptorCache.slot := 0; DescriptorCache.stage := 2 |} ]
|}.

Definition example_pipeline_state : DescriptorCache.RHI_PipelineState := {|
  DescriptorCache.shader_vertex := Some example_vertex_shader;
  DescriptorCache.shader_pixel := Some example_pixel_shader;
  DescriptorCache.dynamic_constant_buffer_slot := 2
|}.

Fixpoint all_digits (s : string) : Prop :=
  match s with
  | EmptyString => True
  | String c rest => Renderer.is_digit c = true /\ all_digits rest
  end.

(** The number a digit string continues [acc] to. *)
Fixpoint digits_value (s : string) (acc : Z) : Z :=
  match s with
  | EmptyString => acc
  | String c rest => digits_value rest (acc * 10 + Renderer.digit_value c)
  end.

(** An active entity with an opaque material and nothing else. *)
Definition opaque_entity (centre : Renderer.Vector3) (material_id : Z) : Renderer.Entity := {|
  Renderer.IsActive := true;
  Renderer.GetRenderable := Some {|
    Renderer.GetMaterial := Some {| Renderer.Material_GetId := material_id;
                                    Renderer.GetColorAlbedo_w := 1;
                                    Renderer.GetTexture_Albedo := None |};
    Renderer.GetAabb_GetCenter := centre;
    Renderer.GetCastShadows := true;
    Renderer.geometry_ready := true;
    Renderer.Geometry_GetId := 1;
    Renderer.GeometryIndexCount := 36;
    Renderer.GeometryIndexOffset := 0;
    Renderer.GeometryVertexOffset := 0;
    Renderer.in_view_frustrum := true;
    Renderer.in_light_frustrum := fun _ _ => true |};
  Renderer.GetLight := None;
  Renderer.GetCamera := None
|}.

Definition camera_entity (position : Renderer.Vector3) : Renderer.Entity := {|
  Renderer.IsActive := true;
  Renderer.GetRenderable := None;
  Renderer.GetLight := None;
  Renderer.GetCamera := Some {| Renderer.GetPosition := position |}
|}.

Definition origin : Renderer.Vector3 := {| Renderer.x := 0; Renderer.y := 0; Renderer.z := 0 |}.

Definition on_x_axis (distance : Z) : Renderer.Vector3 :=
  {| Renderer.x := distance; Renderer.y := 0; Renderer.z := 0 |}.

(** The depth that [render_hash] turns into the sort key: the squared
    distance of the box centre from the camera, or 0 for an entity without
    renderable or material. *)
Definition sort_depth (camera : Renderer.Camera) (entity : Renderer.Entity) : Z :=
  match Renderer.GetRenderable entity with
  | None => 0
  | Some renderable =>
      match Renderer.GetMaterial renderable with
      | None => 0
      | Some _ =>
          Renderer.LengthSquared
            (Renderer.Vector3_sub (Renderer.GetAabb_GetCenter renderable)
               (Renderer.GetPosition camera))
      end
  end.

(** A backend for the examples: the options take the bits 1, 2, 4, ... in
    the order of the enumeration, [Begin] accepts every pipeline state, and
    the object buffer never needs work. *)
Definition example_backend : Renderer.Backend := {|
  Renderer.option_bit o :=
    match o with
    | Renderer.Render_DepthPrepass => 1
    | Renderer.Render_AntiAliasing_Taa => 2
    | Renderer.Render_MotionBlur => 4
    | Renderer.Render_Bloom => 8
    | Renderer.Render_Dithering => 16
    | Renderer.Render_AntiAliasing_Fxaa => 32
    | Renderer.Render_Sharpening_LumaSharpen => 64
    | Renderer.Render_ChromaticAberration => 128
    end;
  Renderer.Begin_succeeds _ := true;
  Renderer.UpdateObjectBuffer _ _ := (true, false)
|}.

Definition example_targets : Renderer.render_targets := {|
  Renderer.RenderTarget_Composition_Hdr := 1;
  Renderer.RenderTarget_Composition_Hdr_2 := 2;
  Renderer.RenderTarget_Composition_Ldr := 3;
  Renderer.RenderTarget_Composition_Ldr_2 := 4;
  Renderer.RenderTarget_TaaHistory := 5;
  Renderer.RenderTarget_Gbuffer_Velocity := 6;
  Renderer.RenderTarget_Gbuffer_Depth := 7
|}.

(** A renderer with every shader compiled, the given options and no
    entities at all. *)
Definition empty_scene (options : Z) (tonemapping : Q) : Renderer.Renderer := {|
  Renderer.m_options := options;
  Renderer.Option_Value_Tonemapping := tonemapping;
  Renderer.IsCompiled _ := true;
  Renderer.m_entities _ := [];
  Renderer.m_render_targets := example_targets;
  Renderer.m_render_tex_bloom := [10; 11; 12];
  Renderer.m_tex_white := 20
|}.

(** What a texture holds, told by how it was made: what it held before the
    chain started, or the output of a pass over the images it sampled. *)
#[warnings="-register-all"]
Inductive image : Type :=
| Image_Before (t : Renderer.texture)
| Image_Shaded (pass : string) (inputs : list image).

(** The state of the GPU as far as the chain is concerned: the image in
    each texture, and what the open pass has bound. *)
Record gpu : Type := {
  contents : Renderer.texture -> image;
  bound_pipeline : option Renderer.RHI_PipelineState;
  bound_textures : list Renderer.texture
}.

Definition write (c : Renderer.texture -> image) (t : Renderer.texture) (i : image)
  : Renderer.texture -> image :=
  fun t' => if decide (t' = t) then i else c t'.

(** The effect of one recorded command: [Begin] opens a pass with nothing
    bound, [SetTexture] binds a texture, and a draw writes to the colour
    target the image of the pass over the bound textures. *)
Definition exec_command (g : gpu) (c : Renderer.command) : gpu :=
  match c with
  | Renderer.Cmd_Begin pipeline_state =>
      {| contents := contents g;
         bound_pipeline := Some pipeline_state;
         bound_textures := [] |}
  | Renderer.Cmd_SetTexture _ (Some t) =>
      {| contents := contents g;
         bound_pipeline := bound_pipeline g;
         bound_textures := bound_textures g ++ [t] |}
  | Renderer.Cmd_DrawIndexed _ _ _ =>
      match bound_pipeline g with
      | Some pipeline_state =>
          match Renderer.render_target_color_texture pipeline_state with
          | Some target =>
              {| contents :=
                   write (contents g) target
                     (Image_Shaded (Renderer.pass_name pipeline_state)
                        (contents g <$> bound_textures g));
                 bound_pipeline := bound_pipeline g;
                 bound_textures := bound_textures g |}
          | None => g
          end
      | None => g
      end
  | _ => g
  end.

Definition exec (commands : list Renderer.command) (g : gpu) : gpu :=
  fold_left exec_command commands g.

Definition gpu_before : gpu :=
  {| contents := Image_Before; bound_pipeline := None; bound_textures := [] |}.

(** The image at the top of the bloom chain after the luminance pass, the
    way down and the way up, for a chain of [n] textures. *)
Definition bloom_pyramid (n : nat) (x : image) : image :=
  Nat.iter (n - 1) (fun i => Image_Shaded "Pass_Bloom_Upsample" [i])
    (Nat.iter (n - 1) (fun i => Image_Shaded "Pass_Downsample" [i])
       (Image_Shaded "Pass_Bloom_Luminance" [x])).

(** The chain as the specification words it: the stages in their fixed
    order, each applied to the image the stage before it produced. *)
Definition post_process_image `{Renderer.Backend} (r : Renderer.Renderer)
  (before : Renderer.texture -> image) : image :=
  let targets := Renderer.m_render_targets r in
  let velocity := before (Renderer.RenderTarget_Gbuffer_Velocity targets) in
  let depth := before (Renderer.RenderTarget_Gbuffer_Depth targets) in
  let x := before (Renderer.RenderTarget_Composition_Hdr targets) in
  let x := if Renderer.GetOption Renderer.Render_AntiAliasing_Taa r
           then Image_Shaded "Pass_TAA"
                  [before (Renderer.RenderTarget_TaaHistory targets); x; velocity; depth]
           else x in
  let x := if Renderer.GetOption Renderer.Render_MotionBlur r
           then Image_Shaded "Pass_MotionBlur" [x; velocity; depth] else x in
  let x := if Renderer.GetOption Renderer.Render_Bloom r
           then Image_Shaded "Pass_Bloom_Additive_Blending"
                  [x; bloom_pyramid (length (Renderer.m_render_tex_bloom r)) x]
           else x in
  let x := if negb (Qeq_bool (Renderer.Option_Value_Tonemapping r) 0)
           then Image_Shaded "Pass_ToneMapping" [x]
           else Image_Shaded "Pass_Copy" [x] in
  let x := if Renderer.GetOption Renderer.Render_Dithering r
           then Image_Shaded "Pass_Dithering" [x] else x in
  let x := if Renderer.GetOption Renderer.Render_AntiAliasing_Fxaa r
           then Image_Shaded "Pass_FXAA_FXAA" [Image_Shaded "Pass_FXAA_Luminance" [x]]
           else x in
  let x := if Renderer.GetOption Renderer.Render_Sharpening_LumaSharpen r
           then Image_Shaded "Pass_LumaSharpen" [x] else x in
  let x := if Renderer.GetOption Renderer.Render_ChromaticAberration r
           then Image_Shaded "Pass_ChromaticAberration" [x] else x in
  Image_Shaded "Pass_GammaCorrection" [x].

(** The deepest texture of a bloom chain that starts at [b]. *)
Fixpoint deepest (b : Renderer.texture) (rest : list Renderer.texture) : Renderer.texture :=
  match rest with
  | [] => b
  | b1 :: rest' => deepest b1 rest'
  end.

(** The names of the passes a command list begins, in order. *)
Definition begun_passes (commands : list Renderer.command) : list string :=
  omap (fun c => match c with
                 | Renderer.Cmd_Begin pipeline_state =>
                     Some (Renderer.pass_name pipeline_state)
                 | _ => None
                 end) commands.

(** The passes of the chain by name: the stages in their fixed order, a
    stage behind an option only when the option is on. *)
Definition chain_passes `{Renderer.Backend} (r : Renderer.Renderer) : list string :=
  let levels := (length (Renderer.m_render_tex_bloom r) - 1)%nat in
  (if Renderer.GetOption Renderer.Render_AntiAliasing_Taa r
   then ["Pass_TAA"; "Pass_Copy"] else []) ++
  (if Renderer.GetOption Renderer.Render_MotionBlur r then ["Pass_MotionBlur"] else []) ++
  (if Renderer.GetOption Renderer.Render_Bloom r
   then ["Pass_Bloom_Luminance"] ++ replicate levels "Pass_Downsample" ++
        replicate levels "Pass_Bloom_Upsample" ++ ["Pass_Bloom_Additive_Blending"]
   else []) ++
  [if negb (Qeq_bool (Renderer.Option_Value_Tonemapping r) 0)
   then "Pass_ToneMapping" else "Pass_Copy"] ++
  (if Renderer.GetOption Renderer.Render_Dithering r then ["Pass_Dithering"] else []) ++
  (if Renderer.GetOption Renderer.Render_AntiAliasing_Fxaa r
   then ["Pass_FXAA_Luminance"; "Pass_FXAA_FXAA"] else []) ++
  (if Renderer.GetOption Renderer.Render_Sharpening_LumaSharpen r
   then ["Pass_LumaSharpen"] else []) ++
  (if Renderer.GetOption Renderer.Render_ChromaticAberration r
   then ["Pass_ChromaticAberration"] else []) ++
  ["Pass_GammaCorrection"].

Definition swap_pair (pair : Renderer.texture * Renderer.texture)
  : Renderer.texture * Renderer.texture := (pair.2, pair.1).

(** How often [Pass_PostProcess] swaps each ping-pong pair: once after
    each enabled stage on it, FXAA once more inside the pass, and once after
    gamma correction. *)
Definition hdr_swaps `{Renderer.Backend} (r : Renderer.Renderer) : nat :=
  (Nat.b2n (Renderer.GetOption Renderer.Render_AntiAliasing_Taa r) +
   Nat.b2n (Renderer.GetOption Renderer.Render_MotionBlur r) +
   Nat.b2n (Renderer.GetOption Renderer.Render_Bloom r))%nat.

Definition ldr_swaps `{Renderer.Backend} (r : Renderer.Renderer) : nat :=
  (Nat.b2n (Renderer.GetOption Renderer.Render_Dithering r) +
   2 * Nat.b2n (Renderer.GetOption Renderer.Render_AntiAliasing_Fxaa r) +
   Nat.b2n (Renderer.GetOption Renderer.Render_Sharpening_LumaSharpen r) +
   Nat.b2n (Renderer.GetOption Renderer.Render_ChromaticAberration r) + 1)%nat.

(** The two references of a ping-pong pair after any number of swaps. *)
Definition ping_pong_of (base pair : Renderer.texture * Renderer.texture) : Prop :=
  pair = base \/ pair = (base.2, base.1).

(** A pass that draws once, from the one texture it samples. *)
Definition draws_from_input `{Renderer.Backend} (r : Renderer.Renderer)
  (pass : Renderer.texture -> Renderer.texture -> Renderer.Renderer -> list Renderer.command)
  (name : string) : Prop :=
  forall tex_in tex_out g,
    contents (exec (pass tex_in tex_out r) g)
    = write (contents g) tex_out (Image_Shaded name [contents g tex_in]) /\
    begun_passes (pass tex_in tex_out r) = [name].

(** * Further parts of the engine

    The functions around the ones above: the rest of RHI_Device.cpp, the
    texture flags of RHI_Texture.h, the option and debug-line functions of
    Renderer.cpp, the shader-variation cache, the bounding box, the resource
    cache and the vertex-buffer bookkeeping. *)

(** ** RHI_Device: the primary display mode (Runtime/RHI/RHI_Device.cpp) *)
Module DisplayModes.

(** [GetPrimaryDisplayMode]: [nullptr] when the index is not below the
    size, else the address of the element. *)
Definition GetPrimaryDisplayMode (d : Device.RHI_Device) : option Device.DisplayMode :=
  if Z.of_nat (length (Device.m_display_modes d)) <=? Device.m_display_mode_index d
  then None
  else Device.m_display_modes d !! Z.to_nat (Device.m_display_mode_index d).

End DisplayModes.

(** ** RHI_Texture: flags and format tests (RHI/RHI_Texture.h) *)
Module Texture.

Definition UINT16_MOD : Z := 2 ^ 16.

(** Storing an [int] into the [uint16_t] member [m_flags]. *)
Definition wrap16 (z : Z) : Z := z mod UINT16_MOD.

(** [enum RHI_Texture_Flags : uint16_t]. *)
Definition RHI_Texture_ShaderView : Z := Z.shiftl 1 0.
Definition RHI_Texture_UnorderedAccessView : Z := Z.shiftl 1 1.
Definition RHI_Texture_RenderTargetView : Z := Z.shiftl 1 2.
Definition RHI_Texture_DepthStencilView : Z := Z.shiftl 1 3.
Definition RHI_Texture_DepthStencilViewReadOnly : Z := Z.shiftl 1 4.
Definition RHI_Texture_Grayscale : Z := Z.shiftl 1 5.
Definition RHI_Texture_Transparent : Z := Z.shiftl 1 6.
Definition RHI_Texture_GenerateMipsWhenLoading : Z := Z.shiftl 1 7.

Section WithFormat.
(** [RHI_Format] is declared in RHI_Definition.h; the class names two of
    its values. *)
Context {RHI_Format : Type} `{EqDecision RHI_Format}.
Variables RHI_Format_D32_Float RHI_Format_D32_Float_S8X24_Uint : RHI_Format.

(** The two members the functions below read and write. *)
Record RHI_Texture : Type := {
  m_flags : Z;
  m_format : RHI_Format
}.

Definition set_flags (flags : Z) (t : RHI_Texture) : RHI_Texture :=
  {| m_flags := flags; m_format := m_format t |}.

(** The getters return the masked flags as they are, an [int] that is
    either zero or the flag. *)
Definition GetGrayscale (t : RHI_Texture) : Z := Z.land (m_flags t) RHI_Texture_Grayscale.

Definition GetTransparency (t : RHI_Texture) : Z :=
  Z.land (m_flags t) RHI_Texture_Transparent.

(** [is_grayscale ? m_flags |= flag : m_flags &= ~flag]: the operands are
    promoted to [int], and the result goes back into 16 bits. *)
Definition SetGrayscale (is_grayscale : bool) (t : RHI_Texture) : RHI_Texture :=
  set_flags
    (wrap16 (if is_grayscale then Z.lor (m_flags t) RHI_Texture_Grayscale
             else Z.land (m_flags t) (Z.lnot RHI_Texture_Grayscale))) t.

Definition SetTransparency (is_transparent : bool) (t : RHI_Texture) : RHI_Texture :=
  set_flags
    (wrap16 (if is_transparent then Z.lor (m_flags t) RHI_Texture_Transparent
             else Z.land (m_flags t) (Z.lnot RHI_Texture_Transparent))) t.

(** The binding tests convert the masked flags to [bool]. *)
Definition IsSampled (t : RHI_Texture) : bool :=
  negb (Z.land (m_flags t) RHI_Texture_ShaderView =? 0).

Definition IsRenderTargetCompute (t : RHI_Texture) : bool :=
  negb (Z.land (m_flags t) RHI_Texture_UnorderedAccessView =? 0).

Definition IsRenderTargetDepthStencil (t : RHI_Texture) : bool :=
  negb (Z.land (m_flags t) RHI_Texture_DepthStencilView =? 0).

Definition IsRenderTargetColor (t : RHI_Texture) : bool :=
  negb (Z.land (m_flags t) RHI_Texture_RenderTargetView =? 0).

Definition IsDepthFormat (t : RHI_Texture) : bool :=
  bool_decide (m_format t = RHI_Format_D32_Float) ||
  bool_decide (m_format t = RHI_Format_D32_Float_S8X24_Uint).

Definition IsStencilFormat (t : RHI_Texture) : bool :=
  bool_decide (m_format t = RHI_Format_D32_Float_S8X24_Uint).

Definition IsDepthStencil (t : RHI_Texture) : bool := IsDepthFormat t || IsStencilFormat t.

Definition IsColorFormat (t : RHI_Texture) : bool := negb (IsDepthStencil t).

End WithFormat.

End Texture.

(** ** Renderer: options (Renderer.cpp) *)
Module RendererOptions.

Definition set_options (options : Z) (r : Renderer.Renderer) : Renderer.Renderer :=
  {| Renderer.m_options := options;
     Renderer.Option_Value_Tonemapping := Renderer.Option_Value_Tonemapping r;
     Renderer.IsCompiled := Renderer.IsCompiled r;
     Renderer.m_entities := Renderer.m_entities r;
     Renderer.m_render_targets := Renderer.m_render_targets r;
     Renderer.m_render_tex_bloom := Renderer.m_render_tex_bloom r;
     Renderer.m_tex_white := Renderer.m_tex_white r |}.

Section WithBackend.
Context `{Renderer.Backend}.

(** [SetOption]: [m_options |= option] when the option is to be enabled and
    is not, [m_options &= ~option] when it is to be disabled and is set, and
    nothing otherwise. Setting and masking bits of an unsigned word stays
    within the word, whatever its width. *)
Definition SetOption (option : Renderer.Renderer_Option) (enable : bool)
  (r : Renderer.Renderer) : Renderer.Renderer :=
  if enable && negb (Renderer.GetOption option r)
  then set_options (Z.lor (Renderer.m_options r) (Renderer.option_bit option)) r
  else if negb enable && Renderer.GetOption option r
  then set_options (Z.land (Renderer.m_options r) (Z.lnot (Renderer.option_bit option))) r
  else r.

End WithBackend.

End RendererOptions.

(** ** Renderer: what RenderablesAcquire is to collect *)

(** The entities the loop of [RenderablesAcquire] looks at: the non-null,
    active ones, in their order. *)
Definition active_entities (entities : list (option Renderer.Entity)) : list Renderer.Entity :=
  omap (fun entity => match entity with
                      | Some e => if Renderer.IsActive e then Some e else None
                      | None => None
                      end) entities.

(** A renderable whose material has an albedo alpha below one. *)
Definition is_transparent (e : Renderer.Entity) : bool :=
  match Renderer.GetRenderable e with
  | Some renderable =>
      match Renderer.GetMaterial renderable with
      | Some material => negb (Qle_bool 1 (Renderer.GetColorAlbedo_w material))
      | None => false
      end
  | None => false
  end.

Definition has_light_of (type : Renderer.LightType) (e : Renderer.Entity) : bool :=
  match Renderer.GetLight e with
  | Some light => bool_decide (Renderer.GetLightType light = type)
  | None => false
  end.

(** Which entities belong into the list of an object type. *)
Definition belongs_to (t : Renderer.Renderer_Object_Type) (e : Renderer.Entity) : bool :=
  match t with
  | Renderer.Renderer_Object_Opaque =>
      bool_decide (is_Some (Renderer.GetRenderable e)) && negb (is_transparent e)
  | Renderer.Renderer_Object_Transparent => is_transparent e
  | Renderer.Renderer_Object_Light => bool_decide (is_Some (Renderer.GetLight e))
  | Renderer.Renderer_Object_LightDirectional => has_light_of Renderer.LightType_Directional e
  | Renderer.Renderer_Object_LightPoint => has_light_of Renderer.LightType_Point e
  | Renderer.Renderer_Object_LightSpot => has_light_of Renderer.LightType_Spot e
  | Renderer.Renderer_Object_Camera => bool_decide (is_Some (Renderer.GetCamera e))
  end.

(** ** Renderer: debug lines (Renderer.cpp) *)
Module DebugLines.

Section WithFloat.
(** Coordinates are floats and colours are [Vector4]s; the functions below
    copy them around, and only [DrawRectangle] computes with them: two float
    additions, taken as they come. *)
Context {float color : Type}.
Variable add : float -> float -> float.
Variable float_5 : float.

Record Vector3 : Type := { x : float; y : float; z : float }.

(** [RHI_Vertex_PosCol]. *)
Definition vertex : Type := Vector3 * color.

Record BoundingBox : Type := { GetMin : Vector3; GetMax : Vector3 }.

Record Rectangle : Type := { left : float; top : float; right : float; bottom : float }.

(** What [DrawRectangle] reads of the camera. *)
Record Camera : Type := { GetPosition_z : float; GetNearPlane : float }.

Record line_lists : Type := {
  m_lines_list_depth_enabled : list vertex;
  m_lines_list_depth_disabled : list vertex
}.

(** [DrawLine]: two [emplace_back]s on the list the depth flag picks. *)
Definition DrawLine (from to : Vector3) (color_from color_to : color) (depth : bool)
  (lists : line_lists) : line_lists :=
  if depth
  then {| m_lines_list_depth_enabled :=
            m_lines_list_depth_enabled lists ++ [(from, color_from); (to, color_to)];
          m_lines_list_depth_disabled := m_lines_list_depth_disabled lists |}
  else {| m_lines_list_depth_enabled := m_lines_list_depth_enabled lists;
          m_lines_list_depth_disabled :=
            m_lines_list_depth_disabled lists ++ [(from, color_from); (to, color_to)] |}.

Definition Vector3_new (x y z : float) : Vector3 := {| x := x; y := y; z := z |}.

(** [DrawRectangle]; [None]: the call dereferences a null [m_camera]. *)
Definition DrawRectangle (rectangle : Rectangle) (color : color) (depth : bool)
  (m_camera : option Camera) (lists : line_lists) : option line_lists :=
  match m_camera with
  | None => None
  | Some camera =>
      let cam_z := add (add (GetPosition_z camera) (GetNearPlane camera)) float_5 in
      let lists :=
        DrawLine (Vector3_new (left rectangle) (top rectangle) cam_z)
                 (Vector3_new (right rectangle) (top rectangle) cam_z) color color depth lists in
      let lists :=
        DrawLine (Vector3_new (right rectangle) (top rectangle) cam_z)
                 (Vector3_new (right rectangle) (bottom rectangle) cam_z) color color depth lists in
      let lists :=
        DrawLine (Vector3_new (right rectangle) (bottom rectangle) cam_z)
                 (Vector3_new (left rectangle) (bottom rectangle) cam_z) color color depth lists in
      Some (DrawLine (Vector3_new (left rectangle) (bottom rectangle) cam_z)
                     (Vector3_new (left rectangle) (top rectangle) cam_z) color color depth lists)
  end.

(** [DrawBox]: twelve [DrawLine] calls. *)
Definition DrawBox (box : BoundingBox) (color : color) (depth : bool) (lists : line_lists)
  : line_lists :=
  let min := GetMin box in
  let max := GetMax box in
  let line from to lists := DrawLine from to color color depth lists in
  let lists := line (Vector3_new (x min) (y min) (z min)) (Vector3_new (x max) (y min) (z min)) lists in
  let lists := line (Vector3_new (x max) (y min) (z min)) (Vector3_new (x max) (y max) (z min)) lists in
  let lists := line (Vector3_new (x max) (y max) (z min)) (Vector3_new (x min) (y max) (z min)) lists in
  let lists := line (Vector3_new (x min) (y max) (z min)) (Vector3_new (x min) (y min) (z min)) lists in
  let lists := line (Vector3_new (x min) (y min) (z min)) (Vector3_new (x min) (y min) (z max)) lists in
  let lists := line (Vector3_new (x max) (y min) (z min)) (Vector3_new (x max) (y min) (z max)) lists in
  let lists := line (Vector3_new (x max) (y max) (z min)) (Vector3_new (x max) (y max) (z max)) lists in
  let lists := line (Vector3_new (x min) (y max) (z min)) (Vector3_new (x min) (y max) (z max)) lists in
  let lists := line (Vector3_new (x min) (y min) (z max)) (Vector3_new (x max) (y min) (z max)) lists in
  let lists := line (Vector3_new (x max) (y min) (z max)) (Vector3_new (x max) (y max) (z max)) lists in
  let lists := line (Vector3_new (x max) (y max) (z max)) (Vector3_new (x min) (y max) (z max)) lists in
  line (Vector3_new (x min) (y max) (z max)) (Vector3_new (x min) (y min) (z max)) lists.

(** The line list is drawn two vertices at a time. *)
Fixpoint segments (vertices : list vertex) : list (vertex * vertex) :=
  match vertices with
  | from :: to :: rest => (from, to) :: segments rest
  | _ => []
  end.

(** The corner of a box that takes, per axis, the maximum where the flag is
    set and the minimum where it is not. *)
Definition corner (box : BoundingBox) (at_max : bool * bool * bool) : Vector3 :=
  let '(mx, my, mz) := at_max in
  Vector3_new (if mx then x (GetMax box) else x (GetMin box))
              (if my then y (GetMax box) else y (GetMin box))
              (if mz then z (GetMax box) else z (GetMin box)).

(** Two corners are joined by an edge of the box when they differ along
    exactly one axis. *)
Definition joined_by_edge (a b : bool * bool * bool) : bool :=
  let '(ax, ay, az) := a in
  let '(bx, by_, bz) := b in
  match xorb ax bx, xorb ay by_, xorb az bz with
  | true, false, false | false, true, false | false, false, true => true
  | _, _, _ => false
  end.

(** The vertices a call appended to the list it was asked to draw into,
    given that list before and after. *)
Definition drawn_into (depth : bool) (lists : line_lists) : list vertex :=
  if depth then m_lines_list_depth_enabled lists else m_lines_list_depth_disabled lists.

Definition left_alone (depth : bool) (lists : line_lists) : list vertex :=
  if depth then m_lines_list_depth_disabled lists else m_lines_list_depth_enabled lists.

End WithFloat.

End DebugLines.

(** ** Renderer: what the depth passes draw *)

(** The draw call of a renderable. *)
Definition draw_of (renderable : Renderer.Renderable) : Renderer.command :=
  Renderer.Cmd_DrawIndexed (Renderer.GeometryIndexCount renderable)
    (Renderer.GeometryIndexOffset renderable) (Renderer.GeometryVertexOffset renderable).

Definition is_draw (c : Renderer.command) : bool :=
  match c with Renderer.Cmd_DrawIndexed _ _ _ => true | _ => false end.

(** The draw calls of a command list, in order. *)
Definition draws (commands : list Renderer.command) : list Renderer.command :=
  filter (fun c => is_draw c) commands.

(** The index buffer that is bound at each draw call of a command list,
    given the one bound when the list starts. *)
Fixpoint index_buffer_at_draws (bound : option Renderer.geometry)
  (commands : list Renderer.command) : list (option Renderer.geometry) :=
  match commands with
  | [] => []
  | Renderer.Cmd_SetBufferIndex g :: rest => index_buffer_at_draws (Some g) rest
  | Renderer.Cmd_DrawIndexed _ _ _ :: rest => bound :: index_buffer_at_draws bound rest
  | _ :: rest => index_buffer_at_draws bound rest
  end.

(** The renderable of an entity that the depth pre-pass draws: its geometry
    is there and the camera sees it. *)
Definition visible_to_camera (e : Renderer.Entity) : option Renderer.Renderable :=
  match Renderer.GetRenderable e with
  | Some renderable =>
      if Renderer.geometry_ready renderable && Renderer.in_view_frustrum renderable
      then Some renderable else None
  | None => None
  end.

(** The renderable of an entity that may go into a shadow map: it casts
    shadows, its geometry is there and it has a material. *)
Definition shadow_caster (e : Renderer.Entity) : option Renderer.Renderable :=
  match Renderer.GetRenderable e with
  | Some renderable =>
      if Renderer.GetCastShadows renderable && Renderer.geometry_ready renderable &&
         bool_decide (is_Some (Renderer.GetMaterial renderable))
      then Some renderable else None
  | None => None
  end.

(** The number of shadow-map slices [Pass_LightDepth] renders for a light
    entity: the array size of the light's depth texture when the light casts
    shadows (transparent ones, in the transparent pass), none otherwise. *)
Definition shadow_slices (transparent_pass : bool) (light_entity : Renderer.Entity) : nat :=
  match Renderer.GetLight light_entity with
  | Some light =>
      if Renderer.GetShadowsEnabled light &&
         (negb transparent_pass || Renderer.GetShadowsTransparentEnabled light)
      then match Renderer.GetDepthTexture light with
           | Some (_, array_size) => Z.to_nat array_size
           | None => 0%nat
           end
      else 0%nat
  | None => 0%nat
  end.

(** A renderer with every shader compiled and the given entity lists. *)
Definition scene_of (entities : Renderer.entity_lists) : Renderer.Renderer := {|
  Renderer.m_options := 0;
  Renderer.Option_Value_Tonemapping := 0;
  Renderer.IsCompiled _ := true;
  Renderer.m_entities := entities;
  Renderer.m_render_targets := example_targets;
  Renderer.m_render_tex_bloom := [10; 11; 12];
  Renderer.m_tex_white := 20
|}.

(** A directional light with a shadow map of three slices that casts no
    transparent shadows. *)
Definition sun_entity : Renderer.Entity := {|
  Renderer.IsActive := true;
  Renderer.GetRenderable := None;
  Renderer.GetLight := Some {|
    Renderer.GetLightType := Renderer.LightType_Directional;
    Renderer.GetShadowsEnabled := true;
    Renderer.GetShadowsTransparentEnabled := false;
    Renderer.GetDepthTexture := Some (30, 3);
    Renderer.GetColorTexture := Some 31 |};
  Renderer.GetCamera := None
|}.

(** Two opaque entities and the sun. *)
Definition lit_scene : Renderer.Renderer :=
  scene_of (fun t =>
    match t with
    | Renderer.Renderer_Object_Opaque => [opaque_entity origin 1; opaque_entity (on_x_axis 5) 2]
    | Renderer.Renderer_Object_Light | Renderer.Renderer_Object_LightDirectional => [sun_entity]
    | _ => []
    end).

(** ** ShaderVariation (ShaderVariation.h, ShaderVariation.cpp, RHI_Shader.h) *)
Module ShaderVariation.

(** [enum Variation_Flag : unsigned long]. *)
Definition Variation_Albedo : Z := Z.shiftl 1 0.
Definition Variation_Roughness : Z := Z.shiftl 1 1.
Definition Variation_Metallic : Z := Z.shiftl 1 2.
Definition Variation_Normal : Z := Z.shiftl 1 3.
Definition Variation_Height : Z := Z.shiftl 1 4.
Definition Variation_Occlusion : Z := Z.shiftl 1 5.
Definition Variation_Emission : Z := Z.shiftl 1 6.
Definition Variation_Mask : Z := Z.shiftl 1 7.

(** A shader variation as far as its own code goes: the flags, and of the
    [RHI_Shader] it derives from the map of defines. *)
Record ShaderVariation : Type := {
  m_flags : Z;
  m_defines : gmap string string
}.

(** [RHI_Shader::AddDefine]: [m_defines[define] = value]. *)
Definition AddDefine (define value : string) (v : ShaderVariation) : ShaderVariation :=
  {| m_flags := m_flags v; m_defines := <[define := value]> (m_defines v) |}.

Definition has_flag (flag : Z) (v : ShaderVariation) : bool :=
  negb (Z.land (m_flags v) flag =? 0).

Definition HasAlbedoTexture : ShaderVariation -> bool := has_flag Variation_Albedo.
Definition HasRoughnessTexture : ShaderVariation -> bool := has_flag Variation_Roughness.
Definition HasMetallicTexture : ShaderVariation -> bool := has_flag Variation_Metallic.
Definition HasNormalTexture : ShaderVariation -> bool := has_flag Variation_Normal.
Definition HasHeightTexture : ShaderVariation -> bool := has_flag Variation_Height.
Definition HasOcclusionTexture : ShaderVariation -> bool := has_flag Variation_Occlusion.
Definition HasEmissionTexture : ShaderVariation -> bool := has_flag Variation_Emission.
Definition HasMaskTexture : ShaderVariation -> bool := has_flag Variation_Mask.

Definition one_or_zero (b : bool) : string := if b then "1" else "0".

(** [AddDefinesBasedOnMaterial]. *)
Definition AddDefinesBasedOnMaterial (v : ShaderVariation) : ShaderVariation :=
  let v := AddDefine "ALBEDO_MAP" (one_or_zero (HasAlbedoTexture v)) v in
  let v := AddDefine "ROUGHNESS_MAP" (one_or_zero (HasRoughnessTexture v)) v in
  let v := AddDefine "METALLIC_MAP" (one_or_zero (HasMetallicTexture v)) v in
  let v := AddDefine "NORMAL_MAP" (one_or_zero (HasNormalTexture v)) v in
  let v := AddDefine "HEIGHT_MAP" (one_or_zero (HasHeightTexture v)) v in
  let v := AddDefine "OCCLUSION_MAP" (one_or_zero (HasOcclusionTexture v)) v in
  let v := AddDefine "EMISSION_MAP" (one_or_zero (HasEmissionTexture v)) v in
  AddDefine "MASK_MAP" (one_or_zero (HasMaskTexture v)) v.

(** The variations live on the heap and the static vector [m_variations]
    holds shared pointers to them: an object is known by its address, and
    the vector may hold the same address more than once. *)
Record variations : Type := {
  objects : Z -> ShaderVariation;
  m_variations : list Z
}.

(** [GetMatchingShader]: the first pointer of the vector whose object has
    exactly these flags now; [None] is the empty shared pointer. *)
Definition GetMatchingShader (flags : Z) (s : variations) : option Z :=
  List.find (fun shader => m_flags (objects s shader) =? flags) (m_variations s).

(** [Compile] on the object at [this]: the flags are stored, the defines
    are set from them, the compilation of the pixel shader is started, and
    [shared_from_this()] goes to the back of the vector. What
    [CompileAsync] does to the rest of the [RHI_Shader] is not followed
    here. *)
Definition Compile (this : Z) (file_path : string) (shader_flags : Z) (s : variations)
  : variations :=
  let v := {| m_flags := shader_flags; m_defines := m_defines (objects s this) |} in
  {| objects := fun shader =>
       if decide (shader = this) then AddDefinesBasedOnMaterial v else objects s shader;
     m_variations := m_variations s ++ [this] |}.

(** The names [AddDefinesBasedOnMaterial] defines, lowest flag first. *)
Definition material_defines : list string :=
  ["ALBEDO_MAP"; "ROUGHNESS_MAP"; "METALLIC_MAP"; "NORMAL_MAP";
   "HEIGHT_MAP"; "OCCLUSION_MAP"; "EMISSION_MAP"; "MASK_MAP"].

End ShaderVariation.

(** ** BoundingBox (Math/BoundingBox.cpp) *)
Module BoundingBox.

Inductive Intersection : Type := Outside | Inside | Intersects.

Section WithFloat.
(** The coordinates are floats; [lt a b] is [a < b], and [a > b] is
    [lt b a]. [Min] and [Max] are the helpers of MathHelper.h. *)
Context {float : Type}.
Variable lt : float -> float -> bool.
Variables Min Max : float -> float -> float.

Record Vector3 : Type := { x : float; y : float; z : float }.

(** [Vector3::Infinity] and [Vector3::InfinityNeg]. *)
Variables Vector3_Infinity Vector3_InfinityNeg : Vector3.

Record BoundingBox : Type := { m_min : Vector3; m_max : Vector3 }.

(** [BoundingBox()]. *)
Definition BoundingBox_new : BoundingBox :=
  {| m_min := Vector3_Infinity; m_max := Vector3_InfinityNeg |}.

(** One round of the loop of [BoundingBox(points)]. *)
Definition include_point (box : BoundingBox) (point : Vector3) : BoundingBox :=
  {| m_min := {| x := Min (x (m_min box)) (x point);
                 y := Min (y (m_min box)) (y point);
                 z := Min (z (m_min box)) (z point) |};
     m_max := {| x := Max (x (m_max box)) (x point);
                 y := Max (y (m_max box)) (y point);
                 z := Max (z (m_max box)) (z point) |} |}.

(** [BoundingBox(const std::vector<Vector3>& points)]. *)
Definition BoundingBox_of_points (points : list Vector3) : BoundingBox :=
  fold_left include_point points BoundingBox_new.

(** [IsInside(const Vector3& point)]. *)
Definition IsInside_point (box : BoundingBox) (point : Vector3) : Intersection :=
  if lt (x point) (x (m_min box)) || lt (x (m_max box)) (x point) ||
     lt (y point) (y (m_min box)) || lt (y (m_max box)) (y point) ||
     lt (z point) (z (m_min box)) || lt (z (m_max box)) (z point)
  then Outside
  else Inside.

(** [IsInside(const BoundingBox& box)], called on [this]. *)
Definition IsInside_box (this box : BoundingBox) : Intersection :=
  if lt (x (m_max box)) (x (m_min this)) || lt (x (m_max this)) (x (m_min box)) ||
     lt (y (m_max box)) (y (m_min this)) || lt (y (m_max this)) (y (m_min box)) ||
     lt (z (m_max box)) (z (m_min this)) || lt (z (m_max this)) (z (m_min box))
  then Outside
  else if lt (x (m_min box)) (x (m_min this)) || lt (x (m_max this)) (x (m_max box)) ||
          lt (y (m_min box)) (y (m_min this)) || lt (y (m_max this)) (y (m_max box)) ||
          lt (z (m_min box)) (z (m_min this)) || lt (z (m_max this)) (z (m_max box))
  then Intersects
  else Inside.

(** [Merge], called on [this]: the assignments in the order of the source,
    each reading the members as they are by then. *)
Definition Merge (this box : BoundingBox) : BoundingBox :=
  let min_x := Min (x (m_min this)) (x (m_min box)) in
  let min_y := Min (y (m_min this)) (y (m_min box)) in
  let min_z := Min (z (m_min this)) (z (m_min box)) in
  let max_x := Max (x (m_max this)) (x (m_max box)) in
  let max_y := Max max_x (x (m_max box)) in
  let max_z := Max max_x (x (m_max box)) in
  {| m_min := {| x := min_x; y := min_y; z := min_z |};
     m_max := {| x := max_x; y := max_y; z := max_z |} |}.

(** The extents of [box] lie within those of [other]. *)
Definition within (other box : BoundingBox) : Prop :=
  (lt (x (m_min box)) (x (m_min other)) = false /\
   lt (x (m_max other)) (x (m_max box)) = false) /\
  (lt (y (m_min box)) (y (m_min other)) = false /\
   lt (y (m_max other)) (y (m_max box)) = false) /\
  (lt (z (m_min box)) (z (m_min other)) = false /\
   lt (z (m_max other)) (z (m_max box)) = false).

(** A box whose minimum is nowhere above its maximum. *)
Definition well_formed (box : BoundingBox) : Prop :=
  lt (x (m_max box)) (x (m_min box)) = false /\
  lt (y (m_max box)) (y (m_min box)) = false /\
  lt (z (m_max box)) (z (m_min box)) = false.

End WithFloat.

(** Integers with the two infinities, ordered as the floats without NaN
    are: an example of coordinates. *)
Inductive extended : Type := MinusInfinity | Finite (n : Z) | PlusInfinity.

Definition extended_lt (a b : extended) : bool :=
  match a, b with
  | MinusInfinity, MinusInfinity => false
  | MinusInfinity, _ => true
  | Finite a, Finite b => a <? b
  | Finite _, PlusInfinity => true
  | _, _ => false
  end.

Definition extended_Max (a b : extended) : extended := if extended_lt b a then a else b.
Definition extended_Min (a b : extended) : extended := if extended_lt a b then a else b.

Definition point (a b c : Z) : Vector3 :=
  {| x := Finite a; y := Finite b; z := Finite c |}.

Definition all_PlusInfinity : Vector3 :=
  {| x := PlusInfinity; y := PlusInfinity; z := PlusInfinity |}.
Definition all_MinusInfinity : Vector3 :=
  {| x := MinusInfinity; y := MinusInfinity; z := MinusInfinity |}.

End BoundingBox.

(** ** ResourceCache (Resource/ResourceCache.h) *)
Module ResourceCache.

(** What the cache asks of a [Resource]. *)
Record Resource : Type := {
  GetResourceType : Z;
  GetResourceName : string;
  GetResourceFilePath : string;
  Resource_GetMemoryUsageKB : Z
}.

Inductive log_entry : Type :=
| Warning_no_name_assigned (resourceName : string).

Section WithResources.
(** The macro [NOT_ASSIGNED], and the resources on the heap: the cache
    holds shared pointers, a resource is known by its address. *)
Variable NOT_ASSIGNED : string.
Variable resource_at : Z -> Resource.

(** [m_resourceGroups], a [std::map] from the resource type to the vector
    of its resources. *)
Definition cache : Type := gmap Z (list Z).

(** The groups as a loop over the map meets them: by ascending type. *)
Definition type_le (a b : Z * list Z) : Prop := a.1 <= b.1.

#[local] Instance type_le_dec a b : Decision (type_le a b) := decide (a.1 <= b.1).

Definition resource_groups (m : cache) : list (Z * list Z) :=
  merge_sort type_le (map_to_list m).

(** [m_resourceGroups[type]]: the group, made empty first when the map has
    none for the type. *)
Definition group_at (type : Z) (m : cache) : list Z * cache :=
  let group := default [] (m !! type) in (group, <[type := group]> m).

(** [Add]; [None] is the null pointer. *)
Definition Add (resource : option Z) (m : cache) : cache :=
  match resource with
  | None => m
  | Some r =>
      let '(group, m) := group_at (GetResourceType (resource_at r)) m in
      <[GetResourceType (resource_at r) := group ++ [r]]> m
  end.

(** [GetResourceFilePaths]. *)
Definition GetResourceFilePaths (filePaths : list string) (m : cache) : list string :=
  foldl (fun filePaths resourceGroup =>
           foldl (fun filePaths r => filePaths ++ [GetResourceFilePath (resource_at r)])
                 filePaths resourceGroup.2)
        filePaths (resource_groups m).

Definition named (name : string) (r : Z) : bool :=
  bool_decide (GetResourceName (resource_at r) = name).

Fixpoint first_named (name : string) (groups : list (Z * list Z)) : option Z :=
  match groups with
  | [] => None
  | resourceGroup :: groups =>
      match List.find (named name) resourceGroup.2 with
      | Some resource => Some resource
      | None => first_named name groups
      end
  end.

(** [GetByName]; [None] is the empty shared pointer. *)
Definition GetByName (name : string) (m : cache) : option Z :=
  first_named name (resource_groups m).

(** [GetAll]. *)
Definition GetAll (m : cache) : list Z :=
  foldl (fun resources resourceGroup => resources ++ resourceGroup.2)
        [] (resource_groups m).

(** [IsCachedByName], with what it logs. *)
Definition IsCachedByName (resourceName : string) (m : cache) : bool * list log_entry :=
  if bool_decide (resourceName = NOT_ASSIGNED)
  then (false, [Warning_no_name_assigned resourceName])
  else (existsb (fun resourceGroup => existsb (named resourceName) resourceGroup.2)
                (resource_groups m), []).

(** [GetMemoryUsageKB]: an [unsigned int] sum over the group of the type. *)
Definition GetMemoryUsageKB (type : Z) (m : cache) : Z * cache :=
  let '(group, m) := group_at type m in
  (foldl (fun sizeKB r => wrap32 (sizeKB + Resource_GetMemoryUsageKB (resource_at r)))
         0 group, m).

(** [GetByType]. *)
Definition GetByType (type : Z) (m : cache) : list Z * cache := group_at type m.

(** [Clear]. *)
Definition Clear (m : cache) : cache := ∅.

End WithResources.
End ResourceCache.

(** ** RHI_VertexBuffer (RHI/RHI_VertexBuffer.h) *)
Module VertexBuffer.

(** The members the header itself writes; [m_size_gpu] is a 64-bit member
    of [RHI_Object]. *)
Record RHI_VertexBuffer : Type := {
  m_stride : Z;
  m_vertex_count : Z;
  m_size_gpu : Z
}.

Definition UINT64_MOD : Z := 2 ^ 64.

Section WithApi.
(** [_Create] belongs to the graphics API; only its answer is followed. *)
Variable _Create : RHI_VertexBuffer -> bool.

(** The three assignments every creating function starts with: the
    product is taken in [uint32_t] and widened afterwards. *)
Definition with_sizes (stride vertex_count : Z) : RHI_VertexBuffer :=
  {| m_stride := stride;
     m_vertex_count := vertex_count;
     m_size_gpu := wrap32 (stride * vertex_count) mod UINT64_MOD |}.

(** [Create(const std::vector<T>& vertices)]: [sizeof_T] is [sizeof(T)] and
    [size] is [vertices.size()], both of type [size_t]. *)
Definition Create_vector (sizeof_T size : Z) : bool * RHI_VertexBuffer :=
  let buffer := with_sizes (wrap32 sizeof_T) (wrap32 size) in
  (_Create buffer, buffer).

(** [Create(const T* vertices, const uint32_t vertex_count)]. *)
Definition Create (sizeof_T vertex_count : Z) : bool * RHI_VertexBuffer :=
  let buffer := with_sizes (wrap32 sizeof_T) vertex_count in
  (_Create buffer, buffer).

(** [CreateDynamic(const uint32_t vertex_count)]. *)
Definition CreateDynamic (sizeof_T vertex_count : Z) : bool * RHI_VertexBuffer :=
  let buffer := with_sizes (wrap32 sizeof_T) vertex_count in
  (_Create buffer, buffer).

End WithApi.
End VertexBuffer.

(** ** Renderer::SetOptionValue (Renderer.cpp) *)
Module OptionValues.

Inductive Renderer_Option_Value : Type :=
| Option_Value_Anisotropy
| Option_Value_ShadowResolution
| Option_Value_Tonemapping
| Option_Value_Exposure
| Option_Value_Gamma
| Option_Value_Sharpen_Strength
| Option_Value_Sharpen_Clamp
| Option_Value_Bloom_Intensity
| Option_Value_Motion_Blur_Intensity.

#[global] Instance Renderer_Option_Value_eq_dec : EqDecision Renderer_Option_Value.
Proof. solve_decision. Defined.

(** The part of the renderer [SetOptionValue] reads and writes. Floats
    are rationals, as for the tone mapping value; an option that was never
    set reads as zero. *)
Record state : Type := {
  m_option_values : Renderer_Option_Value -> Q;
  m_resolution_shadow_min : Z;
  max_texture_dimension_2d : Z;
  light_entities : list Renderer.Entity
}.

Section WithClamp.
(** [Clamp] of MathHelper.h. *)
Variable Clamp : Q -> Q -> Q -> Q.

Definition store (option : Renderer_Option_Value) (value : Q) (s : state) : state :=
  {| m_option_values := fun o => if decide (o = option) then value else m_option_values s o;
     m_resolution_shadow_min := m_resolution_shadow_min s;
     max_texture_dimension_2d := max_texture_dimension_2d s;
     light_entities := light_entities s |}.

(** The value after the clamping at the head of [SetOptionValue]. *)
Definition clamped (option : Renderer_Option_Value) (value : Q) (s : state) : Q :=
  if decide (option = Option_Value_Anisotropy) then Clamp value 0 16
  else if decide (option = Option_Value_ShadowResolution)
  then Clamp value (inject_Z (m_resolution_shadow_min s))
             (inject_Z (max_texture_dimension_2d s))
  else value.

(** The loop over the light entities: the lights whose [CreateShadowMap]
    is called, in order; [None] when an entity has no [Light] component,
    whose null pointer the loop would dereference. *)
Fixpoint recreate_shadow_maps (entities : list Renderer.Entity) : option (list Renderer.Light) :=
  match entities with
  | [] => Some []
  | light_entity :: entities =>
      match Renderer.GetLight light_entity with
      | None => None
      | Some light =>
          match recreate_shadow_maps entities with
          | None => None
          | Some recreated =>
              Some (if Renderer.GetShadowsEnabled light then light :: recreated
                    else recreated)
          end
      end
  end.

(** [SetOptionValue]: the state afterwards and the lights whose shadow map
    was created anew. *)
Definition SetOptionValue (option : Renderer_Option_Value) (value : Q) (s : state)
  : Datatypes.option (state * list Renderer.Light) :=
  let value := clamped option value s in
  if Qeq_bool (m_option_values s option) value then Some (s, [])
  else
    let s := store option value s in
    if decide (option = Option_Value_ShadowResolution)
    then match recreate_shadow_maps (light_entities s) with
         | Some recreated => Some (s, recreated)
         | None => None
         end
    else Some (s, []).

End WithClamp.

End OptionValues.

(** * Properties *)

(** ** The insertion sort meets the contract of std::sort *)

Lemma insert_sorted_perm {A : Type} (comp : A -> A -> bool) x l :
  insert_sorted comp x l ≡ₚ x :: l.
Proof.
  induction l as [|y l IH]; simpl; [done|].
  destruct (comp x y); [done|].
  rewrite IH. apply Permutation_swap.
Qed.

Lemma insert_sorted_sorted {A : Type} (comp : A -> A -> bool) x l :
  StrictWeakOrder comp ->
  StronglySorted (not_after comp) l ->
  StronglySorted (not_after comp) (insert_sorted comp x l).
Proof.
  intros Hswo. induction l as [|y l IH]; intros Hl; simpl.
  - repeat constructor.
  - apply StronglySorted_inv in Hl as [Hl Hy].
    destruct (comp x y) eqn:Hxy.
    + constructor; [by constructor|].
      assert (Hyx : not_after comp x y).
      { unfold not_after. destruct (comp y x) eqn:Hyx; [|done].
        rewrite <- (swo_irrefl comp Hswo x). symmetry.
        by apply (swo_trans comp Hswo x y x). }
      constructor; [done|].
      eapply Forall_impl; [exact Hy|]. intros z Hz. unfold not_after in *.
      by apply (swo_neg_trans comp Hswo z y x).
    + constructor; [by apply IH|].
      rewrite insert_sorted_perm. by constructor.
Qed.

Lemma insertion_sort_acc_perm {A : Type} (comp : A -> A -> bool) l acc :
  fold_left (fun acc x => insert_sorted comp x acc) l acc ≡ₚ l ++ acc.
Proof.
  revert acc. induction l as [|x l IH]; intros acc; simpl; [done|].
  rewrite IH, insert_sorted_perm. by rewrite Permutation_middle.
Qed.

Lemma insertion_sort_acc_sorted {A : Type} (comp : A -> A -> bool) l acc :
  StrictWeakOrder comp ->
  StronglySorted (not_after comp) acc ->
  StronglySorted (not_after comp)
    (fold_left (fun acc x => insert_sorted comp x acc) l acc).
Proof.
  intros Hswo. revert acc. induction l as [|x l IH]; intros acc Hacc; simpl; [done|].
  by apply IH, insert_sorted_sorted.
Qed.

#[export] Instance insertion_StdSort : StdSort := {|
  std_sort := @insertion_sort;
  std_sort_perm := fun A comp l _ =>
    eq_ind _ (fun r => insertion_sort comp l ≡ₚ r)
      (insertion_sort_acc_perm comp l []) _ (app_nil_r l);
  std_sort_sorted := fun A comp l Hswo =>
    insertion_sort_acc_sorted comp l [] Hswo (SSorted_nil _)
|}.

(** ** RHI_Device *)

Lemma StronglySorted_weaken {A : Type} (R1 R2 : A -> A -> Prop) (l : list A) :
  (forall a b, R1 a b -> R2 a b) -> StronglySorted R1 l -> StronglySorted R2 l.
Proof.
  intros HR. induction 1 as [|x l Hl IH Hx]; constructor; [done|].
  eapply Forall_impl; [exact Hx|]. auto.
Qed.

Lemma memory_greater_swo : StrictWeakOrder Device.memory_greater.
Proof.
  split; unfold Device.memory_greater; intros *.
  - apply Z.ltb_irrefl.
  - rewrite !Z.ltb_lt. lia.
  - rewrite !Z.ltb_ge. lia.
Qed.

Lemma refresh_rate_greater_swo : StrictWeakOrder Device.refresh_rate_greater.
Proof.
  split; unfold Device.refresh_rate_greater; intros *.
  - apply negb_false_iff, Qle_bool_iff, Qle_refl.
  - rewrite !negb_true_iff, <- !not_true_iff_false, !Qle_bool_iff.
    intros Hab Hbc Hac. apply Qnot_le_lt in Hab, Hbc.
    apply (Qlt_not_le _ _ (Qlt_trans _ _ _ Hbc Hab)), Hac.
  - rewrite !negb_false_iff, !Qle_bool_iff. apply Qle_trans.
Qed.

Section DeviceSorting.
Context `{StdSort}.

Lemma RegisterPhysicalDevice_perm pd d :
  Device.m_physical_devices (Device.RegisterPhysicalDevice pd d).1
  ≡ₚ Device.m_physical_devices d ++ [pd].
Proof. simpl. apply std_sort_perm, memory_greater_swo. Qed.

Lemma RegisterPhysicalDevice_sorted pd d :
  Device.memory_non_increasing
    (Device.m_physical_devices (Device.RegisterPhysicalDevice pd d).1).
Proof.
  simpl. eapply StronglySorted_weaken;
    [|apply std_sort_sorted, memory_greater_swo].
  intros a b. unfold not_after, Device.memory_greater. rewrite Z.ltb_ge. lia.
Qed.

Lemma RegisterDisplayMode_perm m d :
  Device.m_display_modes (Device.RegisterDisplayMode m d)
  ≡ₚ Device.m_display_modes d ++ [m].
Proof. simpl. apply std_sort_perm, refresh_rate_greater_swo. Qed.

Lemma RegisterDisplayMode_sorted m d :
  Device.refresh_rate_non_increasing
    (Device.m_display_modes (Device.RegisterDisplayMode m d)).
Proof.
  simpl. eapply StronglySorted_weaken;
    [|apply std_sort_sorted, refresh_rate_greater_swo].
  intros a b. unfold not_after, Device.refresh_rate_greater.
  by rewrite negb_false_iff, Qle_bool_iff.
Qed.

Lemma register_physical_devices_perm pds d :
  Device.m_physical_devices (Device.register_physical_devices pds d)
  ≡ₚ Device.m_physical_devices d ++ pds.
Proof.
  revert d. induction pds as [|pd pds IH]; intros d.
  - by rewrite app_nil_r.
  - unfold Device.register_physical_devices in *. cbn [fold_left].
    rewrite IH, RegisterPhysicalDevice_perm. by rewrite <- app_assoc.
Qed.

Lemma register_physical_devices_sorted pds d :
  Device.memory_non_increasing (Device.m_physical_devices d) ->
  Device.memory_non_increasing
    (Device.m_physical_devices (Device.register_physical_devices pds d)).
Proof.
  revert d. induction pds as [|pd pds IH]; intros d Hd; [done|].
  unfold Device.register_physical_devices in *. cbn [fold_left].
  apply IH, RegisterPhysicalDevice_sorted.
Qed.

Lemma register_display_modes_sorted ms d :
  Device.refresh_rate_non_increasing (Device.m_display_modes d) ->
  Device.refresh_rate_non_increasing
    (Device.m_display_modes (Device.register_display_modes ms d)).
Proof.
  revert d. induction ms as [|m ms IH]; intros d Hd; [done|].
  unfold Device.register_display_modes in *. cbn [fold_left].
  apply IH, RegisterDisplayMode_sorted.
Qed.

(** C4. After any sequence of [RegisterPhysicalDevice] calls the device
    list is non-increasing by memory, whichever conforming [std::sort] is
    linked in: a single call sorts whatever list it finds, so the list is
    sorted after every call of a sequence that starts at a fresh device;
    registering 2048, 8192 and 4096 MB gives the order 8192, 4096, 2048;
    and the same holds for [RegisterDisplayMode] and the refresh rate. *)
Theorem registered_lists_sorted :
  (forall pd d,
     Device.memory_non_increasing
       (Device.m_physical_devices (Device.RegisterPhysicalDevice pd d).1)) /\
  (forall pds max_dim,
     Device.memory_non_increasing
       (Device.m_physical_devices
          (Device.register_physical_devices pds (Device.fresh_device max_dim)))) /\
  (forall max_dim,
     Device.GetMemory <$>
       Device.m_physical_devices
         (Device.register_physical_devices
            [Device.adapter "A" 2048; Device.adapter "B" 8192; Device.adapter "C" 4096]
            (Device.fresh_device max_dim))
     = [8192; 4096; 2048]) /\
  (forall m d,
     Device.refresh_rate_non_increasing
       (Device.m_display_modes (Device.RegisterDisplayMode m d))) /\
  (forall ms max_dim,
     Device.refresh_rate_non_increasing
       (Device.m_display_modes
          (Device.register_display_modes ms (Device.fresh_device max_dim)))).
Proof.
  split; [exact RegisterPhysicalDevice_sorted|].
  split; [intros; apply register_physical_devices_sorted; constructor|].
  split; [|split; [exact RegisterDisplayMode_sorted|
                   intros; apply register_display_modes_sorted; constructor]].
  intros max_dim.
  set (l := Device.m_physical_devices _).
  apply (StronglySorted_unique_strong (fun a b : Z => b <= a)).
  - intros; lia.
  - apply (StronglySorted_fmap Device.GetMemory
             (fun a b => Device.GetMemory b <= Device.GetMemory a)); [auto|].
    apply register_physical_devices_sorted. constructor.
  - repeat (constructor; [repeat constructor; lia|]). constructor.
  - subst l. rewrite register_physical_devices_perm. simpl.
    etransitivity; [apply Permutation_swap|]. apply perm_skip, Permutation_swap.
Qed.

End DeviceSorting.

Lemma ValidateResolution_iff w h d :
  Device.ValidateResolution w h d = true <->
  (0 < w <= Device.max_texture_dimension_2d d) /\
  (0 < h <= Device.max_texture_dimension_2d d).
Proof.
  unfold Device.ValidateResolution.
  rewrite !andb_true_iff, !Z.ltb_lt, !Z.leb_le. lia.
Qed.

(** C5. [ValidateResolution w h] succeeds exactly when both [w] and [h]
    lie in (0, max_texture_dimension_2d]; a zero width, a zero height and a
    width one above the maximum (also when that sum wraps around as a
    [uint32_t]) are rejected, while (1, 1) and (max, max) are accepted on any
    device whose maximum dimension is positive. *)
Theorem ValidateResolution_spec d :
  0 < Device.max_texture_dimension_2d d < UINT32_MOD ->
  let max_dim := Device.max_texture_dimension_2d d in
  (forall w h,
     Device.ValidateResolution w h d = true <->
     (0 < w <= max_dim) /\ (0 < h <= max_dim)) /\
  (forall h, Device.ValidateResolution 0 h d = false) /\
  (forall w, Device.ValidateResolution w 0 d = false) /\
  (forall h, Device.ValidateResolution (max_dim + 1) h d = false) /\
  (forall h, Device.ValidateResolution (wrap32 (max_dim + 1)) h d = false) /\
  Device.ValidateResolution 1 1 d = true /\
  Device.ValidateResolution max_dim max_dim d = true.
Proof.
  intros Hmax max_dim.
  split; [intros; apply ValidateResolution_iff|].
  repeat split; intros;
    try (apply not_true_iff_false; rewrite ValidateResolution_iff; fold max_dim);
    try (apply ValidateResolution_iff; fold max_dim); try lia.
  unfold wrap32. intros [[Hlo Hhi] _].
  destruct (Z.eq_dec (max_dim + 1) UINT32_MOD) as [Heq|Hne].
  - rewrite Heq, Z.mod_same in Hlo by (unfold UINT32_MOD; lia). lia.
  - rewrite Z.mod_small in Hhi by (subst max_dim; lia). lia.
Qed.

Lemma ValidateResolution_spec_witness :
  let d := Device.fresh_device 16384 in
  Device.ValidateResolution 1 1 d = true /\
  Device.ValidateResolution 16384 16384 d = true /\
  Device.ValidateResolution 16385 1080 d = false.
Proof.
  intros d.
  assert (Hd : 0 < Device.max_texture_dimension_2d d < UINT32_MOD)
    by (unfold UINT32_MOD; simpl; lia).
  destruct (ValidateResolution_spec d Hd) as (_ & _ & _ & Hover & _ & H11 & Hmax).
  split; [exact H11|]. split; [exact Hmax|]. exact (Hover 1080).
Defined.

(** C6, as stated, fails: with one device registered and index 0 selected,
    [SetPrimaryPhysicalDevice 5] overwrites the index, so the primary device
    changes from the registered adapter to none, and nothing is logged. *)
Lemma SetPrimaryPhysicalDevice_invalid_changes_selection :
  Device.GetPrimaryPhysicalDevice single_adapter_device
    = Some (Device.adapter "A" 8192) /\
  Device.GetPrimaryPhysicalDevice
    (Device.SetPrimaryPhysicalDevice 5 single_adapter_device).1 = None /\
  Device.m_physical_device_index
    (Device.SetPrimaryPhysicalDevice 5 single_adapter_device).1
    <> Device.m_physical_device_index single_adapter_device /\
  (Device.SetPrimaryPhysicalDevice 5 single_adapter_device).2 = [].
Proof. repeat split; try reflexivity. discriminate. Qed.

(** C6, amended. [SetPrimaryPhysicalDevice index] always stores [index] and
    never touches the device list. When [index] is a position of the list,
    [GetPrimaryPhysicalDevice] afterwards returns the device at that position
    and that device is logged; otherwise nothing is logged and
    [GetPrimaryPhysicalDevice] returns null. *)
Theorem SetPrimaryPhysicalDevice_spec index d :
  is_u32 index ->
  let r := Device.SetPrimaryPhysicalDevice index d in
  Device.m_physical_device_index r.1 = index /\
  Device.m_physical_devices r.1 = Device.m_physical_devices d /\
  (forall pd, Device.m_physical_devices d !! Z.to_nat index = Some pd ->
     Device.GetPrimaryPhysicalDevice r.1 = Some pd /\
     r.2 = [Log_Info_Device (Device.GetName pd) (Device.GetMemory pd)]) /\
  (Device.m_physical_devices d !! Z.to_nat index = None ->
     Device.GetPrimaryPhysicalDevice r.1 = None /\ r.2 = []).
Proof.
  intros [Hlo _] r. subst r. unfold Device.SetPrimaryPhysicalDevice.
  set (d' := Device.set_physical_device_index index d).
  assert (Hget : Device.GetPrimaryPhysicalDevice d'
                 = Device.m_physical_devices d !! Z.to_nat index).
  { unfold Device.GetPrimaryPhysicalDevice. simpl.
    destruct (Z.leb_spec (Z.of_nat (length (Device.m_physical_devices d))) index);
      [|done].
    symmetry. apply lookup_ge_None. lia. }
  rewrite Hget.
  destruct (Device.m_physical_devices d !! Z.to_nat index) as [pd|] eqn:Hpd; simpl.
  - split; [done|]. split; [done|]. split; [|done].
    intros pd' [= <-]. by rewrite Hget.
  - split; [done|]. split; [done|]. split; [done|]. by rewrite Hget.
Qed.

Lemma SetPrimaryPhysicalDevice_spec_witness :
  Device.GetPrimaryPhysicalDevice
    (Device.SetPrimaryPhysicalDevice 0 single_adapter_device).1
    = Some (Device.adapter "A" 8192) /\
  Device.GetPrimaryPhysicalDevice
    (Device.SetPrimaryPhysicalDevice 5 single_adapter_device).1 = None.
Proof.
  split.
  - assert (H0 : is_u32 0) by (unfold is_u32, UINT32_MOD; lia).
    destruct (SetPrimaryPhysicalDevice_spec 0 single_adapter_device H0)
      as (_ & _ & Hvalid & _).
    apply Hvalid. reflexivity.
  - assert (H5 : is_u32 5) by (unfold is_u32, UINT32_MOD; lia).
    destruct (SetPrimaryPhysicalDevice_spec 5 single_adapter_device H5)
      as (_ & _ & _ & Hinvalid).
    apply Hinvalid. reflexivity.
Defined.

(** ** RHI_DescriptorCache: layout selection and descriptor merging *)

Lemma is_same_resource_key d r :
  DescriptorCache.is_same_resource d r = true <-> descriptor_key d = descriptor_key r.
Proof.
  unfold DescriptorCache.is_same_resource, descriptor_key.
  rewrite andb_true_iff, bool_decide_eq_true, Z.eqb_eq. split.
  - intros [-> ->]. done.
  - intros [= -> ->]. done.
Qed.

Lemma or_stage_key d r :
  descriptor_key (DescriptorCache.or_stage d r) = descriptor_key d.
Proof. done. Qed.

Lemma update_existing_None r ds :
  DescriptorCache.update_existing r ds = None <->
  descriptor_key r ∉ descriptor_key <$> ds.
Proof.
  induction ds as [|d ds IH]; simpl.
  - split; [intros _; apply not_elem_of_nil|done].
  - destruct (DescriptorCache.is_same_resource d r) eqn:Hsame.
    + apply is_same_resource_key in Hsame. rewrite Hsame.
      split; [done|]. intros Hnot. exfalso. apply Hnot. left.
    + assert (Hne : descriptor_key d <> descriptor_key r).
      { intros Heq. apply is_same_resource_key in Heq. congruence. }
      rewrite fmap_None, IH, not_elem_of_cons. split; [by split|by intros [_ ?]].
Qed.

Lemma update_existing_keys r ds ds' :
  DescriptorCache.update_existing r ds = Some ds' ->
  descriptor_key <$> ds' = descriptor_key <$> ds.
Proof.
  revert ds'. induction ds as [|d ds IH]; intros ds'; simpl; [done|].
  destruct (DescriptorCache.is_same_resource d r).
  - intros [= <-]. done.
  - destruct (DescriptorCache.update_existing r ds) as [u|]; [|done].
    intros [= <-]. simpl. f_equal. by apply IH.
Qed.

Lemma merge_descriptor_NoDup ds r :
  NoDup (descriptor_key <$> ds) ->
  NoDup (descriptor_key <$> DescriptorCache.merge_descriptor ds r).
Proof.
  intros Hnd. unfold DescriptorCache.merge_descriptor.
  destruct (DescriptorCache.update_existing r ds) as [u|] eqn:Hu.
  - by rewrite (update_existing_keys _ _ _ Hu).
  - apply update_existing_None in Hu.
    rewrite fmap_app. apply NoDup_app. split; [done|]. split.
    + intros k Hk Hk'. apply list_elem_of_singleton in Hk'. by subst.
    + apply NoDup_singleton.
Qed.

Lemma merge_all_NoDup rs ds :
  NoDup (descriptor_key <$> ds) ->
  NoDup (descriptor_key <$> fold_left DescriptorCache.merge_descriptor rs ds).
Proof.
  revert ds. induction rs as [|r rs IH]; intros ds Hnd; simpl; [done|].
  by apply IH, merge_descriptor_NoDup.
Qed.

(** A descriptor with another key than the reflected one stays as it is. *)
Lemma merge_descriptor_other d ds r :
  d ∈ ds -> descriptor_key d <> descriptor_key r ->
  d ∈ DescriptorCache.merge_descriptor ds r.
Proof.
  intros Hd Hne. unfold DescriptorCache.merge_descriptor.
  destruct (DescriptorCache.update_existing r ds) as [u|] eqn:Hu;
    [|apply elem_of_app; by left].
  revert u Hu. induction ds as [|d0 ds IH]; intros u; simpl; [done|].
  destruct (DescriptorCache.is_same_resource d0 r) eqn:Hsame.
  - intros [= <-]. apply is_same_resource_key in Hsame.
    apply elem_of_cons in Hd as [->|Hd]; [done|]. by right.
  - destruct (DescriptorCache.update_existing r ds) as [u'|]; [|done].
    intros [= <-]. apply elem_of_cons in Hd as [->|Hd]; [left|right].
    by apply IH.
Qed.

(** The descriptor with the key of the reflected one gets its stage. *)
Lemma merge_descriptor_same d ds r :
  d ∈ ds -> NoDup (descriptor_key <$> ds) ->
  descriptor_key d = descriptor_key r ->
  DescriptorCache.or_stage d r ∈ DescriptorCache.merge_descriptor ds r.
Proof.
  intros Hd Hnd Hkey. unfold DescriptorCache.merge_descriptor.
  destruct (DescriptorCache.update_existing r ds) as [u|] eqn:Hu.
  - revert u Hu. induction ds as [|d0 ds IH]; intros u; simpl; [by inv Hd|].
    rewrite fmap_cons in Hnd. apply NoDup_cons in Hnd as [Hd0 Hnd].
    destruct (DescriptorCache.is_same_resource d0 r) eqn:Hsame.
    + intros [= <-]. apply is_same_resource_key in Hsame.
      apply elem_of_cons in Hd as [->|Hd]; [left|].
      exfalso. apply Hd0. rewrite Hsame, <- Hkey. by apply list_elem_of_fmap_2.
    + destruct (DescriptorCache.update_existing r ds) as [u'|]; [|done].
      intros [= <-]. apply elem_of_cons in Hd as [->|Hd].
      * apply is_same_resource_key in Hkey. congruence.
      * right. by apply IH.
  - apply update_existing_None in Hu. exfalso. apply Hu.
    rewrite <- Hkey. by apply list_elem_of_fmap_2.
Qed.

Lemma merge_all_other d rs ds :
  d ∈ ds -> descriptor_key d ∉ descriptor_key <$> rs ->
  d ∈ fold_left DescriptorCache.merge_descriptor rs ds.
Proof.
  revert ds. induction rs as [|r rs IH]; intros ds Hd Hk; simpl; [done|].
  rewrite fmap_cons in Hk. apply not_elem_of_cons in Hk as [Hne Hk].
  apply IH; [|done]. by apply merge_descriptor_other.
Qed.

Lemma merge_all_same d r rs ds :
  d ∈ ds -> r ∈ rs ->
  NoDup (descriptor_key <$> ds) -> NoDup (descriptor_key <$> rs) ->
  descriptor_key d = descriptor_key r ->
  DescriptorCache.or_stage d r ∈ fold_left DescriptorCache.merge_descriptor rs ds.
Proof.
  revert ds. induction rs as [|r0 rs IH]; intros ds Hd Hr Hds Hrs Hkey; [by inv Hr|].
  simpl. rewrite fmap_cons in Hrs. apply NoDup_cons in Hrs as [Hr0 Hrs].
  apply elem_of_cons in Hr as [->|Hr].
  - apply merge_all_other; [by apply merge_descriptor_same|].
    by rewrite or_stage_key, Hkey.
  - apply IH; try done; [|by apply merge_descriptor_NoDup].
    apply merge_descriptor_other; [done|].
    intros Heq. apply Hr0. rewrite <- Heq, Hkey. by apply list_elem_of_fmap_2.
Qed.

Lemma merge_descriptor_reflected ds r :
  reflected ds -> reflected [r] -> reflected (DescriptorCache.merge_descriptor ds r).
Proof.
  unfold reflected. intros Hds Hr. unfold DescriptorCache.merge_descriptor.
  destruct (DescriptorCache.update_existing r ds) as [u|] eqn:Hu;
    [|by apply Forall_app].
  revert u Hu. induction ds as [|d ds IH]; intros u; simpl; [done|].
  apply Forall_cons in Hds as [Hd Hds].
  destruct (DescriptorCache.is_same_resource d r).
  - intros [= <-]. by constructor.
  - destruct (DescriptorCache.update_existing r ds) as [u'|]; [|done].
    intros [= <-]. constructor; [done|]. by apply IH.
Qed.

Lemma merge_all_reflected rs ds :
  reflected ds -> reflected rs ->
  reflected (fold_left DescriptorCache.merge_descriptor rs ds).
Proof.
  revert ds. induction rs as [|r rs IH]; intros ds Hds Hrs; simpl; [done|].
  apply Forall_cons in Hrs as [Hr Hrs].
  apply IH; [|done]. apply merge_descriptor_reflected; [done|].
  by constructor.
Qed.

Lemma NoDup_fmap_inj_on {A B : Type} (f : A -> B) (l : list A) x y :
  NoDup (f <$> l) -> x ∈ l -> y ∈ l -> f x = f y -> x = y.
Proof.
  induction l as [|a l IH]; [by intros _ ?%elem_of_nil|].
  rewrite fmap_cons, NoDup_cons. intros [Ha Hnd] Hx Hy Hxy.
  apply elem_of_cons in Hx as [->|Hx]; apply elem_of_cons in Hy as [->|Hy]; auto.
  - exfalso. apply Ha. rewrite Hxy. by apply list_elem_of_fmap_2.
  - exfalso. apply Ha. rewrite <- Hxy. by apply list_elem_of_fmap_2.
Qed.

Lemma make_dynamic_NoDup dynamic_slot shift ds :
  reflected ds -> NoDup (descriptor_key <$> ds) ->
  NoDup (descriptor_key <$> (DescriptorCache.make_dynamic dynamic_slot shift <$> ds)).
Proof.
  intros Hrefl Hnd. rewrite <- list_fmap_compose.
  apply NoDup_fmap_2_strong; [|by apply (NoDup_fmap_1 descriptor_key)].
  intros d1 d2 Hd1 Hd2. unfold reflected in Hrefl. rewrite Forall_forall in Hrefl.
  pose proof (Hrefl d1 Hd1) as H1. pose proof (Hrefl d2 Hd2) as H2.
  assert (Hinj : descriptor_key d1 = descriptor_key d2 -> d1 = d2).
  { by apply (NoDup_fmap_inj_on descriptor_key ds). }
  clear Hrefl. revert Hinj. unfold compose, DescriptorCache.make_dynamic, descriptor_key.
  destruct d1 as [t1 s1 g1], d2 as [t2 s2 g2]; simpl in *.
  repeat case_match; simpl; intros Hinj Heq; simplify_eq; try done;
    repeat match goal with
    | Hb : _ && _ = true |- _ => apply andb_true_iff in Hb as [?%bool_decide_eq_true ?]
    end; subst; try done; by apply Hinj.
Qed.

Lemma GenerateDescriptors_returns ps c vertex context :
  DescriptorCache.shader_vertex ps = Some vertex ->
  DescriptorCache.m_rhi_device c = Some (Some context) ->
  DescriptorCache.is_compiling vertex = false ->
  (forall p, DescriptorCache.shader_pixel ps = Some p ->
             DescriptorCache.is_compiling p = false) ->
  DescriptorCache.GenerateDescriptors ps c =
    Some (after_dynamic ps context
            <$> merged_descriptors vertex (DescriptorCache.shader_pixel ps), []).
Proof.
  intros Hv Hdev Hvc Hpc. unfold DescriptorCache.GenerateDescriptors.
  rewrite Hv, Hvc, Hdev. unfold merged_descriptors, after_dynamic.
  destruct (DescriptorCache.shader_pixel ps) as [p|]; simpl.
  - rewrite (Hpc p eq_refl). simpl.
    destruct (_ =? -1); [|done]. rewrite list_fmap_id. done.
  - destruct (_ =? -1); [|done]. rewrite list_fmap_id. done.
Qed.

Lemma merged_descriptors_NoDup vertex pixel :
  NoDup (descriptor_key <$> DescriptorCache.GetDescriptors vertex) ->
  NoDup (descriptor_key <$> merged_descriptors vertex pixel).
Proof. destruct pixel; simpl; [apply merge_all_NoDup|done]. Qed.

Lemma merged_descriptors_reflected vertex pixel :
  reflected (DescriptorCache.GetDescriptors vertex) ->
  (forall p, pixel = Some p -> reflected (DescriptorCache.GetDescriptors p)) ->
  reflected (merged_descriptors vertex pixel).
Proof.
  intros Hv Hp. destruct pixel as [p|]; simpl; [|done].
  apply merge_all_reflected; auto.
Qed.

Lemma after_dynamic_NoDup ps context ds :
  reflected ds -> NoDup (descriptor_key <$> ds) ->
  NoDup (descriptor_key <$> (after_dynamic ps context <$> ds)).
Proof.
  intros Hrefl Hnd. unfold after_dynamic.
  destruct (_ =? -1).
  - by rewrite list_fmap_id.
  - by apply make_dynamic_NoDup.
Qed.

Lemma after_dynamic_stage ps context d :
  DescriptorCache.stage (after_dynamic ps context d) = DescriptorCache.stage d.
Proof.
  unfold after_dynamic, DescriptorCache.make_dynamic. by repeat case_match.
Qed.

Lemma after_dynamic_key ps context d d' :
  descriptor_key d = descriptor_key d' ->
  descriptor_key (after_dynamic ps context d) = descriptor_key (after_dynamic ps context d').
Proof.
  unfold after_dynamic, DescriptorCache.make_dynamic, descriptor_key.
  destruct d, d'; simpl. intros [= -> ->]. by repeat case_match.
Qed.

Lemma NeedsToBind_idemp l :
  DescriptorCache.NeedsToBind (DescriptorCache.NeedsToBind l) = DescriptorCache.NeedsToBind l.
Proof. done. Qed.

Section LayoutSelection.
Context `{DescriptorCache.Collaborators}.

(** C1. For a pipeline state with a vertex shader and an optional pixel
    shader, none of them still compiling, on a cache with a device context:
    [SetPipelineState] returns; calling it again with the same pair changes
    nothing and selects the same layout, the one stored under the hash of
    the pair; a layout that was already stored under that hash is kept (only
    marked for rebinding) and one is made from [GenerateDescriptors]
    otherwise; no other layout is touched. When reflection lists every
    (type, slot) of a stage once, the list [GenerateDescriptors] builds has
    no two entries with the same (type, slot), and for a (type, slot) that
    both stages declare its only entry carries the OR of both stage masks. *)
Theorem SetPipelineState_layout_per_shader_pair ps c vertex context :
  DescriptorCache.shader_vertex ps = Some vertex ->
  DescriptorCache.m_rhi_device c = Some (Some context) ->
  DescriptorCache.is_compiling vertex = false ->
  (forall p, DescriptorCache.shader_pixel ps = Some p ->
             DescriptorCache.is_compiling p = false) ->
  NoDup (descriptor_key <$> DescriptorCache.GetDescriptors vertex) ->
  reflected (DescriptorCache.GetDescriptors vertex) ->
  (forall p, DescriptorCache.shader_pixel ps = Some p ->
             NoDup (descriptor_key <$> DescriptorCache.GetDescriptors p) /\
             reflected (DescriptorCache.GetDescriptors p)) ->
  let hash := DescriptorCache.shader_hash vertex (DescriptorCache.shader_pixel ps) in
  exists c1 log1 descriptors,
    DescriptorCache.SetPipelineState ps c = Some (c1, log1) /\
    DescriptorCache.SetPipelineState ps c1 = Some (c1, []) /\
    DescriptorCache.m_descriptor_layout_current c1 = Some hash /\
    DescriptorCache.m_descriptor_set_layouts c1 !! hash =
      Some (DescriptorCache.NeedsToBind
              (default (DescriptorCache.new_layout descriptors)
                 (DescriptorCache.m_descriptor_set_layouts c !! hash))) /\
    (forall k, k <> hash ->
       DescriptorCache.m_descriptor_set_layouts c1 !! k =
       DescriptorCache.m_descriptor_set_layouts c !! k) /\
    DescriptorCache.GenerateDescriptors ps c = Some (descriptors, []) /\
    NoDup (descriptor_key <$> descriptors) /\
    (forall p dv dp,
       DescriptorCache.shader_pixel ps = Some p ->
       dv ∈ DescriptorCache.GetDescriptors vertex ->
       dp ∈ DescriptorCache.GetDescriptors p ->
       descriptor_key dv = descriptor_key dp ->
       exists d,
         d ∈ descriptors /\
         descriptor_key d = descriptor_key (after_dynamic ps context dv) /\
         DescriptorCache.stage d
           = Z.lor (DescriptorCache.stage dv) (DescriptorCache.stage dp) /\
         (forall d', d' ∈ descriptors -> descriptor_key d' = descriptor_key d -> d' = d)).
Proof.
  intros Hv Hdev Hvc Hpc Hvk Hvr Hp hash.
  pose proof (GenerateDescriptors_returns ps c vertex context Hv Hdev Hvc Hpc) as Hgen.
  set (descriptors := after_dynamic ps context <$> _) in Hgen.
  assert (Hnd : NoDup (descriptor_key <$> descriptors)).
  { apply after_dynamic_NoDup; [|by apply merged_descriptors_NoDup].
    apply merged_descriptors_reflected; [done|]. intros p Hpp. by apply Hp. }
  set (layout := DescriptorCache.NeedsToBind
                   (default (DescriptorCache.new_layout descriptors)
                      (DescriptorCache.m_descriptor_set_layouts c !! hash))).
  assert (Hfirst : exists c1 log1,
             DescriptorCache.SetPipelineState ps c = Some (c1, log1) /\
             DescriptorCache.m_descriptor_layout_current c1 = Some hash /\
             DescriptorCache.m_descriptor_set_layouts c1 !! hash = Some layout /\
             (forall k, k <> hash ->
                DescriptorCache.m_descriptor_set_layouts c1 !! k =
                DescriptorCache.m_descriptor_set_layouts c !! k) /\
             DescriptorCache.m_name c1 =
               DescriptorCache.shader_name (DescriptorCache.shader_vertex ps) +:+ "-" +:+
               DescriptorCache.shader_name (DescriptorCache.shader_pixel ps)).
  { unfold DescriptorCache.SetPipelineState. rewrite Hv. cbn [mbind option_bind].
    fold hash. subst layout.
    destruct (DescriptorCache.m_descriptor_set_layouts c !! hash) as [l|] eqn:Hl.
    - eexists _, _. split; [reflexivity|]. cbn.
      split; [done|]. split; [by rewrite lookup_alter_eq, Hl|].
      split; [|done]. intros k Hk. by rewrite lookup_alter_ne.
    - rewrite Hgen. cbn [mbind option_bind].
      eexists _, _. split; [reflexivity|]. cbn.
      split; [done|]. split; [by rewrite lookup_alter_eq, lookup_insert_eq|].
      split; [|done]. intros k Hk.
      by rewrite lookup_alter_ne, lookup_insert_ne. }
  destruct Hfirst as (c1 & log1 & Hc1 & Hcur & Hlay & Hother & Hname).
  exists c1, log1, descriptors.
  split; [done|]. split.
  { unfold DescriptorCache.SetPipelineState. rewrite Hv. cbn [mbind option_bind].
    fold hash. rewrite Hlay. cbn [mbind option_bind]. do 2 f_equal.
    rewrite Hv in Hname. rewrite <- Hname.
    assert (Hid : alter DescriptorCache.NeedsToBind hash
                    (DescriptorCache.m_descriptor_set_layouts c1)
                  = DescriptorCache.m_descriptor_set_layouts c1).
    { apply map_eq. intros k. destruct (decide (k = hash)) as [->|Hk].
      - by rewrite lookup_alter_eq, Hlay.
      - by rewrite lookup_alter_ne. }
    rewrite Hid, <- Hcur. by destruct c1. }
  split; [done|]. split; [done|]. split; [done|]. split; [done|]. split; [done|].
  intros p dv dp Hpp Hdv Hdp Hkey.
  exists (after_dynamic ps context (DescriptorCache.or_stage dv dp)).
  assert (Hin : after_dynamic ps context (DescriptorCache.or_stage dv dp) ∈ descriptors).
  { subst descriptors. apply list_elem_of_fmap_2. rewrite Hpp. simpl.
    apply merge_all_same; try done. by apply (Hp p). }
  split; [done|split; [|split]].
  - by apply after_dynamic_key.
  - by rewrite after_dynamic_stage.
  - intros d' Hd' Hk. by apply (NoDup_fmap_inj_on descriptor_key descriptors).
Qed.

End LayoutSelection.

(** ** RHI_DescriptorCache: calls without a selected layout *)

Section NoLayout.
Context `{DescriptorCache.Collaborators}.

(** C3. While no layout is selected, the three binding calls and two of
    the three retrievals log "Invalid descriptor set layout" once and do
    nothing else: the cache is returned as it was, the [void] setters have no
    result, [GetResource_DescriptorSetLayout] returns null and
    [GetResource_DescriptorSet] returns false and leaves its out-parameter
    alone. [GetDynamicOffsets] logs the same error and leaves the cache
    alone, but what it returns is not a failure value: it is a reference to
    a temporary vector that no longer exists. *)
Theorem calls_without_layout_are_logged_noops c slot resource descriptor_set :
  DescriptorCache.m_descriptor_layout_current c = None ->
  DescriptorCache.SetConstantBuffer slot resource c
    = (c, [DescriptorCache.invalid_layout]) /\
  DescriptorCache.SetSampler slot resource c
    = (c, [DescriptorCache.invalid_layout]) /\
  DescriptorCache.SetTexture slot resource c
    = (c, [DescriptorCache.invalid_layout]) /\
  DescriptorCache.GetResource_DescriptorSetLayout c
    = (None, [DescriptorCache.invalid_layout]) /\
  DescriptorCache.GetResource_DescriptorSet descriptor_set c
    = (c, false, descriptor_set, [DescriptorCache.invalid_layout]) /\
  DescriptorCache.GetDynamicOffsets c
    = (DescriptorCache.Destroyed_temporary, [DescriptorCache.invalid_layout]) /\
  (forall offsets,
     (DescriptorCache.GetDynamicOffsets c).1 <> DescriptorCache.Offsets_of offsets).
Proof.
  intros Hnone.
  unfold DescriptorCache.SetConstantBuffer, DescriptorCache.SetSampler,
    DescriptorCache.SetTexture, DescriptorCache.GetResource_DescriptorSetLayout,
    DescriptorCache.GetResource_DescriptorSet, DescriptorCache.GetDynamicOffsets,
    DescriptorCache.current_layout.
  rewrite Hnone. simpl. repeat split. intros offsets. discriminate.
Qed.

End NoLayout.

(** Scenario: [SetConstantBuffer] and [GetDynamicOffsets] on a new cache,
    before any [Begin]. *)
Lemma calls_without_layout_are_logged_noops_witness :
  @DescriptorCache.SetConstantBuffer example_collaborators 0 (Some 7) example_cache
    = (example_cache, [Log_Error "Invalid descriptor set layout"]) /\
  @DescriptorCache.GetDynamicOffsets example_collaborators example_cache
    = (DescriptorCache.Destroyed_temporary, [Log_Error "Invalid descriptor set layout"]).
Proof.
  pose proof (@calls_without_layout_are_logged_noops example_collaborators
                example_cache 0 (Some 7) None eq_refl) as (Hset & _ & _ & _ & _ & Hget & _).
  exact (conj Hset Hget).
Defined.

(** ** RHI_DescriptorCache: capacity *)

Lemma GetDescriptorSetCount_range c : is_u32 (DescriptorCache.GetDescriptorSetCount c).
Proof.
  unfold DescriptorCache.GetDescriptorSetCount.
  apply (map_fold_weak_ind (fun b _ => is_u32 b)).
  - unfold is_u32, UINT32_MOD. lia.
  - intros. apply wrap32_range.
Qed.

Lemma HasEnoughCapacity_iff c :
  DescriptorCache.HasEnoughCapacity c = true <->
  DescriptorCache.GetDescriptorSetCount c < DescriptorCache.m_descriptor_set_capacity c.
Proof. unfold DescriptorCache.HasEnoughCapacity. apply Z.ltb_lt. Qed.

Lemma SetDescriptorSetCapacity_capacity n c :
  DescriptorCache.m_descriptor_set_capacity (DescriptorCache.SetDescriptorSetCapacity n c).1
  = DescriptorCache.m_descriptor_set_capacity c.
Proof.
  unfold DescriptorCache.SetDescriptorSetCapacity. by repeat case_match.
Qed.

Lemma SetDescriptorSetCapacity_count n c :
  DescriptorCache.GetDescriptorSetCount (DescriptorCache.SetDescriptorSetCapacity n c).1 = 0 \/
  DescriptorCache.GetDescriptorSetCount (DescriptorCache.SetDescriptorSetCapacity n c).1
  = DescriptorCache.GetDescriptorSetCount c.
Proof.
  unfold DescriptorCache.SetDescriptorSetCapacity.
  repeat case_match; simpl; auto.
Qed.

Lemma GrowIfNeeded_capacity c :
  DescriptorCache.m_descriptor_set_capacity (DescriptorCache.GrowIfNeeded c).1 =
  if DescriptorCache.m_descriptor_set_capacity c
     <? wrap32 (DescriptorCache.GetDescriptorSetCount c + 1)
  then wrap32 (DescriptorCache.m_descriptor_set_capacity c * 2)
  else DescriptorCache.m_descriptor_set_capacity c.
Proof.
  unfold DescriptorCache.GrowIfNeeded. case_match; [|done].
  pose proof (SetDescriptorSetCapacity_capacity
    (DescriptorCache.m_descriptor_set_capacity
       (DescriptorCache.set_capacity
          (wrap32 (DescriptorCache.m_descriptor_set_capacity c * 2)) c))
    (DescriptorCache.set_capacity
       (wrap32 (DescriptorCache.m_descriptor_set_capacity c * 2)) c)) as Hcap.
  destruct (DescriptorCache.SetDescriptorSetCapacity _ _) as [c2 log]. exact Hcap.
Qed.

Lemma GrowIfNeeded_enough c :
  DescriptorCache.GetDescriptorSetCount c < DescriptorCache.m_descriptor_set_capacity c ->
  DescriptorCache.m_descriptor_set_capacity c < UINT32_MOD ->
  DescriptorCache.GrowIfNeeded c = (c, []).
Proof.
  intros Hlt Hcap. unfold DescriptorCache.GrowIfNeeded.
  pose proof (GetDescriptorSetCount_range c) as [Hlo Hhi].
  rewrite wrap32_small by (unfold is_u32; lia).
  destruct (Z.ltb_spec (DescriptorCache.m_descriptor_set_capacity c)
              (DescriptorCache.GetDescriptorSetCount c + 1)); [lia|done].
Qed.

Lemma GrowIfNeeded_count c :
  DescriptorCache.GetDescriptorSetCount (DescriptorCache.GrowIfNeeded c).1 = 0 \/
  DescriptorCache.GetDescriptorSetCount (DescriptorCache.GrowIfNeeded c).1
  = DescriptorCache.GetDescriptorSetCount c.
Proof.
  unfold DescriptorCache.GrowIfNeeded. case_match; [|by right].
  pose proof (SetDescriptorSetCapacity_count
    (DescriptorCache.m_descriptor_set_capacity
       (DescriptorCache.set_capacity
          (wrap32 (DescriptorCache.m_descriptor_set_capacity c * 2)) c))
    (DescriptorCache.set_capacity
       (wrap32 (DescriptorCache.m_descriptor_set_capacity c * 2)) c)) as Hcount.
  destruct (DescriptorCache.SetDescriptorSetCapacity _ _) as [c2 log]. exact Hcount.
Qed.

Lemma grows_capacity k c c' :
  grows k c c' ->
  is_u32 (DescriptorCache.m_descriptor_set_capacity c) ->
  DescriptorCache.m_descriptor_set_capacity c'
  = wrap32 (DescriptorCache.m_descriptor_set_capacity c * 2 ^ Z.of_nat k).
Proof.
  intros Hg Hu32. induction Hg as [c|k c c1 c2 Hg IH Heq|k c c1 Hg IH].
  - rewrite Z.mul_1_r. symmetry. by apply wrap32_small.
  - rewrite Heq. by apply IH.
  - rewrite GrowIfNeeded_capacity, (IH Hu32). case_match.
    + rewrite Nat2Z.inj_add, Z.pow_add_r by lia. change (2 ^ Z.of_nat 1) with 2.
      unfold wrap32. rewrite Z.mul_mod_idemp_l by (unfold UINT32_MOD; lia).
      f_equal. lia.
    + by rewrite Nat.add_0_r.
Qed.

Lemma GetDescriptorSetCount_total c :
  DescriptorCache.GetDescriptorSetCount c = wrap32 (total_descriptor_sets c).
Proof.
  unfold DescriptorCache.GetDescriptorSetCount, total_descriptor_sets.
  rewrite map_fold_foldr.
  induction (map_to_list (DescriptorCache.m_descriptor_set_layouts c)) as [|[hash layout] l IH].
  - reflexivity.
  - cbn. rewrite IH. unfold wrap32. rewrite Zplus_mod_idemp_l. f_equal. lia.
Qed.

Lemma GrowIfNeeded_room c :
  wrap32 (DescriptorCache.GetDescriptorSetCount c + 1)
    <= DescriptorCache.m_descriptor_set_capacity c ->
  DescriptorCache.GrowIfNeeded c = (c, []).
Proof.
  intros Hroom. unfold DescriptorCache.GrowIfNeeded.
  destruct (Z.ltb_spec (DescriptorCache.m_descriptor_set_capacity c)
              (wrap32 (DescriptorCache.GetDescriptorSetCount c + 1))); [lia|done].
Qed.

(** C2, as stated, fails where the doubling leaves 32 bits: a cache with
    a capacity of 2^31 that holds 2^31 descriptor sets is over budget, and
    [GrowIfNeeded] doubles its capacity to 0. The count, 0 after the pool
    was re-created, is then not below the capacity, and 0 is no power-of-two
    multiple of 2^31. It also fails for a cache constructed with a capacity
    of 0, which stays at 0, and for a cache without device that holds more
    than twice its capacity, whose layouts survive the doubling. *)
Lemma GrowIfNeeded_can_leave_no_room :
  let grown := (DescriptorCache.GrowIfNeeded huge_cache).1 in
  let grown_zero := (DescriptorCache.GrowIfNeeded zero_cache).1 in
  let grown_overfull := (DescriptorCache.GrowIfNeeded overfull_cache).1 in
  DescriptorCache.m_descriptor_set_capacity huge_cache = 2 ^ 31 /\
  DescriptorCache.GetDescriptorSetCount huge_cache = 2 ^ 31 /\
  DescriptorCache.m_descriptor_set_capacity grown = 0 /\
  DescriptorCache.GetDescriptorSetCount grown = 0 /\
  ~ DescriptorCache.GetDescriptorSetCount grown
    < DescriptorCache.m_descriptor_set_capacity grown /\
  DescriptorCache.HasEnoughCapacity grown = false /\
  (forall k : nat,
     DescriptorCache.m_descriptor_set_capacity grown <> 2 ^ 31 * 2 ^ Z.of_nat k) /\
  DescriptorCache.m_descriptor_set_capacity zero_cache = 0 /\
  DescriptorCache.m_descriptor_set_capacity grown_zero = 0 /\
  DescriptorCache.GetDescriptorSetCount grown_zero = 0 /\
  DescriptorCache.m_descriptor_set_capacity overfull_cache = 16 /\
  DescriptorCache.m_descriptor_set_capacity grown_overfull = 32 /\
  DescriptorCache.GetDescriptorSetCount grown_overfull = 40.
Proof.
  intros grown grown_zero grown_overfull.
  assert (Hcapacity : DescriptorCache.m_descriptor_set_capacity grown = 0)
    by (vm_compute; reflexivity).
  assert (Hcount : DescriptorCache.GetDescriptorSetCount grown = 0)
    by (vm_compute; reflexivity).
  split; [reflexivity|]. split; [vm_compute; reflexivity|].
  split; [exact Hcapacity|]. split; [exact Hcount|].
  split; [rewrite Hcapacity, Hcount; lia|].
  split; [vm_compute; reflexivity|].
  split.
  { intros k. rewrite Hcapacity.
    pose proof (Z.pow_pos_nonneg 2 (Z.of_nat k)). lia. }
  repeat split; vm_compute; reflexivity.
Qed.

(** C2, amended. [GetDescriptorSetCount] is the total of the descriptor
    sets of all layouts, reduced modulo 2^32, and [HasEnoughCapacity] holds
    exactly when it is below the capacity. [GrowIfNeeded] doubles the
    capacity (in [uint32_t] arithmetic) when count + 1 exceeds it and leaves
    the cache alone otherwise. On a cache whose capacity is positive, whose
    pool holds no more sets than its capacity and whose doubled capacity
    fits 32 bits, the capacity after [GrowIfNeeded] is twice the old one or
    the old one, the count is below it, and a second call right after
    changes nothing. After any run of member functions of which [k] were
    growing calls the capacity is the initial one times 2^k modulo 2^32, and
    exactly that product as long as it fits 32 bits. *)
Theorem GrowIfNeeded_capacity_invariant c :
  let count := DescriptorCache.GetDescriptorSetCount c in
  let capacity := DescriptorCache.m_descriptor_set_capacity c in
  let grown := (DescriptorCache.GrowIfNeeded c).1 in
  count = total_descriptor_sets c mod 2 ^ 32 /\
  (0 <= total_descriptor_sets c < 2 ^ 32 -> count = total_descriptor_sets c) /\
  (DescriptorCache.HasEnoughCapacity c = true <->
   total_descriptor_sets c mod 2 ^ 32 < capacity) /\
  (DescriptorCache.m_descriptor_set_capacity grown =
     if capacity <? wrap32 (count + 1) then wrap32 (capacity * 2) else capacity) /\
  (wrap32 (count + 1) <= capacity -> DescriptorCache.GrowIfNeeded c = (c, [])) /\
  (0 < capacity -> capacity * 2 < UINT32_MOD -> count <= capacity ->
     (capacity < count + 1 ->
        DescriptorCache.m_descriptor_set_capacity grown = capacity * 2) /\
     (count + 1 <= capacity -> DescriptorCache.GrowIfNeeded c = (c, [])) /\
     DescriptorCache.GetDescriptorSetCount grown
       < DescriptorCache.m_descriptor_set_capacity grown /\
     DescriptorCache.GrowIfNeeded grown = (grown, [])) /\
  (forall k c', grows k c c' -> is_u32 capacity ->
     DescriptorCache.m_descriptor_set_capacity c' = wrap32 (capacity * 2 ^ Z.of_nat k) /\
     (capacity * 2 ^ Z.of_nat k < UINT32_MOD ->
      DescriptorCache.m_descriptor_set_capacity c' = capacity * 2 ^ Z.of_nat k)).
Proof.
  intros count capacity grown.
  split; [apply GetDescriptorSetCount_total|].
  split.
  { intros Hfits. subst count. rewrite GetDescriptorSetCount_total.
    by apply wrap32_small. }
  split.
  { rewrite HasEnoughCapacity_iff, GetDescriptorSetCount_total. done. }
  split; [apply GrowIfNeeded_capacity|].
  split; [apply GrowIfNeeded_room|].
  split.
  - intros Hpos Hdouble Hle.
    pose proof (GetDescriptorSetCount_range c) as [Hlo Hhi]. fold count in Hlo, Hhi.
    pose proof (GrowIfNeeded_capacity c) as Hcap. fold count capacity grown in Hcap.
    rewrite (wrap32_small (count + 1)) in Hcap by (unfold is_u32, UINT32_MOD in *; lia).
    rewrite (wrap32_small (capacity * 2)) in Hcap by (unfold is_u32; lia).
    assert (Hafter : DescriptorCache.GetDescriptorSetCount grown
                     < DescriptorCache.m_descriptor_set_capacity grown).
    { pose proof (GrowIfNeeded_count c) as Hcount. fold grown count in Hcount.
      destruct (Z.ltb_spec capacity (count + 1)); lia. }
    split; [|split; [|split]]; try done.
    + intros Hover. destruct (Z.ltb_spec capacity (count + 1)); lia.
    + intros Hroom. apply GrowIfNeeded_enough; fold count capacity; lia.
    + apply GrowIfNeeded_enough; [done|].
      destruct (Z.ltb_spec capacity (count + 1)); lia.
  - intros k c' Hg Hu32.
    pose proof (grows_capacity k c c' Hg Hu32) as Hk. fold capacity in Hk.
    split; [done|]. intros Hfits. rewrite Hk. apply wrap32_small.
    destruct Hu32. split; [|done]. apply Z.mul_nonneg_nonneg; lia.
Qed.

(** Scenario: the count reaches the capacity of 16; the next
    [GrowIfNeeded] doubles to 32 and the one after it does not double. *)
Lemma GrowIfNeeded_capacity_invariant_witness :
  total_descriptor_sets full_cache = 16 /\
  DescriptorCache.GetDescriptorSetCount full_cache = 16 /\
  DescriptorCache.m_descriptor_set_capacity (DescriptorCache.GrowIfNeeded full_cache).1 = 32 /\
  DescriptorCache.GetDescriptorSetCount (DescriptorCache.GrowIfNeeded full_cache).1 < 32 /\
  DescriptorCache.GrowIfNeeded (DescriptorCache.GrowIfNeeded full_cache).1
    = ((DescriptorCache.GrowIfNeeded full_cache).1, []).
Proof.
  destruct (GrowIfNeeded_capacity_invariant full_cache)
    as (_ & Htotal & _ & _ & _ & Hgrow & _).
  assert (Hsum : total_descriptor_sets full_cache = 16) by (vm_compute; reflexivity).
  assert (Hcount : DescriptorCache.GetDescriptorSetCount full_cache = 16)
    by (rewrite Htotal; rewrite Hsum; [reflexivity|lia]).
  assert (Hcap : DescriptorCache.m_descriptor_set_capacity full_cache = 16)
    by reflexivity.
  rewrite Hcount, Hcap in Hgrow.
  destruct Hgrow as (Hdouble & _ & Hbelow & Honce);
    [lia | unfold UINT32_MOD; lia | lia |].
  rewrite (Hdouble ltac:(lia)) in Hbelow.
  split; [exact Hsum|]. split; [exact Hcount|].
  split; [apply Hdouble; lia|]. split; [exact Hbelow|exact Honce].
Defined.

Lemma example_shaders_reflected :
  NoDup (descriptor_key <$> DescriptorCache.GetDescriptors example_vertex_shader) /\
  reflected (DescriptorCache.GetDescriptors example_vertex_shader) /\
  NoDup (descriptor_key <$> DescriptorCache.GetDescriptors example_pixel_shader) /\
  reflected (DescriptorCache.GetDescriptors example_pixel_shader).
Proof.
  split; [apply (bool_decide_unpack _); vm_compute; exact I|].
  split; [unfold reflected; repeat constructor; discriminate|].
  split; [apply (bool_decide_unpack _); vm_compute; exact I|].
  unfold reflected; repeat constructor; discriminate.
Qed.

Lemma SetPipelineState_layout_per_shader_pair_witness :
  exists c1 log1 descriptors,
    @DescriptorCache.SetPipelineState example_collaborators
       example_pipeline_state example_cache = Some (c1, log1) /\
    @DescriptorCache.SetPipelineState example_collaborators
       example_pipeline_state c1 = Some (c1, []) /\
    DescriptorCache.GenerateDescriptors example_pipeline_state example_cache
      = Some (descriptors, []) /\
    NoDup (descriptor_key <$> descriptors).
Proof.
  destruct example_shaders_reflected as (Hvk & Hvr & Hpk & Hpr).
  destruct (@SetPipelineState_layout_per_shader_pair example_collaborators
              example_pipeline_state example_cache example_vertex_shader
              {| DescriptorCache.shader_shift_buffer := 0 |}
              eq_refl eq_refl eq_refl
              (fun p Hp => match Hp in _ = q return
                                 DescriptorCache.is_compiling
                                   (default example_pixel_shader q) = false
                           with eq_refl => eq_refl end)
              Hvk Hvr
              (fun p Hp => match Hp in _ = q return
                                 NoDup (descriptor_key <$>
                                          DescriptorCache.GetDescriptors
                                            (default example_pixel_shader q)) /\
                                 reflected (DescriptorCache.GetDescriptors
                                              (default example_pixel_shader q))
                           with eq_refl => conj Hpk Hpr end))
    as (c1 & log1 & ds & H1 & H2 & _ & _ & _ & Hgen & Hnd & _).
  exists c1, log1, ds. repeat split; assumption.
Defined.

Example example_merged_descriptors :
  DescriptorCache.GenerateDescriptors example_pipeline_state example_cache =
  Some ([ {| DescriptorCache.type := DescriptorCache.RHI_Descriptor_ConstantBuffer;
             DescriptorCache.slot := 0; DescriptorCache.stage := 3 |};
          {| DescriptorCache.type := DescriptorCache.RHI_Descriptor_ConstantBufferDynamic;
             DescriptorCache.slot := 2; DescriptorCache.stage := 1 |};
          {| DescriptorCache.type := DescriptorCache.RHI_Descriptor_SampledImage;
             DescriptorCache.slot := 28; DescriptorCache.stage := 2 |};
          {| DescriptorCache.type := DescriptorCache.RHI_Descriptor_Sampler;
             DescriptorCache.slot := 0; DescriptorCache.stage := 2 |} ], []).
Proof. reflexivity. Qed.

(** ** Renderer: SetResolution *)

Lemma float_of_u32_even n :
  0 <= n -> Z.even n = true -> Z.even (Renderer.float_of_u32 n) = true.
Proof.
  intros Hn Heven. unfold Renderer.float_of_u32.
  destruct (Z.ltb_spec n (2 ^ 24)) as [Hlt|Hge]; [done|].
  assert (He : 1 <= Z.log2 n - 23).
  { assert (24 <= Z.log2 n); [|lia]. apply Z.log2_le_pow2; lia. }
  assert (Hpow : forall k, Z.even (k * 2 ^ (Z.log2 n - 23)) = true).
  { intros k. rewrite Z.even_mul, Z.even_pow by lia. apply orb_true_r. }
  repeat case_match; apply Hpow.
Qed.

Lemma make_even n :
  0 <= n ->
  n - (if negb (n mod 2 =? 0) then 1 else 0) = n - n mod 2 /\
  Z.even (n - n mod 2) = true /\ 0 <= n - n mod 2.
Proof.
  intros Hn. pose proof (Z.mod_pos_bound n 2 ltac:(lia)) as Hmod.
  split; [|split].
  - destruct (Z.eqb_spec (n mod 2) 0); simpl; lia.
  - rewrite Zeven_mod. apply Z.eqb_eq.
    rewrite Zminus_mod, Z.mod_mod, Z.sub_diag by lia. done.
  - pose proof (Z.mod_le n 2 Hn ltac:(lia)). lia.
Qed.

(** C10. [SetResolution w h] on a width or height that is zero or above
    the device maximum logs a warning and changes nothing. Otherwise an odd
    width or height is first reduced by one; if the stored resolution
    already has these values the call returns without any effect, and if
    not, they are stored, the render textures are re-created, the
    resolution event is fired and the new resolution is logged. The stored
    components are even after every such store, so an even resolution stays
    even under any call. *)
Theorem SetResolution_keeps_resolution_even width height r :
  0 <= width -> 0 <= height ->
  let invalid :=
    width = 0 \/ Renderer.max_res r < width \/ height = 0 \/ Renderer.max_res r < height in
  let even_width := width - width mod 2 in
  let even_height := height - height mod 2 in
  let target := (Renderer.float_of_u32 even_width, Renderer.float_of_u32 even_height) in
  (invalid ->
     Renderer.SetResolution width height r
     = (r, [Renderer.Resolution_Log (Log_Warning_Resolution width height)])) /\
  (~ invalid -> Renderer.m_resolution r = target ->
     Renderer.SetResolution width height r = (r, [])) /\
  (~ invalid -> Renderer.m_resolution r <> target ->
     Renderer.SetResolution width height r
     = ({| Renderer.m_resolution := target; Renderer.max_res := Renderer.max_res r |},
        [Renderer.CreateRenderTextures; Renderer.Fire_Event_Frame_Resolution_Changed;
         Renderer.Resolution_Log (Log_Info_Resolution even_width even_height)])) /\
  Z.even target.1 = true /\ Z.even target.2 = true /\
  (Z.even (Renderer.m_resolution r).1 = true ->
   Z.even (Renderer.m_resolution r).2 = true ->
   Z.even (Renderer.m_resolution (Renderer.SetResolution width height r).1).1 = true /\
   Z.even (Renderer.m_resolution (Renderer.SetResolution width height r).1).2 = true).
Proof.
  intros Hw Hh invalid even_width even_height target.
  destruct (make_even width Hw) as (Hwe & Hweven & Hw0).
  destruct (make_even height Hh) as (Hhe & Hheven & Hh0).
  assert (Htw : Z.even target.1 = true) by (by apply float_of_u32_even).
  assert (Hth : Z.even target.2 = true) by (by apply float_of_u32_even).
  assert (Hguard : (width =? 0) || (Renderer.max_res r <? width) ||
                   (height =? 0) || (Renderer.max_res r <? height) = true <-> invalid).
  { subst invalid. rewrite !orb_true_iff, !Z.eqb_eq, !Z.ltb_lt. tauto. }
  assert (Hsame : ((Renderer.m_resolution r).1 =? Renderer.float_of_u32 even_width) &&
                  ((Renderer.m_resolution r).2 =? Renderer.float_of_u32 even_height) = true
                  <-> Renderer.m_resolution r = target).
  { subst target. rewrite andb_true_iff, !Z.eqb_eq.
    destruct (Renderer.m_resolution r) as [a b]. simpl.
    split; [by intros [-> ->]|by intros [= -> ->]]. }
  unfold Renderer.SetResolution. rewrite Hwe, Hhe. fold even_width even_height.
  destruct (_ || _ || _ || _).
  - pose proof (proj1 Hguard eq_refl) as Hinvalid.
    split; [done|]. split; [done|]. split; [done|]. by repeat split.
  - assert (Hvalid : ~ invalid) by (intros Hi; by apply Hguard in Hi).
    split; [done|]. destruct (_ && _).
    + pose proof (proj1 Hsame eq_refl) as Heq.
      split; [done|]. split; [done|]. by repeat split.
    + assert (Hdiff : Renderer.m_resolution r <> target)
        by (intros Hi; by apply Hsame in Hi).
      split; [done|]. split; [done|]. by repeat split.
Qed.

Lemma SetResolution_keeps_resolution_even_witness :
  let r := {| Renderer.m_resolution := (1920, 1080); Renderer.max_res := 16384 |} in
  Renderer.SetResolution 1281 721 r
  = ({| Renderer.m_resolution := (1280, 720); Renderer.max_res := 16384 |},
     [Renderer.CreateRenderTextures; Renderer.Fire_Event_Frame_Resolution_Changed;
      Renderer.Resolution_Log (Log_Info_Resolution 1280 720)]) /\
  Renderer.SetResolution 1921 1081 r = (r, []) /\
  Renderer.SetResolution 0 1080 r
  = (r, [Renderer.Resolution_Log (Log_Warning_Resolution 0 1080)]).
Proof.
  intros r. split; [|split].
  - destruct (SetResolution_keeps_resolution_even 1281 721 r ltac:(lia) ltac:(lia))
      as (_ & _ & Hstore & _).
    apply Hstore; [simpl; lia|discriminate].
  - destruct (SetResolution_keeps_resolution_even 1921 1081 r ltac:(lia) ltac:(lia))
      as (_ & Hsilent & _).
    apply Hsilent; [simpl; lia|reflexivity].
  - destruct (SetResolution_keeps_resolution_even 0 1080 r ltac:(lia) ltac:(lia))
      as (Hinvalid & _).
    apply Hinvalid. left. reflexivity.
Defined.

(** ** Renderer: the sort key of RenderablesSort *)

Lemma pretty_N_char_digit n : Renderer.is_digit (pretty_N_char n) = true.
Proof. unfold pretty_N_char. by repeat case_match. Qed.

Lemma pretty_N_go_digits n s : all_digits s -> all_digits (pretty_N_go n s).
Proof.
  revert s. induction (N.lt_wf_0 n) as [n _ IH]; intros s Hs.
  destruct (decide (n = 0)%N) as [->|Hn]; [by rewrite pretty_N_go_0|].
  rewrite pretty_N_go_step by lia. apply IH.
  - apply N.div_lt; lia.
  - split; [apply pretty_N_char_digit|done].
Qed.

Lemma pretty_Z_digits d : 0 <= d -> all_digits (pretty d).
Proof.
  intros Hd. destruct d as [|p|p]; [by split| |lia].
  unfold pretty, pretty_Z, pretty, pretty_positive, pretty, pretty_N.
  case_decide; [by split|]. by apply pretty_N_go_digits.
Qed.

Lemma read_digits_app s rest acc count :
  all_digits s ->
  Renderer.read_digits (s +:+ rest) acc count
  = Renderer.read_digits rest (digits_value s acc) (count + String.length s).
Proof.
  revert acc count. induction s as [|c s IH]; intros acc count Hs; simpl.
  - by rewrite Nat.add_0_r.
  - destruct Hs as [Hc Hs]. rewrite Hc, IH by done. f_equal. lia.
Qed.

Lemma string_app_cons (ch : ascii) (a b : string) :
  String ch a +:+ b = String ch (a +:+ b).
Proof. reflexivity. Qed.

Lemma string_app_nil_l (a : string) : "" +:+ a = a.
Proof. reflexivity. Qed.

Lemma string_app_assoc (a b c : string) : (a +:+ b) +:+ c = a +:+ b +:+ c.
Proof.
  induction a as [|ch a IH]; [done|]. rewrite !string_app_cons. by f_equal.
Qed.

Lemma read_sign_digit c rest :
  Renderer.is_digit c = true ->
  Renderer.read_sign (String c rest) = (false, String c rest).
Proof.
  destruct c as [b0 b1 b2 b3 b4 b5 b6 b7].
  destruct b0, b1, b2, b3, b4, b5, b6, b7; try discriminate; reflexivity.
Qed.

Lemma read_sign_digits s rest :
  all_digits s ->
  Renderer.read_sign (s +:+ "." +:+ rest) = (false, s +:+ "." +:+ rest).
Proof.
  destruct s as [|c s]; [done|]. intros [Hc _]. by apply read_sign_digit.
Qed.

(** What [stof] reads back from a depth printed in front of a dash and
    anything else: the depth's own digits and the six zeros behind its
    point. The text behind the dash plays no part. *)
Lemma stof_depth_prefix d rest :
  0 <= d ->
  Renderer.stof (Renderer.to_string d +:+ "-" +:+ rest)
  = Qmake (digits_value "000000" (digits_value (pretty d) 0)) (Z.to_pos (10 ^ 6)).
Proof.
  intros Hd. pose proof (pretty_Z_digits d Hd) as Hdigits.
  unfold Renderer.to_string, Renderer.stof.
  rewrite string_app_assoc, !string_app_cons, !string_app_nil_l.
  rewrite (read_sign_digits (pretty d) ("000000-" +:+ rest)) by done.
  rewrite !string_app_cons, !string_app_nil_l.
  rewrite read_digits_app by done.
  reflexivity.
Qed.

Lemma float_of_u32_nonneg n : 0 <= n -> 0 <= Renderer.float_of_u32 n.
Proof.
  intros Hn. unfold Renderer.float_of_u32.
  destruct (Z.ltb_spec n (2 ^ 24)); [done|].
  pose proof (Z.pow_nonneg 2 (Z.log2 n - 23) ltac:(lia)) as Hpow.
  pose proof (Z.div_pos n (2 ^ (Z.log2 n - 23)) Hn) as Hq.
  assert (0 < 2 ^ (Z.log2 n - 23)).
  { apply Z.pow_pos_nonneg; [lia|]. assert (2 ^ 24 <= n) as Hbig by done.
    apply Z.log2_le_mono in Hbig. rewrite Z.log2_pow2 in Hbig; lia. }
  repeat case_match; nia.
Qed.

Lemma float_round_nonneg n : 0 <= n -> 0 <= Renderer.float_round n.
Proof.
  intros Hn. unfold Renderer.float_round.
  destruct (Z.ltb_spec n 0); [lia|]. by apply float_of_u32_nonneg.
Qed.

Lemma LengthSquared_nonneg v : 0 <= Renderer.LengthSquared v.
Proof.
  unfold Renderer.LengthSquared. apply float_round_nonneg.
  pose proof (float_round_nonneg (Renderer.x v * Renderer.x v) ltac:(nia)).
  pose proof (float_round_nonneg (Renderer.y v * Renderer.y v) ltac:(nia)).
  pose proof (float_round_nonneg (Renderer.z v * Renderer.z v) ltac:(nia)).
  pose proof (float_round_nonneg
                (Renderer.float_round (Renderer.x v * Renderer.x v)
                 + Renderer.float_round (Renderer.y v * Renderer.y v)) ltac:(lia)).
  lia.
Qed.

Lemma render_hash_of_depth camera entity renderable material :
  Renderer.GetRenderable entity = Some renderable ->
  Renderer.GetMaterial renderable = Some material ->
  Renderer.render_hash camera entity
  = Qmake (digits_value "000000"
             (digits_value
                (pretty (Renderer.LengthSquared
                           (Renderer.Vector3_sub (Renderer.GetAabb_GetCenter renderable)
                              (Renderer.GetPosition camera)))) 0))
      (Z.to_pos (10 ^ 6)).
Proof.
  intros Hr Hm. unfold Renderer.render_hash. rewrite Hr, Hm.
  apply stof_depth_prefix, LengthSquared_nonneg.
Qed.

(** Past 2^24 the depth is a rounded float: 4097 squared is 16785409, and
    the key is the even neighbour. *)
Example LengthSquared_is_rounded :
  Renderer.LengthSquared (Renderer.Vector3_sub (on_x_axis 4097) origin) = 16785408.
Proof. reflexivity. Qed.

(** C7 does not hold of the code. The sort key [render_hash] is read back
    by [stof] from the printed depth alone, so two renderables at the same
    place get the same key whatever their material ids; a vector of two
    opaque entities is never sorted, so a far entity listed before a near
    one stays in front of it; and with the insertion sort of the common
    libraries three entities at one place keep the order they were listed
    in, material ids 3, 2, 1. *)
Theorem RenderablesSort_misses_material_and_pairs `{StdSort} :
  (forall camera e1 e2 r1 r2 m1 m2,
     Renderer.GetRenderable e1 = Some r1 -> Renderer.GetMaterial r1 = Some m1 ->
     Renderer.GetRenderable e2 = Some r2 -> Renderer.GetMaterial r2 = Some m2 ->
     Renderer.GetAabb_GetCenter r1 = Renderer.GetAabb_GetCenter r2 ->
     Renderer.render_hash camera e1 = Renderer.render_hash camera e2) /\
  (Renderer.RenderablesAcquire
     [Some (camera_entity origin);
      Some (opaque_entity (on_x_axis 10) 1);
      Some (opaque_entity (on_x_axis 1) 1)]).1 Renderer.Renderer_Object_Opaque
  = [opaque_entity (on_x_axis 10) 1; opaque_entity (on_x_axis 1) 1] /\
  (@Renderer.RenderablesAcquire insertion_StdSort
     [Some (camera_entity origin);
      Some (opaque_entity (on_x_axis 5) 3);
      Some (opaque_entity (on_x_axis 5) 2);
      Some (opaque_entity (on_x_axis 5) 1)]).1 Renderer.Renderer_Object_Opaque
  = [opaque_entity (on_x_axis 5) 3; opaque_entity (on_x_axis 5) 2;
     opaque_entity (on_x_axis 5) 1].
Proof.
  split; [|split].
  - intros camera e1 e2 r1 r2 m1 m2 Hr1 Hm1 Hr2 Hm2 Hcentre.
    rewrite (render_hash_of_depth camera e1 r1 m1), (render_hash_of_depth camera e2 r2 m2)
      by done.
    by rewrite Hcentre.
  - reflexivity.
  - vm_compute. reflexivity.
Qed.

(** With three or more entities at different distances the vector does come
    out front to back. *)
Example RenderablesSort_three_by_depth :
  (@Renderer.RenderablesAcquire insertion_StdSort
     [Some (opaque_entity (on_x_axis 10) 1);
      Some (opaque_entity (on_x_axis 1) 2);
      Some (camera_entity origin);
      Some (opaque_entity (on_x_axis 5) 3)]).1 Renderer.Renderer_Object_Opaque
  = [opaque_entity (on_x_axis 1) 2; opaque_entity (on_x_axis 5) 3;
     opaque_entity (on_x_axis 10) 1].
Proof. vm_compute. reflexivity. Qed.

Lemma digit_value_pretty_N_char n :
  (n < 10)%N -> Renderer.digit_value (pretty_N_char n) = Z.of_N n.
Proof.
  intros Hn. destruct n as [|p]; [reflexivity|].
  do 4 (try destruct p as [p|p|]); try reflexivity; lia.
Qed.

Lemma digits_value_pretty_N_go n s :
  digits_value (pretty_N_go n s) 0 = digits_value s (Z.of_N n).
Proof.
  revert s. induction (N.lt_wf_0 n) as [n _ IH]; intros s.
  destruct (decide (n = 0)%N) as [->|Hn]; [by rewrite pretty_N_go_0|].
  rewrite pretty_N_go_step, IH by (try apply N.div_lt; lia).
  cbn [digits_value].
  rewrite digit_value_pretty_N_char by (apply N.mod_lt; lia).
  f_equal. rewrite N2Z.inj_div, N2Z.inj_mod. change (Z.of_N 10) with 10.
  pose proof (Z.div_mod (Z.of_N n) 10 ltac:(lia)). lia.
Qed.

Lemma digits_value_pretty d : 0 <= d -> digits_value (pretty d) 0 = d.
Proof.
  intros Hd. destruct d as [|p|p]; [done| |lia].
  unfold pretty, pretty_Z, pretty, pretty_positive, pretty, pretty_N.
  case_decide; [done|]. by rewrite digits_value_pretty_N_go.
Qed.

Lemma render_hash_is_depth camera entity :
  Qeq (Renderer.render_hash camera entity) (inject_Z (sort_depth camera entity)).
Proof.
  unfold sort_depth.
  destruct (Renderer.GetRenderable entity) as [renderable|] eqn:Hr;
    [|by unfold Renderer.render_hash; rewrite Hr].
  destruct (Renderer.GetMaterial renderable) as [material|] eqn:Hm;
    [|by unfold Renderer.render_hash; rewrite Hr, Hm].
  rewrite (render_hash_of_depth camera entity renderable material Hr Hm).
  rewrite digits_value_pretty by apply LengthSquared_nonneg.
  unfold Qeq, inject_Z. cbn [Qnum Qden digits_value].
  change (Renderer.digit_value "0") with 0.
  change (Z.pos (Z.to_pos (10 ^ 6))) with 1000000. lia.
Qed.

Lemma render_hash_less_depth camera a b :
  Renderer.render_hash_less camera a b = (sort_depth camera a <? sort_depth camera b).
Proof.
  unfold Renderer.render_hash_less.
  destruct (Z.ltb_spec (sort_depth camera a) (sort_depth camera b)) as [Hlt|Hge].
  - apply negb_true_iff, not_true_iff_false. rewrite Qle_bool_iff.
    rewrite !render_hash_is_depth, <- Zle_Qle. lia.
  - apply negb_false_iff. rewrite Qle_bool_iff.
    rewrite !render_hash_is_depth, <- Zle_Qle. lia.
Qed.

Lemma render_hash_less_swo camera : StrictWeakOrder (Renderer.render_hash_less camera).
Proof.
  split; intros *; rewrite !render_hash_less_depth.
  - apply Z.ltb_irrefl.
  - rewrite !Z.ltb_lt. lia.
  - rewrite !Z.ltb_ge. lia.
Qed.

(** What [RenderablesSort] does achieve: with a camera, a vector of three
    or more entities comes out as a permutation of itself in which the
    depth never decreases. *)
Lemma RenderablesSort_front_to_back `{StdSort} camera renderables :
  (2 < length renderables)%nat ->
  Renderer.RenderablesSort (Some camera) renderables ≡ₚ renderables /\
  StronglySorted (fun a b => sort_depth camera a <= sort_depth camera b)
    (Renderer.RenderablesSort (Some camera) renderables).
Proof.
  intros Hlen. unfold Renderer.RenderablesSort.
  destruct (Nat.leb_spec (length renderables) 2) as [|_]; [lia|].
  split; [apply std_sort_perm, render_hash_less_swo|].
  eapply StronglySorted_weaken; [|apply std_sort_sorted, render_hash_less_swo].
  intros a b. unfold not_after. rewrite render_hash_less_depth, Z.ltb_ge. lia.
Qed.

(** ** Renderer: the depth passes *)


Section SkippedPasses.
Context `{Renderer.Backend}.



End SkippedPasses.

(** ** Renderer: the post-process chain *)

Lemma swap_pair_twice n pair : Nat.iter (2 * n) swap_pair pair = pair.
Proof.
  induction n as [|n IH]; [done|].
  replace (2 * S n)%nat with (S (S (2 * n))) by lia.
  cbn [Nat.iter nat_rect]. fold (Nat.iter (2 * n) swap_pair pair). rewrite IH.
  by destruct pair.
Qed.

Lemma begun_passes_app l1 l2 :
  begun_passes (l1 ++ l2) = begun_passes l1 ++ begun_passes l2.
Proof. apply omap_app. Qed.

Lemma exec_app l1 l2 g : exec (l1 ++ l2) g = exec l2 (exec l1 g).
Proof. apply fold_left_app. Qed.

Section PassNames.
Context `{Renderer.Backend}.

Lemma sublist_one (name : string) (l : list string) :
  l = [] \/ l = [name] -> sublist l [name].
Proof. intros [-> | ->]; [apply sublist_nil_l|done]. Qed.

(** A pass made of one [Begin] block begins that pass or nothing. *)
Lemma begun_passes_begun pipeline_state body :
  begun_passes body = [] ->
  begun_passes (Renderer.begun pipeline_state body) = [] \/
  begun_passes (Renderer.begun pipeline_state body) = [Renderer.pass_name pipeline_state].
Proof.
  intros Hbody. unfold Renderer.begun.
  destruct (Renderer.Begin_succeeds pipeline_state); [right|by left].
  change (begun_passes (Renderer.Cmd_Begin pipeline_state :: body))
    with (Renderer.pass_name pipeline_state :: begun_passes body).
  by rewrite Hbody.
Qed.

Lemma Pass_Copy_names tex_in tex_out r :
  sublist (begun_passes (Renderer.Pass_Copy tex_in tex_out r)) ["Pass_Copy"].
Proof.
  unfold Renderer.Pass_Copy. destruct (_ || _); [apply sublist_nil_l|].
  by apply sublist_one, begun_passes_begun.
Qed.

Lemma Pass_TAA_names tex_in tex_out r :
  sublist (begun_passes (Renderer.Pass_TAA tex_in tex_out r)) ["Pass_TAA"; "Pass_Copy"].
Proof.
  unfold Renderer.Pass_TAA. destruct (_ || _); [apply sublist_nil_l|].
  rewrite begun_passes_app. apply (sublist_app _ ["Pass_TAA"] _ ["Pass_Copy"]).
  - by apply sublist_one, begun_passes_begun.
  - apply Pass_Copy_names.
Qed.

Lemma Pass_MotionBlur_names tex_in tex_out r :
  sublist (begun_passes (Renderer.Pass_MotionBlur tex_in tex_out r)) ["Pass_MotionBlur"].
Proof.
  unfold Renderer.Pass_MotionBlur. destruct (negb _); [apply sublist_nil_l|].
  by apply sublist_one, begun_passes_begun.
Qed.

Lemma Pass_Downsample_names tex_in tex_out pixel_shader r :
  sublist (begun_passes (Renderer.Pass_Downsample tex_in tex_out pixel_shader r))
    ["Pass_Downsample"].
Proof.
  unfold Renderer.Pass_Downsample. destruct (_ || _); [apply sublist_nil_l|].
  by apply sublist_one, begun_passes_begun.
Qed.

Lemma bloom_upsample_names tex_in tex_out :
  sublist (begun_passes (Renderer.bloom_upsample tex_in tex_out)) ["Pass_Bloom_Upsample"].
Proof. by apply sublist_one, begun_passes_begun. Qed.

Lemma flat_map_names {A : Type} (pass : A -> list Renderer.command) (name : string)
    (steps : list A) :
  (forall step, sublist (begun_passes (pass step)) [name]) ->
  sublist (begun_passes (flat_map pass steps)) (replicate (length steps) name).
Proof.
  intros Hpass. induction steps as [|step steps IH]; [done|].
  cbn [flat_map length replicate]. rewrite begun_passes_app.
  by apply (sublist_app _ [name]).
Qed.

Lemma Pass_Bloom_names tex_in tex_out r :
  let levels := (length (Renderer.m_render_tex_bloom r) - 1)%nat in
  sublist (begun_passes (Renderer.Pass_Bloom tex_in tex_out r))
    (["Pass_Bloom_Luminance"] ++ replicate levels "Pass_Downsample" ++
     replicate levels "Pass_Bloom_Upsample" ++ ["Pass_Bloom_Additive_Blending"]).
Proof.
  intros levels. unfold Renderer.Pass_Bloom.
  destruct (_ || _); [apply sublist_nil_l|].
  assert (Hsteps : length (Renderer.bloom_steps (Renderer.m_render_tex_bloom r)) = levels).
  { unfold Renderer.bloom_steps. rewrite length_zip_with. subst levels.
    destruct (Renderer.m_render_tex_bloom r); cbn [tail length]; lia. }
  rewrite !begun_passes_app. repeat apply sublist_app.
  - by apply sublist_one, begun_passes_begun.
  - rewrite <- Hsteps. apply flat_map_names. intros step. apply Pass_Downsample_names.
  - rewrite <- Hsteps, <- length_rev. apply flat_map_names. intros step.
    apply bloom_upsample_names.
  - by apply sublist_one, begun_passes_begun.
Qed.

Lemma Pass_ToneMapping_names tex_in tex_out r :
  sublist (begun_passes (Renderer.Pass_ToneMapping tex_in tex_out r)) ["Pass_ToneMapping"].
Proof.
  unfold Renderer.Pass_ToneMapping. destruct (_ || _); [apply sublist_nil_l|].
  by apply sublist_one, begun_passes_begun.
Qed.

Lemma Pass_GammaCorrection_names tex_in tex_out r :
  sublist (begun_passes (Renderer.Pass_GammaCorrection tex_in tex_out r))
    ["Pass_GammaCorrection"].
Proof.
  unfold Renderer.Pass_GammaCorrection. destruct (_ || _); [apply sublist_nil_l|].
  by apply sublist_one, begun_passes_begun.
Qed.

Lemma Pass_FXAA_names tex_in tex_out r :
  sublist (begun_passes (Renderer.Pass_FXAA tex_in tex_out r).1)
    ["Pass_FXAA_Luminance"; "Pass_FXAA_FXAA"].
Proof.
  unfold Renderer.Pass_FXAA. destruct (_ || _); [apply sublist_nil_l|].
  cbn [fst]. rewrite begun_passes_app.
  apply (sublist_app _ ["Pass_FXAA_Luminance"] _ ["Pass_FXAA_FXAA"]);
    by apply sublist_one, begun_passes_begun.
Qed.

Lemma Pass_ChromaticAberration_names tex_in tex_out r :
  sublist (begun_passes (Renderer.Pass_ChromaticAberration tex_in tex_out r))
    ["Pass_ChromaticAberration"].
Proof.
  unfold Renderer.Pass_ChromaticAberration. destruct (negb _); [apply sublist_nil_l|].
  by apply sublist_one, begun_passes_begun.
Qed.

Lemma Pass_Dithering_names tex_in tex_out r :
  sublist (begun_passes (Renderer.Pass_Dithering tex_in tex_out r)) ["Pass_Dithering"].
Proof.
  unfold Renderer.Pass_Dithering. destruct (_ || _); [apply sublist_nil_l|].
  by apply sublist_one, begun_passes_begun.
Qed.

Lemma Pass_LumaSharpen_names tex_in tex_out r :
  sublist (begun_passes (Renderer.Pass_LumaSharpen tex_in tex_out r)) ["Pass_LumaSharpen"].
Proof.
  unfold Renderer.Pass_LumaSharpen. destruct (_ || _); [apply sublist_nil_l|].
  by apply sublist_one, begun_passes_begun.
Qed.

Lemma optional_stage_names enabled pass r pair commands pair' (names : list string) :
  Renderer.optional_stage enabled pass r pair = (commands, pair') ->
  (forall tex_in tex_out, sublist (begun_passes (pass tex_in tex_out r)) names) ->
  sublist (begun_passes commands) (if enabled then names else []).
Proof.
  unfold Renderer.optional_stage. intros Hstage Hpass.
  destruct enabled; injection Hstage as <- _; [apply Hpass|done].
Qed.

(** Whatever is compiled and whatever [Begin] answers, the passes the chain
    begins are among the passes of its stages, in their order. *)
Lemma Pass_PostProcess_names r :
  sublist (begun_passes (Renderer.Pass_PostProcess r).1) (chain_passes r).
Proof.
  unfold Renderer.Pass_PostProcess, chain_passes.
  destruct (Renderer.optional_stage _ Renderer.Pass_TAA r _) as [taa hdr_1] eqn:Etaa.
  destruct (Renderer.optional_stage _ Renderer.Pass_MotionBlur r _) as [mb hdr_2] eqn:Emb.
  destruct (Renderer.optional_stage _ Renderer.Pass_Bloom r _) as [bloom hdr_3] eqn:Ebloom.
  destruct (Renderer.optional_stage _ Renderer.Pass_Dithering r _)
    as [dither ldr_1] eqn:Edither.
  destruct (if Renderer.GetOption Renderer.Render_AntiAliasing_Fxaa r then _ else _)
    as [fxaa ldr_2] eqn:Efxaa.
  destruct (Renderer.optional_stage _ Renderer.Pass_LumaSharpen r _)
    as [sharpen ldr_3] eqn:Esharpen.
  destruct (Renderer.optional_stage _ Renderer.Pass_ChromaticAberration r _)
    as [ca ldr_4] eqn:Eca.
  cbn [fst]. rewrite !begun_passes_app.
  apply sublist_app; [eapply optional_stage_names; [exact Etaa|intros; apply Pass_TAA_names]|].
  apply sublist_app;
    [eapply optional_stage_names; [exact Emb|intros; apply Pass_MotionBlur_names]|].
  apply sublist_app;
    [eapply optional_stage_names; [exact Ebloom|intros; apply Pass_Bloom_names]|].
  apply sublist_app.
  { destruct (negb _); [apply Pass_ToneMapping_names|intros; apply Pass_Copy_names]. }
  apply sublist_app;
    [eapply optional_stage_names; [exact Edither|intros; apply Pass_Dithering_names]|].
  apply sublist_app.
  { destruct (Renderer.GetOption Renderer.Render_AntiAliasing_Fxaa r).
    - pose proof (Pass_FXAA_names ldr_1.1 ldr_1.2 r) as Hnames.
      destruct (Renderer.Pass_FXAA ldr_1.1 ldr_1.2 r) as [commands [tex_in tex_out]].
      by injection Efxaa as <- _.
    - by injection Efxaa as <- _. }
  apply sublist_app;
    [eapply optional_stage_names; [exact Esharpen|intros; apply Pass_LumaSharpen_names]|].
  apply sublist_app;
    [eapply optional_stage_names; [exact Eca|intros; apply Pass_ChromaticAberration_names]|].
  apply Pass_GammaCorrection_names.
Qed.

End PassNames.

Section PostProcess.
Context `{Renderer.Backend}.
Variable r : Renderer.Renderer.
Hypothesis all_compiled : forall s, Renderer.IsCompiled r s = true.
Hypothesis begin_ok : forall pso, Renderer.Begin_succeeds pso = true.

Lemma exec_Pass_Downsample a b pixel g :
  contents (exec (Renderer.Pass_Downsample a b pixel r) g)
  = write (contents g) b (Image_Shaded "Pass_Downsample" [contents g a]).
Proof.
  unfold Renderer.Pass_Downsample, Renderer.begun.
  rewrite !all_compiled, begin_ok. reflexivity.
Qed.

Lemma exec_bloom_upsample a b g :
  contents (exec (Renderer.bloom_upsample a b) g)
  = write (contents g) b (Image_Shaded "Pass_Bloom_Upsample" [contents g a]).
Proof. unfold Renderer.bloom_upsample, Renderer.begun. rewrite begin_ok. reflexivity. Qed.

Lemma exec_downsample_chain pixel rest : forall b g,
  NoDup (b :: rest) ->
  let g' := exec (flat_map (fun step => Renderer.Pass_Downsample step.1 step.2 pixel r)
                    (zip (b :: rest) rest)) g in
  contents g' (deepest b rest)
  = Nat.iter (length rest) (fun i => Image_Shaded "Pass_Downsample" [i]) (contents g b) /\
  (forall t, t ∉ rest -> contents g' t = contents g t).
Proof.
  induction rest as [|b1 rest IH]; intros b g Hnd; [done|].
  apply NoDup_cons in Hnd as [Hb Hnd].
  change (zip (b :: b1 :: rest) (b1 :: rest)) with ((b, b1) :: zip (b1 :: rest) rest).
  cbn [flat_map fst snd]. rewrite exec_app.
  destruct (IH b1 (exec (Renderer.Pass_Downsample b b1 pixel r) g) Hnd) as [Hdeep Hframe].
  cbn zeta in Hdeep, Hframe. cbn zeta. split.
  - cbn [deepest length]. rewrite Hdeep, exec_Pass_Downsample. unfold write at 1.
    rewrite decide_True by done. by rewrite Nat.iter_succ_r.
  - intros t Ht. apply not_elem_of_cons in Ht as [Hne Ht].
    rewrite Hframe, exec_Pass_Downsample by done. unfold write.
    by rewrite decide_False.
Qed.

Lemma exec_upsample_chain rest : forall b g,
  NoDup (b :: rest) ->
  let g' := exec (flat_map (fun step => Renderer.bloom_upsample step.2 step.1)
                    (rev (zip (b :: rest) rest))) g in
  contents g' b
  = Nat.iter (length rest) (fun i => Image_Shaded "Pass_Bloom_Upsample" [i])
      (contents g (deepest b rest)) /\
  (forall t, t ∉ b :: rest -> contents g' t = contents g t).
Proof.
  induction rest as [|b1 rest IH]; intros b g Hnd; [done|].
  apply NoDup_cons in Hnd as [Hb Hnd].
  change (zip (b :: b1 :: rest) (b1 :: rest)) with ((b, b1) :: zip (b1 :: rest) rest).
  cbn [rev]. rewrite flat_map_app, exec_app.
  destruct (IH b1 g Hnd) as [Htop Hframe]. cbn zeta in Htop, Hframe. cbn zeta.
  cbn [flat_map fst snd]. rewrite app_nil_r. split.
  - rewrite exec_bloom_upsample. unfold write. rewrite decide_True by done.
    cbn [length Nat.iter nat_rect deepest]. by rewrite Htop.
  - intros t Ht. apply not_elem_of_cons in Ht as [Hne Ht].
    rewrite exec_bloom_upsample. unfold write. rewrite decide_False by done.
    by apply Hframe.
Qed.

(** [Pass_Bloom] leaves in [tex_out] the blend of the image it found in
    [tex_in] with the bloom pyramid of that image. *)
Lemma exec_Pass_Bloom tex_in tex_out g :
  Renderer.m_render_tex_bloom r <> [] ->
  NoDup (Renderer.m_render_tex_bloom r) ->
  tex_in ∉ Renderer.m_render_tex_bloom r ->
  contents (exec (Renderer.Pass_Bloom tex_in tex_out r) g) tex_out
  = Image_Shaded "Pass_Bloom_Additive_Blending"
      [contents g tex_in;
       bloom_pyramid (length (Renderer.m_render_tex_bloom r)) (contents g tex_in)].
Proof.
  intros Hne Hnd Hin. unfold Renderer.Pass_Bloom, Renderer.bloom_steps.
  rewrite !all_compiled. cbn [negb orb].
  destruct (Renderer.m_render_tex_bloom r) as [|b0 rest]; [done|]. clear Hne.
  cbn [hd tail]. rewrite !exec_app.
  set (g1 := exec (Renderer.begun _ _) g).
  assert (Hg1 : contents g1
                = write (contents g) b0 (Image_Shaded "Pass_Bloom_Luminance" [contents g tex_in])).
  { subst g1. unfold Renderer.begun. rewrite begin_ok. reflexivity. }
  destruct (exec_downsample_chain Renderer.Shader_BloomDownsample_P rest b0 g1 Hnd)
    as [Hdown Hdown_frame].
  set (g2 := exec (flat_map _ (zip _ _)) g1) in *.
  destruct (exec_upsample_chain rest b0 g2 Hnd) as [Hup Hup_frame].
  set (g3 := exec (flat_map _ (rev _)) g2) in *.
  cbn zeta in Hdown, Hdown_frame, Hup, Hup_frame.
  apply not_elem_of_cons in Hin as Hin'. destruct Hin' as [Hin0 Hin_rest].
  assert (Hsame : contents g3 tex_in = contents g tex_in).
  { rewrite Hup_frame, Hdown_frame, Hg1 by done. unfold write. by rewrite decide_False. }
  unfold Renderer.begun. rewrite begin_ok.
  cbn [exec fold_left exec_command Renderer.bind_quad Renderer.draw_quad app
       bound_pipeline bound_textures contents Renderer.quad_state
       Renderer.render_target_color_texture Renderer.pass_name fmap list_fmap].
  unfold write at 1. rewrite decide_True by done.
  rewrite Hsame, Hup, Hdown, Hg1. unfold write at 1. rewrite decide_True by done.
  unfold bloom_pyramid. cbn [length].
  by replace (S (length rest) - 1)%nat with (length rest) by lia.
Qed.

Lemma begun_passes_chain (pass : Renderer.texture * Renderer.texture -> list Renderer.command)
  (name : string) (steps : list (Renderer.texture * Renderer.texture)) :
  (forall step, begun_passes (pass step) = [name]) ->
  begun_passes (flat_map pass steps) = replicate (length steps) name.
Proof.
  intros Hpass. induction steps as [|step steps IH]; [done|].
  cbn [flat_map length replicate]. by rewrite begun_passes_app, Hpass, IH.
Qed.

Lemma begun_passes_Pass_Bloom tex_in tex_out :
  begun_passes (Renderer.Pass_Bloom tex_in tex_out r)
  = ["Pass_Bloom_Luminance"] ++
    replicate (length (Renderer.m_render_tex_bloom r) - 1) "Pass_Downsample" ++
    replicate (length (Renderer.m_render_tex_bloom r) - 1) "Pass_Bloom_Upsample" ++
    ["Pass_Bloom_Additive_Blending"].
Proof.
  unfold Renderer.Pass_Bloom. rewrite !all_compiled. cbn [negb orb].
  rewrite !begun_passes_app.
  rewrite (begun_passes_chain _ "Pass_Downsample"),
          (begun_passes_chain _ "Pass_Bloom_Upsample").
  - unfold Renderer.begun. rewrite !begin_ok.
    rewrite length_rev. unfold Renderer.bloom_steps.
    rewrite length_zip_with.
    replace (length (Renderer.m_render_tex_bloom r)
               `min` length (tail (Renderer.m_render_tex_bloom r)))%nat
      with (length (Renderer.m_render_tex_bloom r) - 1)%nat; [done|].
    destruct (Renderer.m_render_tex_bloom r); cbn [tail length]; lia.
  - intros step. unfold Renderer.bloom_upsample, Renderer.begun. by rewrite begin_ok.
  - intros step. unfold Renderer.Pass_Downsample, Renderer.begun.
    by rewrite !all_compiled, begin_ok.
Qed.

Lemma ping_pong_of_start base : ping_pong_of base base.
Proof. by left. Qed.

Lemma ping_pong_of_swap base pair :
  ping_pong_of base pair -> ping_pong_of base (pair.2, pair.1).
Proof. intros [-> | ->]; [by right|left; by destruct base]. Qed.

Lemma ping_pong_of_distinct base pair :
  base.1 <> base.2 -> ping_pong_of base pair -> pair.1 <> pair.2.
Proof. intros Hne [-> | ->]; [done|by apply not_eq_sym]. Qed.

Lemma ping_pong_of_outside base pair (l : list Renderer.texture) :
  base.1 ∉ l -> base.2 ∉ l -> ping_pong_of base pair -> pair.1 ∉ l.
Proof. by intros H1 H2 [-> | ->]. Qed.

Lemma optional_stage_cases enabled pass pair commands pair' :
  Renderer.optional_stage enabled pass r pair = (commands, pair') ->
  (enabled = true /\ commands = pass pair.1 pair.2 r /\ pair' = (pair.2, pair.1)) \/
  (enabled = false /\ commands = [] /\ pair' = pair).
Proof.
  unfold Renderer.optional_stage. destruct enabled; intros [= <- <-]; [by left|by right].
Qed.

Lemma optional_stage_swaps enabled pass pair commands pair' :
  Renderer.optional_stage enabled pass r pair = (commands, pair') ->
  pair' = Nat.iter (Nat.b2n enabled) swap_pair pair.
Proof. by intros [(-> & _ & ->)|(-> & _ & ->)]%optional_stage_cases. Qed.

Lemma optional_stage_pair base enabled pass pair commands pair' :
  Renderer.optional_stage enabled pass r pair = (commands, pair') ->
  ping_pong_of base pair -> ping_pong_of base pair'.
Proof.
  intros [(_ & _ & ->)|(_ & _ & ->)]%optional_stage_cases Hpair; [|done].
  by apply ping_pong_of_swap.
Qed.

Ltac draw_once :=
  intros tex_in tex_out g;
  first [ progress unfold Renderer.Pass_ToneMapping
        | progress unfold Renderer.Pass_Copy
        | progress unfold Renderer.Pass_Dithering
        | progress unfold Renderer.Pass_LumaSharpen
        | progress unfold Renderer.Pass_ChromaticAberration
        | progress unfold Renderer.Pass_GammaCorrection ];
  unfold Renderer.begun; rewrite ?all_compiled, begin_ok; split; reflexivity.

Lemma Pass_ToneMapping_draws : draws_from_input r Renderer.Pass_ToneMapping "Pass_ToneMapping".
Proof. draw_once. Qed.

Lemma Pass_Copy_draws : draws_from_input r Renderer.Pass_Copy "Pass_Copy".
Proof. draw_once. Qed.

Lemma Pass_Dithering_draws : draws_from_input r Renderer.Pass_Dithering "Pass_Dithering".
Proof. draw_once. Qed.

Lemma Pass_LumaSharpen_draws : draws_from_input r Renderer.Pass_LumaSharpen "Pass_LumaSharpen".
Proof. draw_once. Qed.

Lemma Pass_ChromaticAberration_draws :
  draws_from_input r Renderer.Pass_ChromaticAberration "Pass_ChromaticAberration".
Proof. draw_once. Qed.

Lemma Pass_GammaCorrection_draws :
  draws_from_input r Renderer.Pass_GammaCorrection "Pass_GammaCorrection".
Proof. draw_once. Qed.

(** An optional stage that draws once: the image at the head of the pair
    afterwards, and the passes it begins. *)
Lemma optional_draw enabled pass name pair commands pair' g :
  draws_from_input r pass name ->
  Renderer.optional_stage enabled pass r pair = (commands, pair') ->
  contents (exec commands g) pair'.1
  = (if enabled then Image_Shaded name [contents g pair.1] else contents g pair.1) /\
  begun_passes commands = (if enabled then [name] else []).
Proof.
  intros Hdraw [(-> & -> & ->)|(-> & -> & ->)]%optional_stage_cases; [|done].
  destruct (Hdraw pair.1 pair.2 g) as [-> ->]. split; [|done].
  cbn [fst]. unfold write. by rewrite decide_True.
Qed.

Section Targets.
Variables hdr hdr2 ldr ldr2 history velocity depth : Renderer.texture.
Hypothesis targets_eq :
  Renderer.m_render_targets r =
  {| Renderer.RenderTarget_Composition_Hdr := hdr;
     Renderer.RenderTarget_Composition_Hdr_2 := hdr2;
     Renderer.RenderTarget_Composition_Ldr := ldr;
     Renderer.RenderTarget_Composition_Ldr_2 := ldr2;
     Renderer.RenderTarget_TaaHistory := history;
     Renderer.RenderTarget_Gbuffer_Velocity := velocity;
     Renderer.RenderTarget_Gbuffer_Depth := depth |}.

Lemma stage_TAA enabled pair commands pair' g :
  Renderer.optional_stage enabled Renderer.Pass_TAA r pair = (commands, pair') ->
  pair.1 <> pair.2 -> history <> pair.1 -> history <> pair.2 ->
  velocity <> pair.2 -> velocity <> history -> depth <> pair.2 -> depth <> history ->
  contents (exec commands g) pair'.1
  = (if enabled
     then Image_Shaded "Pass_TAA"
            [contents g history; contents g pair.1; contents g velocity; contents g depth]
     else contents g pair.1) /\
  contents (exec commands g) velocity = contents g velocity /\
  contents (exec commands g) depth = contents g depth /\
  begun_passes commands = (if enabled then ["Pass_TAA"; "Pass_Copy"] else []).
Proof.
  intros [(-> & -> & ->)|(-> & -> & ->)]%optional_stage_cases; [|done].
  intros Hpair Hh1 Hh2 Hv2 Hvh Hd2 Hdh.
  unfold Renderer.Pass_TAA, Renderer.Pass_Copy, Renderer.begun.
  rewrite !all_compiled, !begin_ok, targets_eq.
  cbn [negb orb exec fold_left exec_command app fst snd
       Renderer.bind_quad Renderer.draw_quad Renderer.quad_state
       Renderer.render_target_color_texture Renderer.pass_name
       Renderer.RenderTarget_TaaHistory Renderer.RenderTarget_Gbuffer_Velocity
       Renderer.RenderTarget_Gbuffer_Depth
       contents bound_pipeline bound_textures fmap list_fmap omap begun_passes].
  unfold write.
  rewrite (decide_False (P := pair.2 = history)) by (by apply not_eq_sym).
  rewrite (decide_True (P := pair.2 = pair.2)) by done.
  rewrite (decide_False (P := velocity = history)) by done.
  rewrite (decide_False (P := velocity = pair.2)) by done.
  rewrite (decide_False (P := depth = history)) by done.
  rewrite (decide_False (P := depth = pair.2)) by done.
  done.
Qed.

Lemma stage_MotionBlur enabled pair commands pair' g :
  Renderer.optional_stage enabled Renderer.Pass_MotionBlur r pair = (commands, pair') ->
  contents (exec commands g) pair'.1
  = (if enabled
     then Image_Shaded "Pass_MotionBlur"
            [contents g pair.1; contents g velocity; contents g depth]
     else contents g pair.1) /\
  begun_passes commands = (if enabled then ["Pass_MotionBlur"] else []).
Proof.
  intros [(-> & -> & ->)|(-> & -> & ->)]%optional_stage_cases; [|done].
  unfold Renderer.Pass_MotionBlur, Renderer.begun.
  rewrite !all_compiled, !begin_ok, targets_eq.
  cbn [negb orb exec fold_left exec_command app fst snd
       Renderer.bind_quad Renderer.draw_quad Renderer.quad_state
       Renderer.render_target_color_texture Renderer.pass_name
       Renderer.RenderTarget_Gbuffer_Velocity Renderer.RenderTarget_Gbuffer_Depth
       contents bound_pipeline bound_textures fmap list_fmap omap begun_passes].
  unfold write. by rewrite decide_True.
Qed.

Lemma stage_Bloom enabled pair commands pair' g :
  Renderer.optional_stage enabled Renderer.Pass_Bloom r pair = (commands, pair') ->
  Renderer.m_render_tex_bloom r <> [] ->
  NoDup (Renderer.m_render_tex_bloom r) ->
  pair.1 ∉ Renderer.m_render_tex_bloom r ->
  contents (exec commands g) pair'.1
  = (if enabled
     then Image_Shaded "Pass_Bloom_Additive_Blending"
            [contents g pair.1;
             bloom_pyramid (length (Renderer.m_render_tex_bloom r)) (contents g pair.1)]
     else contents g pair.1) /\
  begun_passes commands
  = (if enabled
     then ["Pass_Bloom_Luminance"] ++
          replicate (length (Renderer.m_render_tex_bloom r) - 1) "Pass_Downsample" ++
          replicate (length (Renderer.m_render_tex_bloom r) - 1) "Pass_Bloom_Upsample" ++
          ["Pass_Bloom_Additive_Blending"]
     else []).
Proof.
  intros [(-> & -> & ->)|(-> & -> & ->)]%optional_stage_cases; [|done].
  intros Hne Hnd Hin. split; [by apply exec_Pass_Bloom|apply begun_passes_Pass_Bloom].
Qed.

(** The FXAA stage of [Pass_PostProcess]: the pass swaps its references
    and the caller swaps them back, so the pair stays as it was and its head
    holds the result. *)
Lemma stage_FXAA (enabled : bool) (pair pair' : Renderer.texture * Renderer.texture)
  (commands : list Renderer.command) g :
  (if enabled
   then let '(c, (tex_in, tex_out)) := Renderer.Pass_FXAA pair.1 pair.2 r in
        (c, (tex_out, tex_in))
   else ([], pair)) = (commands, pair') ->
  pair.1 <> pair.2 ->
  pair' = pair /\
  contents (exec commands g) pair'.1
  = (if enabled
     then Image_Shaded "Pass_FXAA_FXAA" [Image_Shaded "Pass_FXAA_Luminance" [contents g pair.1]]
     else contents g pair.1) /\
  begun_passes commands = (if enabled then ["Pass_FXAA_Luminance"; "Pass_FXAA_FXAA"] else []).
Proof.
  destruct enabled; [|by intros [= <- <-]].
  unfold Renderer.Pass_FXAA, Renderer.begun. rewrite !all_compiled, !begin_ok.
  cbn [negb orb]. intros [= <- <-] Hpair. split; [by destruct pair|].
  cbn [negb orb exec fold_left exec_command app fst snd
       Renderer.bind_quad Renderer.draw_quad Renderer.quad_state
       Renderer.render_target_color_texture Renderer.pass_name
       contents bound_pipeline bound_textures fmap list_fmap omap begun_passes].
  unfold write.
  rewrite (decide_True (P := pair.1 = pair.1)) by done.
  rewrite (decide_True (P := pair.2 = pair.2)) by done.
  done.
Qed.

Hypothesis targets_distinct : NoDup [hdr; hdr2; ldr; ldr2; history; velocity; depth].
Hypothesis bloom_distinct : NoDup (Renderer.m_render_tex_bloom r).
Hypothesis bloom_filled : Renderer.m_render_tex_bloom r <> [].
Hypothesis hdr_no_bloom : hdr ∉ Renderer.m_render_tex_bloom r.
Hypothesis hdr2_no_bloom : hdr2 ∉ Renderer.m_render_tex_bloom r.

(** The chain with every shader compiled and [Begin] succeeding: the
    passes begun, the image in the LDR composition target, and where the two
    pairs of references point at the end. *)
Lemma Pass_PostProcess_chain_compiled g :
  let run := Renderer.Pass_PostProcess r in
  begun_passes run.1 = chain_passes r /\
  contents (exec run.1 g) (Renderer.RenderTarget_Composition_Ldr run.2)
  = post_process_image r (contents g) /\
  (Renderer.RenderTarget_Composition_Hdr run.2, Renderer.RenderTarget_Composition_Hdr_2 run.2)
  = Nat.iter (hdr_swaps r) swap_pair (hdr, hdr2) /\
  (Renderer.RenderTarget_Composition_Ldr run.2, Renderer.RenderTarget_Composition_Ldr_2 run.2)
  = Nat.iter (ldr_swaps r) swap_pair (ldr, ldr2).
Proof.
  cbn zeta.
  pose proof targets_distinct as Hnd.
  repeat match goal with
         | Hnd : NoDup (_ :: _) |- _ => apply NoDup_cons in Hnd as [? Hnd]
         end;
  repeat match goal with
         | Hni : _ ∉ _ :: _ |- _ => apply not_elem_of_cons in Hni as [? Hni]
         end.
  unfold Renderer.Pass_PostProcess, post_process_image, chain_passes, hdr_swaps, ldr_swaps.
  rewrite targets_eq.
  cbn [Renderer.RenderTarget_Composition_Hdr Renderer.RenderTarget_Composition_Hdr_2
       Renderer.RenderTarget_Composition_Ldr Renderer.RenderTarget_Composition_Ldr_2
       Renderer.RenderTarget_TaaHistory Renderer.RenderTarget_Gbuffer_Velocity
       Renderer.RenderTarget_Gbuffer_Depth].
  destruct (Renderer.optional_stage _ Renderer.Pass_TAA r _) as [taa hdr_1] eqn:Etaa.
  destruct (Renderer.optional_stage _ Renderer.Pass_MotionBlur r _) as [mb hdr_2] eqn:Emb.
  destruct (Renderer.optional_stage _ Renderer.Pass_Bloom r _) as [bloom hdr_3] eqn:Ebloom.
  destruct (Renderer.optional_stage _ Renderer.Pass_Dithering r _) as [dither ldr_1] eqn:Edither.
  destruct (if Renderer.GetOption Renderer.Render_AntiAliasing_Fxaa r then _ else _)
    as [fxaa ldr_2] eqn:Efxaa.
  destruct (Renderer.optional_stage _ Renderer.Pass_LumaSharpen r _) as [sharpen ldr_3] eqn:Esharpen.
  destruct (Renderer.optional_stage _ Renderer.Pass_ChromaticAberration r _)
    as [ca ldr_4] eqn:Eca.
  cbn [fst snd Renderer.RenderTarget_Composition_Ldr].
  (* where the references point after each stage *)
  assert (Hp1 : ping_pong_of (hdr, hdr2) hdr_1)
    by (eapply optional_stage_pair; [exact Etaa|apply ping_pong_of_start]).
  assert (Hp2 : ping_pong_of (hdr, hdr2) hdr_2) by (eapply optional_stage_pair; eauto).
  assert (Hq1 : ping_pong_of (ldr, ldr2) ldr_1)
    by (eapply optional_stage_pair; [exact Edither|apply ping_pong_of_start]).
  assert (Hd1 : ldr_1.1 <> ldr_1.2) by (by apply (ping_pong_of_distinct (ldr, ldr2))).
  (* the HDR stages *)
  destruct (stage_TAA _ _ _ _ g Etaa) as (Htaa & Hvel & Hdep & Ntaa); try done;
    try (by apply not_eq_sym).
  destruct (stage_MotionBlur _ _ _ _ (exec taa g) Emb) as (Hmb & Nmb).
  destruct (stage_Bloom _ _ _ _ (exec mb (exec taa g)) Ebloom) as (Hbloom & Nbloom);
    try done.
  { by apply (ping_pong_of_outside (hdr, hdr2)). }
  (* the LDR stages *)
  set (tone := if negb (Qeq_bool (Renderer.Option_Value_Tonemapping r) 0)
               then Renderer.Pass_ToneMapping hdr_3.1 ldr r
               else Renderer.Pass_Copy hdr_3.1 ldr r).
  set (g_hdr := exec bloom (exec mb (exec taa g))) in *.
  assert (Htone : contents (exec tone g_hdr) ldr
                  = (if negb (Qeq_bool (Renderer.Option_Value_Tonemapping r) 0)
                     then Image_Shaded "Pass_ToneMapping" [contents g_hdr hdr_3.1]
                     else Image_Shaded "Pass_Copy" [contents g_hdr hdr_3.1]) /\
                  begun_passes tone
                  = [if negb (Qeq_bool (Renderer.Option_Value_Tonemapping r) 0)
                     then "Pass_ToneMapping" else "Pass_Copy"]).
  { subst tone. destruct (negb _).
    - destruct (Pass_ToneMapping_draws hdr_3.1 ldr g_hdr) as [-> ->].
      unfold write. by rewrite decide_True.
    - destruct (Pass_Copy_draws hdr_3.1 ldr g_hdr) as [-> ->].
      unfold write. by rewrite decide_True. }
  destruct Htone as [Htone Ntone].
  destruct (optional_draw _ _ _ _ _ _ (exec tone g_hdr) Pass_Dithering_draws Edither)
    as (Hdither & Ndither).
  destruct (stage_FXAA _ _ _ _ (exec dither (exec tone g_hdr)) Efxaa Hd1)
    as (-> & Hfxaa & Nfxaa).
  destruct (optional_draw _ _ _ _ _ _ (exec fxaa (exec dither (exec tone g_hdr)))
              Pass_LumaSharpen_draws Esharpen) as (Hsharpen & Nsharpen).
  destruct (optional_draw _ _ _ _ _ _
              (exec sharpen (exec fxaa (exec dither (exec tone g_hdr))))
              Pass_ChromaticAberration_draws Eca) as (Hca & Nca).
  split; [|split; [|split]].
  - rewrite !begun_passes_app. fold tone.
    destruct (Pass_GammaCorrection_draws ldr_4.1 ldr_4.2 g) as [_ ->].
    by rewrite Ntaa, Nmb, Nbloom, Ntone, Ndither, Nfxaa, Nsharpen, Nca.
  - rewrite !exec_app. fold g_hdr. fold tone.
    destruct (Pass_GammaCorrection_draws ldr_4.1 ldr_4.2
                (exec ca (exec sharpen (exec fxaa (exec dither (exec tone g_hdr))))))
      as [-> _].
    unfold write. rewrite decide_True by done.
    rewrite Hca, Hsharpen, Hfxaa, Hdither. cbn [fst]. rewrite Htone.
    subst g_hdr. rewrite Hbloom, Hmb, Htaa, Hvel, Hdep. cbn [fst]. reflexivity.
  - cbn [Renderer.RenderTarget_Composition_Hdr Renderer.RenderTarget_Composition_Hdr_2].
    rewrite <- surjective_pairing.
    rewrite (optional_stage_swaps _ _ _ _ _ Ebloom), (optional_stage_swaps _ _ _ _ _ Emb),
      (optional_stage_swaps _ _ _ _ _ Etaa).
    rewrite <- !Nat.iter_add. f_equal. lia.
  - cbn [Renderer.RenderTarget_Composition_Ldr Renderer.RenderTarget_Composition_Ldr_2].
    change (ldr_4.2, ldr_4.1) with (Nat.iter 1 swap_pair ldr_4).
    rewrite (optional_stage_swaps _ _ _ _ _ Eca), (optional_stage_swaps _ _ _ _ _ Esharpen).
    rewrite <- (swap_pair_twice
                  (Nat.b2n (Renderer.GetOption Renderer.Render_AntiAliasing_Fxaa r)) ldr_1).
    rewrite (optional_stage_swaps _ _ _ _ _ Edither).
    rewrite <- !Nat.iter_add. f_equal. lia.
Qed.

End Targets.

End PostProcess.

(** C8, amended. Whatever the state of the shaders, the passes
    [Pass_PostProcess] begins are among the passes of the stages TAA, motion
    blur, bloom, tone-mapping or copy, dithering, FXAA, sharpen, chromatic
    aberration and gamma correction, in that order, where TAA, motion blur,
    bloom, dithering, FXAA, sharpen and chromatic aberration are counted
    only when their option bit is set, tone-mapping when the tone-mapping
    option value is not zero and a plain copy in its place otherwise, and
    gamma correction always. With every shader compiled, [Begin] succeeding,
    the seven render targets distinct and the bloom chain non-empty, free of
    repeats and apart from the two HDR targets, exactly these passes run.
    Each stage then works on the image the stage before it left, so the LDR
    composition target ends up holding the stages applied in that order to
    the HDR composition; and each pair is swapped once per enabled stage on
    it, FXAA swapping twice, and the LDR pair once more after gamma
    correction, while tone-mapping swaps nothing. *)
Theorem Pass_PostProcess_chain `{Renderer.Backend} (r : Renderer.Renderer) (g : gpu) :
  let run := Renderer.Pass_PostProcess r in
  let targets := Renderer.m_render_targets r in
  let hdr := Renderer.RenderTarget_Composition_Hdr targets in
  let hdr2 := Renderer.RenderTarget_Composition_Hdr_2 targets in
  let ldr := Renderer.RenderTarget_Composition_Ldr targets in
  let ldr2 := Renderer.RenderTarget_Composition_Ldr_2 targets in
  sublist (begun_passes run.1) (chain_passes r) /\
  ((forall shader, Renderer.IsCompiled r shader = true) ->
   (forall pipeline_state, Renderer.Begin_succeeds pipeline_state = true) ->
   NoDup [hdr; hdr2; ldr; ldr2; Renderer.RenderTarget_TaaHistory targets;
          Renderer.RenderTarget_Gbuffer_Velocity targets;
          Renderer.RenderTarget_Gbuffer_Depth targets] ->
   NoDup (Renderer.m_render_tex_bloom r) ->
   Renderer.m_render_tex_bloom r <> [] ->
   hdr ∉ Renderer.m_render_tex_bloom r ->
   hdr2 ∉ Renderer.m_render_tex_bloom r ->
   begun_passes run.1 = chain_passes r /\
   contents (exec run.1 g) (Renderer.RenderTarget_Composition_Ldr run.2)
   = post_process_image r (contents g) /\
   (Renderer.RenderTarget_Composition_Hdr run.2, Renderer.RenderTarget_Composition_Hdr_2 run.2)
   = Nat.iter (hdr_swaps r) swap_pair (hdr, hdr2) /\
   (Renderer.RenderTarget_Composition_Ldr run.2, Renderer.RenderTarget_Composition_Ldr_2 run.2)
   = Nat.iter (ldr_swaps r) swap_pair (ldr, ldr2)).
Proof.
  intros run targets hdr hdr2 ldr ldr2. split; [apply Pass_PostProcess_names|].
  intros Hcompiled Hbegin Htargets Hbloom Hfilled Hhdr Hhdr2.
  apply (Pass_PostProcess_chain_compiled r Hcompiled Hbegin hdr hdr2 ldr ldr2
           (Renderer.RenderTarget_TaaHistory targets)
           (Renderer.RenderTarget_Gbuffer_Velocity targets)
           (Renderer.RenderTarget_Gbuffer_Depth targets));
    try done.
  subst hdr hdr2 ldr ldr2 targets. by destruct (Renderer.m_render_targets r).
Qed.

(** C8, as stated, fails: with no option bit set the chain still runs
    tone-mapping and gamma correction; with every option bit set and the
    tone-mapping value zero, a copy runs where tone-mapping would. *)
Lemma Pass_PostProcess_runs_without_option_bits :
  Renderer.m_options (empty_scene 0 1) = 0 /\
  begun_passes (@Renderer.Pass_PostProcess example_backend (empty_scene 0 1)).1
  = ["Pass_ToneMapping"; "Pass_GammaCorrection"] /\
  begun_passes (@Renderer.Pass_PostProcess example_backend (empty_scene 0 0)).1
  = ["Pass_Copy"; "Pass_GammaCorrection"] /\
  begun_passes (@Renderer.Pass_PostProcess example_backend (empty_scene 255 0)).1
  = ["Pass_TAA"; "Pass_Copy"; "Pass_MotionBlur";
     "Pass_Bloom_Luminance"; "Pass_Downsample"; "Pass_Downsample";
     "Pass_Bloom_Upsample"; "Pass_Bloom_Upsample"; "Pass_Bloom_Additive_Blending";
     "Pass_Copy"; "Pass_Dithering"; "Pass_FXAA_Luminance"; "Pass_FXAA_FXAA";
     "Pass_LumaSharpen"; "Pass_ChromaticAberration"; "Pass_GammaCorrection"].
Proof. split; [reflexivity|]. split; [reflexivity|]. split; reflexivity. Qed.

(** TAA, bloom and FXAA enabled, tone-mapping on. *)
Lemma Pass_PostProcess_chain_witness :
  let r := empty_scene 42 1 in
  let run := @Renderer.Pass_PostProcess example_backend r in
  begun_passes run.1
  = ["Pass_TAA"; "Pass_Copy";
     "Pass_Bloom_Luminance"; "Pass_Downsample"; "Pass_Downsample";
     "Pass_Bloom_Upsample"; "Pass_Bloom_Upsample"; "Pass_Bloom_Additive_Blending";
     "Pass_ToneMapping"; "Pass_FXAA_Luminance"; "Pass_FXAA_FXAA"; "Pass_GammaCorrection"] /\
  contents (exec run.1 gpu_before) (Renderer.RenderTarget_Composition_Ldr run.2)
  = @post_process_image example_backend r Image_Before /\
  Renderer.RenderTarget_Composition_Ldr run.2 = 4 /\
  Renderer.RenderTarget_Composition_Hdr run.2 = 1.
Proof.
  intros r run.
  assert (Htargets : NoDup [1; 2; 3; 4; 5; 6; 7]) by compute_done.
  assert (Hbloom : NoDup (Renderer.m_render_tex_bloom r)) by compute_done.
  assert (Hfilled : Renderer.m_render_tex_bloom r <> []) by done.
  assert (Hhdr : 1 ∉ Renderer.m_render_tex_bloom r) by compute_done.
  assert (Hhdr2 : 2 ∉ Renderer.m_render_tex_bloom r) by compute_done.
  destruct (@Pass_PostProcess_chain example_backend r gpu_before) as [_ Hchain].
  destruct (Hchain (fun _ => eq_refl) (fun _ => eq_refl) Htargets Hbloom Hfilled Hhdr Hhdr2)
    as (Hpasses & Himage & _ & _).
  split; [exact Hpasses|]. split; [exact Himage|]. split; reflexivity.
Defined.

(** * Properties of the further parts *)

(** ** RHI_Device: what registration keeps and selects *)

Lemma sorted_head_is_greatest {A : Type} (R : A -> A -> Prop) (x : A) (l : list A) :
  (forall a, R a a) ->
  StronglySorted R (x :: l) -> forall y, y ∈ x :: l -> R x y.
Proof.
  intros Hrefl Hsorted y Hy. apply StronglySorted_inv in Hsorted as [_ Hall].
  apply elem_of_cons in Hy as [->|Hy]; [apply Hrefl|].
  by apply (proj1 (Forall_forall _ _) Hall).
Qed.

Section Registration.
Context `{StdSort}.

(** X1. Registering physical devices loses and invents nothing: after any
    sequence of [RegisterPhysicalDevice] calls the device list is a
    rearrangement of the old list followed by the registered devices, the
    selected index and the display modes are untouched, and each single call
    logs the device it was given, wherever the sort puts it. *)
Theorem registered_devices_are_kept pds pd d :
  let d' := Device.register_physical_devices pds d in
  Device.m_physical_devices d' ≡ₚ Device.m_physical_devices d ++ pds /\
  length (Device.m_physical_devices d')
  = (length (Device.m_physical_devices d) + length pds)%nat /\
  Device.m_physical_device_index d' = Device.m_physical_device_index d /\
  Device.m_display_modes d' = Device.m_display_modes d /\
  (Device.RegisterPhysicalDevice pd d).2
  = [Log_Info_Device (Device.GetName pd) (Device.GetMemory pd)].
Proof.
  intros d'. subst d'.
  assert (Hkept : forall d0,
            Device.m_physical_device_index (Device.register_physical_devices pds d0)
            = Device.m_physical_device_index d0 /\
            Device.m_display_modes (Device.register_physical_devices pds d0)
            = Device.m_display_modes d0).
  { induction pds as [|p pds IH]; intros d0; [done|].
    unfold Device.register_physical_devices in *. cbn [fold_left].
    destruct (IH (Device.RegisterPhysicalDevice p d0).1) as [-> ->]. done. }
  assert (Hperm := register_physical_devices_perm pds d).
  split; [done|]. split; [by rewrite Hperm, length_app|].
  split; [apply Hkept|]. split; [apply Hkept|done].
Qed.

(** X2. With the selected index at 0, the primary device after a
    registration is an adapter with the most memory of all registered
    ones. *)
Theorem primary_device_has_most_memory pd d :
  Device.m_physical_device_index d = 0 ->
  exists primary,
    Device.GetPrimaryPhysicalDevice (Device.RegisterPhysicalDevice pd d).1 = Some primary /\
    primary ∈ Device.m_physical_devices d ++ [pd] /\
    forall other, other ∈ Device.m_physical_devices d ++ [pd] ->
                  Device.GetMemory other <= Device.GetMemory primary.
Proof.
  intros Hindex.
  pose proof (RegisterPhysicalDevice_perm pd d) as Hperm.
  pose proof (RegisterPhysicalDevice_sorted pd d) as Hsorted.
  unfold Device.GetPrimaryPhysicalDevice.
  replace (Device.m_physical_device_index (Device.RegisterPhysicalDevice pd d).1)
    with 0 by done.
  destruct (Device.m_physical_devices (Device.RegisterPhysicalDevice pd d).1)
    as [|primary rest] eqn:Hlist.
  { apply Permutation_length in Hperm. rewrite length_app in Hperm. simpl in Hperm. lia. }
  exists primary. split; [done|]. split.
  - rewrite <- Hperm. by left.
  - intros other Hother. rewrite <- Hperm in Hother.
    apply (sorted_head_is_greatest
             (fun a b => Device.GetMemory b <= Device.GetMemory a) primary rest);
      [intros; lia|done|done].
Qed.

(** X3. [RegisterDisplayMode] hands the timer the highest refresh rate of
    all display modes registered so far, the new one included; the list
    keeps every mode. *)
Theorem RegisterDisplayMode_targets_highest_rate mode d :
  let d' := Device.RegisterDisplayMode mode d in
  Device.m_display_modes d' ≡ₚ Device.m_display_modes d ++ [mode] /\
  (exists fastest, fastest ∈ Device.m_display_modes d ++ [mode] /\
                   Device.target_fps d' = Device.refresh_rate fastest) /\
  (forall other, other ∈ Device.m_display_modes d ++ [mode] ->
                 Qle (Device.refresh_rate other) (Device.target_fps d')) /\
  Device.m_physical_devices d' = Device.m_physical_devices d.
Proof.
  intros d'.
  pose proof (RegisterDisplayMode_perm mode d) as Hperm.
  pose proof (RegisterDisplayMode_sorted mode d) as Hsorted.
  fold d' in Hperm, Hsorted. split; [done|].
  assert (Hfps : exists fastest rest,
             Device.m_display_modes d' = fastest :: rest /\
             Device.target_fps d' = Device.refresh_rate fastest).
  { subst d'. unfold Device.RegisterDisplayMode in *. cbn in *.
    destruct (std_sort _ _) as [|fastest rest] eqn:Hlist; [|by eauto].
    apply Permutation_length in Hperm. rewrite length_app in Hperm. simpl in Hperm. lia. }
  destruct Hfps as (fastest & rest & Hlist & Hfps).
  rewrite Hlist in Hperm, Hsorted. split; [|split; [|done]].
  - exists fastest. split; [|done]. rewrite <- Hperm. by left.
  - intros other Hother. rewrite <- Hperm in Hother. rewrite Hfps.
    apply (sorted_head_is_greatest
             (fun a b => Qle (Device.refresh_rate b) (Device.refresh_rate a)) fastest rest);
      [intros; apply Qle_refl|done|done].
Qed.

(** X4. With the display-mode index at 0, the primary display mode after a
    registration exists and runs at the rate the timer was given; with an
    index at or past the end of the list there is no primary display
    mode. *)
Theorem primary_display_mode_is_fastest mode d :
  Device.m_display_mode_index d = 0 ->
  let d' := Device.RegisterDisplayMode mode d in
  (exists primary,
     DisplayModes.GetPrimaryDisplayMode d' = Some primary /\
     primary ∈ Device.m_display_modes d ++ [mode] /\
     Device.refresh_rate primary = Device.target_fps d') /\
  (forall d0, Z.of_nat (length (Device.m_display_modes d0)) <= Device.m_display_mode_index d0 ->
              DisplayModes.GetPrimaryDisplayMode d0 = None).
Proof.
  intros Hindex d'. split.
  - pose proof (RegisterDisplayMode_perm mode d) as Hperm. fold d' in Hperm.
    unfold DisplayModes.GetPrimaryDisplayMode.
    replace (Device.m_display_mode_index d') with 0 by done.
    subst d'. unfold Device.RegisterDisplayMode in *. cbn in *.
    destruct (std_sort _ _) as [|primary rest] eqn:Hlist.
    { apply Permutation_length in Hperm. rewrite length_app in Hperm. simpl in Hperm. lia. }
    exists primary. split; [done|]. split; [|done]. rewrite <- Hperm. by left.
  - intros d0 Hpast. unfold DisplayModes.GetPrimaryDisplayMode.
    by destruct (Z.leb_spec (Z.of_nat (length (Device.m_display_modes d0)))
                   (Device.m_display_mode_index d0)); [|lia].
Qed.

End Registration.

Lemma primary_device_has_most_memory_witness :
  exists primary,
    Device.GetPrimaryPhysicalDevice
      (@Device.RegisterPhysicalDevice insertion_StdSort (Device.adapter "B" 8192)
         single_adapter_device).1 = Some primary /\
    Device.GetMemory primary = 8192.
Proof.
  destruct (@primary_device_has_most_memory insertion_StdSort (Device.adapter "B" 8192)
              single_adapter_device eq_refl) as (primary & Hprimary & Hin & Hmost).
  exists primary. split; [exact Hprimary|].
  vm_compute in Hprimary. by injection Hprimary as <-.
Defined.

Lemma primary_display_mode_is_fastest_witness :
  let mode := {| Device.width := 1920; Device.height := 1080; Device.refresh_rate := 144 |} in
  exists primary,
    DisplayModes.GetPrimaryDisplayMode
      (@Device.RegisterDisplayMode insertion_StdSort mode (Device.fresh_device 16384))
    = Some primary /\
    Device.refresh_rate primary
    = Device.target_fps
        (@Device.RegisterDisplayMode insertion_StdSort mode (Device.fresh_device 16384)).
Proof.
  intros mode.
  destruct (@primary_display_mode_is_fastest insertion_StdSort mode
              (Device.fresh_device 16384) eq_refl) as [(primary & Hprimary & _ & Hrate) _].
  exists primary. split; [exact Hprimary|exact Hrate].
Defined.

(** ** RHI_DescriptorCache: what growing does to the layouts *)

Section Growth.
Context `{DescriptorCache.Collaborators}.


(** X6. On a cache without a device, or with a device without context,
    [GrowIfNeeded] over budget still doubles the recorded capacity and still
    logs the increase, after the error of [SetDescriptorSetCapacity]: layouts,
    selection and pool stay as they were, so the recorded capacity no longer
    is the one the pool was created with. *)
Theorem GrowIfNeeded_without_device c :
  DescriptorCache.m_rhi_device c = None \/ DescriptorCache.m_rhi_device c = Some None ->
  DescriptorCache.m_descriptor_set_capacity c
    < wrap32 (DescriptorCache.GetDescriptorSetCount c + 1) ->
  let capacity := wrap32 (DescriptorCache.m_descriptor_set_capacity c * 2) in
  let grown := DescriptorCache.GrowIfNeeded c in
  grown.2 = [Log_Error "Invalid internals"; Log_Info_Capacity capacity] /\
  DescriptorCache.m_descriptor_set_capacity grown.1 = capacity /\
  DescriptorCache.m_descriptor_set_layouts grown.1 = DescriptorCache.m_descriptor_set_layouts c /\
  DescriptorCache.m_descriptor_layout_current grown.1
    = DescriptorCache.m_descriptor_layout_current c /\
  DescriptorCache.m_descriptor_pool grown.1 = DescriptorCache.m_descriptor_pool c.
Proof.
  intros Hdevice Hover capacity grown. subst grown.
  unfold DescriptorCache.GrowIfNeeded.
  destruct (Z.ltb_spec (DescriptorCache.m_descriptor_set_capacity c)
              (wrap32 (DescriptorCache.GetDescriptorSetCount c + 1))); [|lia].
  unfold DescriptorCache.SetDescriptorSetCapacity. cbn.
  destruct Hdevice as [-> | ->]; cbn; fold capacity; by repeat split.
Qed.

End Growth.


Lemma GrowIfNeeded_without_device_witness :
  let c := (DescriptorCache.RHI_DescriptorCache_new None 0).1 in
  (DescriptorCache.GrowIfNeeded c).2
  = [Log_Error "Invalid internals"; Log_Info_Capacity 0] /\
  DescriptorCache.m_descriptor_pool (DescriptorCache.GrowIfNeeded c).1 = None.
Proof.
  intros c.
  assert (Hover : DescriptorCache.m_descriptor_set_capacity c
                  < wrap32 (DescriptorCache.GetDescriptorSetCount c + 1))
    by (vm_compute; reflexivity).
  destruct (GrowIfNeeded_without_device c (or_introl eq_refl) Hover)
    as (Hlog & _ & _ & _ & Hpool).
  split; [exact Hlog|exact Hpool].
Defined.

(** ** RHI_DescriptorCache: no resource is dropped by the merge *)

Lemma update_existing_Some_key r ds ds' :
  DescriptorCache.update_existing r ds = Some ds' ->
  descriptor_key r ∈ descriptor_key <$> ds.
Proof.
  intros Hsome. destruct (decide (descriptor_key r ∈ descriptor_key <$> ds)); [done|].
  apply update_existing_None in n. congruence.
Qed.

Lemma merge_descriptor_keys ds r :
  (descriptor_key <$> ds) `prefix_of`
    (descriptor_key <$> DescriptorCache.merge_descriptor ds r) /\
  descriptor_key r ∈ descriptor_key <$> DescriptorCache.merge_descriptor ds r /\
  (forall k, k ∈ descriptor_key <$> DescriptorCache.merge_descriptor ds r ->
             k ∈ descriptor_key <$> ds \/ k = descriptor_key r).
Proof.
  unfold DescriptorCache.merge_descriptor.
  destruct (DescriptorCache.update_existing r ds) as [updated|] eqn:Hupdate.
  - rewrite (update_existing_keys _ _ _ Hupdate).
    split; [done|]. split; [by eapply update_existing_Some_key|auto].
  - rewrite fmap_app. split; [by apply prefix_app_r|].
    split; [apply elem_of_app; right; by left|].
    intros k [Hk|Hk]%elem_of_app; [by left|right].
    by apply list_elem_of_singleton in Hk.
Qed.

Lemma merge_all_keys rs : forall ds,
  (descriptor_key <$> ds) `prefix_of`
    (descriptor_key <$> fold_left DescriptorCache.merge_descriptor rs ds) /\
  (forall r, r ∈ rs ->
     descriptor_key r ∈ descriptor_key <$> fold_left DescriptorCache.merge_descriptor rs ds) /\
  (forall k, k ∈ descriptor_key <$> fold_left DescriptorCache.merge_descriptor rs ds ->
             k ∈ descriptor_key <$> ds \/ k ∈ descriptor_key <$> rs).
Proof.
  induction rs as [|r rs IH]; intros ds; cbn [fold_left].
  - split; [done|]. split; [by intros r Hr%elem_of_nil|auto].
  - destruct (merge_descriptor_keys ds r) as (Hprefix & Hr & Hfrom).
    destruct (IH (DescriptorCache.merge_descriptor ds r)) as (Hprefix' & Hrs & Hfrom').
    split; [by etransitivity|]. split.
    + intros r' [->|Hr']%elem_of_cons; [|by apply Hrs].
      destruct Hprefix' as [more ->]. apply elem_of_app. by left.
    + intros k Hk. destruct (Hfrom' k Hk) as [Hk'|Hk'].
      * destruct (Hfrom k Hk') as [?| ->]; [by left|right; rewrite fmap_cons; by left].
      * right. rewrite fmap_cons. by right.
Qed.

(** X7. With a vertex shader, no shader still compiling and no dynamic
    constant-buffer slot asked for, [GenerateDescriptors] returns without a
    log entry a list that starts with the vertex shader's resources in their
    order, holds every (type, slot) the pixel shader declares, and holds
    nothing that neither shader declares; without a pixel shader it is the
    vertex shader's list itself. *)
Theorem GenerateDescriptors_keeps_every_resource ps c vertex :
  DescriptorCache.shader_vertex ps = Some vertex ->
  DescriptorCache.is_compiling vertex = false ->
  (forall p, DescriptorCache.shader_pixel ps = Some p ->
             DescriptorCache.is_compiling p = false) ->
  DescriptorCache.dynamic_constant_buffer_slot ps = -1 ->
  exists descriptors,
    DescriptorCache.GenerateDescriptors ps c = Some (descriptors, []) /\
    (descriptor_key <$> DescriptorCache.GetDescriptors vertex) `prefix_of`
      (descriptor_key <$> descriptors) /\
    (forall p d, DescriptorCache.shader_pixel ps = Some p ->
                 d ∈ DescriptorCache.GetDescriptors p ->
                 descriptor_key d ∈ descriptor_key <$> descriptors) /\
    (forall k, k ∈ descriptor_key <$> descriptors ->
               k ∈ descriptor_key <$> DescriptorCache.GetDescriptors vertex \/
               exists p, DescriptorCache.shader_pixel ps = Some p /\
                         k ∈ descriptor_key <$> DescriptorCache.GetDescriptors p) /\
    (DescriptorCache.shader_pixel ps = None ->
     descriptors = DescriptorCache.GetDescriptors vertex).
Proof.
  intros Hvertex Hvc Hpc Hslot. unfold DescriptorCache.GenerateDescriptors.
  rewrite Hvertex, Hvc, Hslot.
  destruct (DescriptorCache.shader_pixel ps) as [p|]; cbn.
  - rewrite (Hpc p eq_refl). cbn.
    destruct (merge_all_keys (DescriptorCache.GetDescriptors p)
                (DescriptorCache.GetDescriptors vertex)) as (Hprefix & Hall & Hfrom).
    eexists. split; [done|]. split; [done|]. split; [|split; [|done]].
    + intros p' d [= <-]. apply Hall.
    + intros k Hk. destruct (Hfrom k Hk); [by left|right; by exists p].
  - eexists. split; [done|]. split; [done|]. split; [done|]. split; [|done].
    intros k Hk. by left.
Qed.

Lemma GenerateDescriptors_keeps_every_resource_witness :
  exists descriptors,
    DescriptorCache.GenerateDescriptors
      {| DescriptorCache.shader_vertex := Some example_vertex_shader;
         DescriptorCache.shader_pixel := Some example_pixel_shader;
         DescriptorCache.dynamic_constant_buffer_slot := -1 |} example_cache
    = Some (descriptors, []) /\
    (descriptor_key <$> DescriptorCache.GetDescriptors example_vertex_shader) `prefix_of`
      (descriptor_key <$> descriptors).
Proof.
  destruct (GenerateDescriptors_keeps_every_resource
              {| DescriptorCache.shader_vertex := Some example_vertex_shader;
                 DescriptorCache.shader_pixel := Some example_pixel_shader;
                 DescriptorCache.dynamic_constant_buffer_slot := -1 |}
              example_cache example_vertex_shader eq_refl eq_refl
              (fun p Hp => match Hp in _ = o return
                                 match o with
                                 | Some q => DescriptorCache.is_compiling q = false
                                 | None => True
                                 end
                           with eq_refl => eq_refl end)
              eq_refl)
    as (descriptors & Hreturns & Hprefix & _).
  exists descriptors. split; [exact Hreturns|exact Hprefix].
Defined.

(** ** RHI_Texture: the flag setters and the format tests *)

Lemma u16_high_bits a n :
  0 <= a < Texture.UINT16_MOD -> 16 <= n -> Z.testbit a n = false.
Proof.
  intros [Hlo Hhi] Hn. destruct (decide (a = 0)) as [->|Hne]; [apply Z.bits_0|].
  apply Z.bits_above_log2; [done|].
  assert (Z.log2 a < 16); [|lia].
  apply Z.log2_lt_pow2; [lia|exact Hhi].
Qed.

Lemma wrap16_bits a n : 0 <= n ->
  Z.testbit (Texture.wrap16 a) n = (n <? 16) && Z.testbit a n.
Proof.
  intros Hn. unfold Texture.wrap16, Texture.UINT16_MOD.
  destruct (Z.ltb_spec n 16).
  - by rewrite Z.mod_pow2_bits_low by lia.
  - by rewrite Z.mod_pow2_bits_high by lia.
Qed.

(** The flags after setting or clearing bit [k] of a 16-bit word, bit by
    bit. *)
Lemma set_flag_bits (k : Z) (enable : bool) flags n :
  0 <= k < 16 -> 0 <= flags < Texture.UINT16_MOD -> 0 <= n ->
  Z.testbit (Texture.wrap16 (if enable then Z.lor flags (Z.shiftl 1 k)
                             else Z.land flags (Z.lnot (Z.shiftl 1 k)))) n
  = if decide (n = k) then enable else Z.testbit flags n.
Proof.
  intros Hk Hflags Hn. rewrite wrap16_bits by done.
  rewrite Z.shiftl_1_l.
  destruct (Z.ltb_spec n 16) as [Hlow|Hhigh]; cbn [andb].
  - destruct enable.
    + rewrite Z.lor_spec, Z.pow2_bits_eqb by lia.
      destruct (decide (n = k)) as [->|Hne].
      * rewrite Z.eqb_refl. apply orb_true_r.
      * destruct (Z.eqb_spec k n); [lia|apply orb_false_r].
    + rewrite Z.land_spec, Z.lnot_spec, Z.pow2_bits_eqb by lia.
      destruct (decide (n = k)) as [->|Hne].
      * rewrite Z.eqb_refl. apply andb_false_r.
      * destruct (Z.eqb_spec k n); [lia|apply andb_true_r].
  - rewrite decide_False by lia. symmetry. by apply u16_high_bits.
Qed.

Lemma flag_test_bit flags k :
  0 <= k -> Z.land flags (Z.shiftl 1 k) = if Z.testbit flags k then Z.shiftl 1 k else 0.
Proof.
  intros Hk. rewrite Z.shiftl_1_l. apply Z.bits_inj'. intros n Hn.
  rewrite Z.land_spec, Z.pow2_bits_eqb by done.
  destruct (Z.eqb_spec k n) as [->|Hne].
  - destruct (Z.testbit flags n) eqn:Hbit.
    + by rewrite Z.pow2_bits_true.
    + by rewrite Z.bits_0.
  - rewrite andb_false_r. destruct (Z.testbit flags k).
    + rewrite Z.pow2_bits_eqb by done. by destruct (Z.eqb_spec k n).
    + by rewrite Z.bits_0.
Qed.

Section TextureFlags.
Context {RHI_Format : Type}.

(** X8. On a texture whose flags fit their 16 bits, [SetGrayscale] makes
    [GetGrayscale] return the flag's value 32 or 0 (the getter returns the
    masked integer, not a boolean), leaves the transparency flag and the four
    binding tests as they were, keeps the flags within 16 bits, and its last
    call wins; [SetTransparency] does the same for the value 64, and the two
    setters commute. *)
Theorem flag_setters_round_trip (t : @Texture.RHI_Texture RHI_Format) (a b : bool) :
  0 <= Texture.m_flags t < Texture.UINT16_MOD ->
  Texture.GetGrayscale (Texture.SetGrayscale a t) = (if a then 32 else 0) /\
  Texture.GetTransparency (Texture.SetTransparency a t) = (if a then 64 else 0) /\
  Texture.GetTransparency (Texture.SetGrayscale a t) = Texture.GetTransparency t /\
  Texture.GetGrayscale (Texture.SetTransparency a t) = Texture.GetGrayscale t /\
  (Texture.IsSampled (Texture.SetGrayscale a t) = Texture.IsSampled t /\
   Texture.IsRenderTargetCompute (Texture.SetGrayscale a t) = Texture.IsRenderTargetCompute t /\
   Texture.IsRenderTargetDepthStencil (Texture.SetGrayscale a t)
     = Texture.IsRenderTargetDepthStencil t /\
   Texture.IsRenderTargetColor (Texture.SetGrayscale a t) = Texture.IsRenderTargetColor t) /\
  0 <= Texture.m_flags (Texture.SetGrayscale a t) < Texture.UINT16_MOD /\
  Texture.SetGrayscale a (Texture.SetGrayscale b t) = Texture.SetGrayscale a t /\
  Texture.SetGrayscale a (Texture.SetTransparency b t)
    = Texture.SetTransparency b (Texture.SetGrayscale a t).
Proof.
  intros Hflags.
  assert (Hrange : forall z, 0 <= Texture.wrap16 z < Texture.UINT16_MOD).
  { intros z. apply Z.mod_pos_bound. by compute. }
  assert (Hg : forall (e : bool) f n, 0 <= f < Texture.UINT16_MOD -> 0 <= n ->
            Z.testbit (Texture.wrap16 (if e then Z.lor f Texture.RHI_Texture_Grayscale
                                       else Z.land f (Z.lnot Texture.RHI_Texture_Grayscale))) n
            = if decide (n = 5) then e else Z.testbit f n).
  { intros e f n Hf Hn. by apply (set_flag_bits 5). }
  assert (Ht : forall (e : bool) f n, 0 <= f < Texture.UINT16_MOD -> 0 <= n ->
            Z.testbit (Texture.wrap16 (if e then Z.lor f Texture.RHI_Texture_Transparent
                                       else Z.land f (Z.lnot Texture.RHI_Texture_Transparent))) n
            = if decide (n = 6) then e else Z.testbit f n).
  { intros e f n Hf Hn. by apply (set_flag_bits 6). }
  unfold Texture.GetGrayscale, Texture.GetTransparency, Texture.IsSampled,
    Texture.IsRenderTargetCompute, Texture.IsRenderTargetDepthStencil,
    Texture.IsRenderTargetColor, Texture.SetGrayscale, Texture.SetTransparency,
    Texture.set_flags. cbn [Texture.m_flags Texture.m_format].
  unfold Texture.RHI_Texture_ShaderView, Texture.RHI_Texture_UnorderedAccessView,
    Texture.RHI_Texture_RenderTargetView, Texture.RHI_Texture_DepthStencilView.
  rewrite !(flag_test_bit _ 0), !(flag_test_bit _ 1), !(flag_test_bit _ 2),
    !(flag_test_bit _ 3) by lia.
  unfold Texture.RHI_Texture_Grayscale at 1 3 5 7, Texture.RHI_Texture_Transparent at 1 3 5 7.
  rewrite !(flag_test_bit _ 5), !(flag_test_bit _ 6) by lia.
  rewrite !Hg, !Ht by (done || lia). cbn [decide_rel].
  repeat (rewrite decide_True by done) || (rewrite decide_False by done).
  split; [by destruct a|]. split; [by destruct a|].
  split; [done|]. split; [done|]. split; [done|]. split; [apply Hrange|].
  split; f_equal; apply Z.bits_inj'; intros n Hn.
  - rewrite !Hg by (done || apply Hrange). by case_decide.
  - rewrite Hg, Ht, Ht, Hg by (done || apply Hrange). repeat case_decide; done || lia.
Qed.

Context `{EqDecision RHI_Format}.
Variables D32_Float D32_Float_S8X24_Uint : RHI_Format.

(** X9. A stencil format is a depth format, so [IsDepthStencil] says the
    same as [IsDepthFormat], and [IsColorFormat] holds exactly for the
    formats that are not depth formats. *)
Theorem depth_stencil_is_depth (t : @Texture.RHI_Texture RHI_Format) :
  let depth := Texture.IsDepthFormat D32_Float D32_Float_S8X24_Uint t in
  let stencil := Texture.IsStencilFormat D32_Float_S8X24_Uint t in
  (stencil = true -> depth = true) /\
  Texture.IsDepthStencil D32_Float D32_Float_S8X24_Uint t = depth /\
  Texture.IsColorFormat D32_Float D32_Float_S8X24_Uint t = negb depth /\
  (Texture.IsColorFormat D32_Float D32_Float_S8X24_Uint t = true <->
   Texture.m_format t <> D32_Float /\ Texture.m_format t <> D32_Float_S8X24_Uint).
Proof.
  unfold Texture.IsColorFormat, Texture.IsDepthStencil, Texture.IsDepthFormat,
    Texture.IsStencilFormat. cbn zeta.
  destruct (decide (Texture.m_format t = D32_Float)) as [H1|H1];
    destruct (decide (Texture.m_format t = D32_Float_S8X24_Uint)) as [H2|H2];
    rewrite ?(bool_decide_eq_true_2 _ H1), ?(bool_decide_eq_false_2 _ H1),
      ?(bool_decide_eq_true_2 _ H2), ?(bool_decide_eq_false_2 _ H2); cbn;
    (split; [done|]); (split; [done|]); (split; [done|]); split; try done;
    intros [? ?]; done.
Qed.

End TextureFlags.

Lemma flag_setters_round_trip_witness :
  let t := {| Texture.m_flags := 65535; Texture.m_format := tt |} in
  Texture.GetGrayscale (Texture.SetGrayscale false t) = 0 /\
  Texture.m_flags (Texture.SetGrayscale false t) = 65503 /\
  Texture.GetTransparency (Texture.SetGrayscale false t) = 64.
Proof.
  intros t.
  assert (Hflags : 0 <= Texture.m_flags t < Texture.UINT16_MOD) by (by compute).
  destruct (flag_setters_round_trip t false false Hflags) as (Hgray & _ & Htransparent & _).
  split; [exact Hgray|]. split; [reflexivity|]. rewrite Htransparent. reflexivity.
Defined.

(** ** Renderer: options *)

Lemma land_lor_same m b : Z.land (Z.lor m b) b = b.
Proof.
  apply Z.bits_inj'. intros n Hn. rewrite Z.land_spec, Z.lor_spec.
  destruct (Z.testbit m n), (Z.testbit b n); done.
Qed.

Lemma land_clear_same m b : Z.land (Z.land m (Z.lnot b)) b = 0.
Proof.
  apply Z.bits_inj'. intros n Hn. rewrite !Z.land_spec, Z.lnot_spec, Z.bits_0 by done.
  destruct (Z.testbit m n), (Z.testbit b n); done.
Qed.

Lemma disjoint_bits b b' n :
  Z.land b b' = 0 -> 0 <= n -> Z.testbit b n && Z.testbit b' n = false.
Proof. intros Hzero Hn. by rewrite <- Z.land_spec, Hzero, Z.bits_0. Qed.

Lemma land_lor_other m b b' : Z.land b b' = 0 -> Z.land (Z.lor m b) b' = Z.land m b'.
Proof.
  intros Hzero. apply Z.bits_inj'. intros n Hn. rewrite !Z.land_spec, Z.lor_spec.
  pose proof (disjoint_bits b b' n Hzero Hn).
  destruct (Z.testbit m n), (Z.testbit b n), (Z.testbit b' n); done.
Qed.

Lemma land_clear_other m b b' :
  Z.land b b' = 0 -> Z.land (Z.land m (Z.lnot b)) b' = Z.land m b'.
Proof.
  intros Hzero. apply Z.bits_inj'. intros n Hn. rewrite !Z.land_spec, Z.lnot_spec by done.
  pose proof (disjoint_bits b b' n Hzero Hn).
  destruct (Z.testbit m n), (Z.testbit b n), (Z.testbit b' n); done.
Qed.

Section Options.
Context `{Renderer.Backend}.

(** X10. [SetOption] and [GetOption] agree: after disabling an option it
    reads as off, after enabling an option whose bit is not zero it reads as
    on, an option whose bits are apart from the changed one reads as before,
    the call changes nothing but [m_options], and a call that asks for what
    [GetOption] already reports changes nothing at all. *)
Theorem SetOption_GetOption option enable r :
  Renderer.GetOption option (RendererOptions.SetOption option false r) = false /\
  (Renderer.option_bit option <> 0 ->
   Renderer.GetOption option (RendererOptions.SetOption option true r) = true) /\
  (forall other,
     Z.land (Renderer.option_bit option) (Renderer.option_bit other) = 0 ->
     Renderer.GetOption other (RendererOptions.SetOption option enable r)
     = Renderer.GetOption other r) /\
  (Renderer.GetOption option r = enable -> RendererOptions.SetOption option enable r = r) /\
  RendererOptions.SetOption option enable r
  = RendererOptions.set_options
      (Renderer.m_options (RendererOptions.SetOption option enable r)) r.
Proof.
  unfold RendererOptions.SetOption, Renderer.GetOption.
  split; [|split; [|split; [|split]]].
  - cbn [negb andb].
    destruct (Z.eqb_spec (Z.land (Renderer.m_options r) (Renderer.option_bit option)) 0)
      as [Hoff|Hon]; cbn [negb].
    + by rewrite Hoff.
    + cbn. by rewrite land_clear_same.
  - intros Hbit. cbn [negb andb].
    destruct (Z.eqb_spec (Z.land (Renderer.m_options r) (Renderer.option_bit option)) 0)
      as [Hoff|Hon]; cbn [negb].
    + cbn. rewrite land_lor_same. by destruct (Z.eqb_spec (Renderer.option_bit option) 0).
    + by destruct (Z.eqb_spec (Z.land (Renderer.m_options r) (Renderer.option_bit option)) 0).
  - intros other Hapart.
    destruct enable, (Z.land (Renderer.m_options r) (Renderer.option_bit option) =? 0);
      cbn; by rewrite ?land_lor_other, ?land_clear_other.
  - intros <-.
    by destruct (Z.land (Renderer.m_options r) (Renderer.option_bit option) =? 0).
  - destruct enable, (Z.land (Renderer.m_options r) (Renderer.option_bit option) =? 0);
      cbn; by destruct r.
Qed.

End Options.

(** ** Renderer: the resolutions SetResolution accepts *)

(** X11. [Renderer::SetResolution] turns away exactly the resolutions that
    [RHI_Device::ValidateResolution] rejects on the same device. What it
    stores for an accepted resolution of at least 2x2 is again a resolution
    the device accepts, while an accepted width of 1 is stored as the width
    0, which the device rejects. *)
Theorem SetResolution_agrees_with_ValidateResolution width height r d :
  0 <= width -> 0 <= height ->
  Renderer.max_res r = Device.max_texture_dimension_2d d ->
  Renderer.max_res r < 2 ^ 24 ->
  let stored := Renderer.m_resolution (Renderer.SetResolution width height r).1 in
  (Device.ValidateResolution width height d = false <->
   Renderer.SetResolution width height r
   = (r, [Renderer.Resolution_Log (Log_Warning_Resolution width height)])) /\
  (Device.ValidateResolution width height d = true -> 2 <= width -> 2 <= height ->
   stored = (width - width mod 2, height - height mod 2) /\
   Device.ValidateResolution stored.1 stored.2 d = true) /\
  (Device.ValidateResolution width height d = true -> width = 1 ->
   stored.1 = 0 /\ Device.ValidateResolution stored.1 stored.2 d = false).
Proof.
  intros Hw Hh Hmax Hsmall stored.
  assert (Hvalid : forall w h, Device.ValidateResolution w h d = true <->
                   0 < w <= Renderer.max_res r /\ 0 < h <= Renderer.max_res r).
  { intros w h. unfold Device.ValidateResolution. rewrite !andb_true_iff, !Z.ltb_lt, !Z.leb_le, Hmax.
    tauto. }
  assert (Hguard : (width =? 0) || (Renderer.max_res r <? width) ||
                   (height =? 0) || (Renderer.max_res r <? height)
                   = negb (Device.ValidateResolution width height d)).
  { unfold Device.ValidateResolution. rewrite <- Hmax.
    destruct (Z.eqb_spec width 0), (Z.ltb_spec (Renderer.max_res r) width),
      (Z.eqb_spec height 0), (Z.ltb_spec (Renderer.max_res r) height),
      (Z.ltb_spec 0 width), (Z.leb_spec width (Renderer.max_res r)),
      (Z.ltb_spec 0 height), (Z.leb_spec height (Renderer.max_res r)); cbn; lia || done. }
  assert (Hstored : Device.ValidateResolution width height d = true ->
            stored = (width - width mod 2, height - height mod 2)).
  { intros Hok. apply Hvalid in Hok as [[Hw0 Hw1] [Hh0 Hh1]].
    destruct (make_even width Hw) as (Hwe & _ & Hwle).
    destruct (make_even height Hh) as (Hhe & _ & Hhle).
    pose proof (Z.mod_pos_bound width 2 ltac:(lia)).
    pose proof (Z.mod_pos_bound height 2 ltac:(lia)).
    assert (Hfw : Renderer.float_of_u32 (width - width mod 2) = width - width mod 2).
    { unfold Renderer.float_of_u32.
      destruct (Z.ltb_spec (width - width mod 2) (2 ^ 24)); [done|lia]. }
    assert (Hfh : Renderer.float_of_u32 (height - height mod 2) = height - height mod 2).
    { unfold Renderer.float_of_u32.
      destruct (Z.ltb_spec (height - height mod 2) (2 ^ 24)); [done|lia]. }
    subst stored. unfold Renderer.SetResolution.
    rewrite Hguard, (proj2 (Hvalid width height)) by lia. cbn [negb]. rewrite Hwe, Hhe, Hfw, Hfh.
    destruct (Z.eqb_spec (Renderer.m_resolution r).1 (width - width mod 2)) as [H1|H1];
      destruct (Z.eqb_spec (Renderer.m_resolution r).2 (height - height mod 2)) as [H2|H2];
      cbn; try done.
    destruct (Renderer.m_resolution r); cbn in *; congruence. }
  split; [|split].
  - unfold Renderer.SetResolution. rewrite Hguard.
    destruct (Device.ValidateResolution width height d); cbn [negb].
    + split; [done|]. destruct (_ && _); intros [= ]. 
    + done.
  - intros Hok Hw2 Hh2. split; [by apply Hstored|]. rewrite (Hstored Hok). cbn [fst snd].
    apply Hvalid in Hok as [[Hw0 Hw1] [Hh0 Hh1]].
    apply Hvalid.
    pose proof (Z.mod_pos_bound width 2 ltac:(lia)).
    pose proof (Z.mod_pos_bound height 2 ltac:(lia)).
    assert (width mod 2 <> 1 \/ 3 <= width).
    { destruct (decide (width = 2)) as [->|]; [by left|lia]. }
    assert (height mod 2 <> 1 \/ 3 <= height).
    { destruct (decide (height = 2)) as [->|]; [by left|lia]. }
    lia.
  - intros Hok ->. rewrite (Hstored Hok). cbn [fst snd]. split; [done|].
    unfold Device.ValidateResolution. done.
Qed.

Lemma SetResolution_agrees_with_ValidateResolution_witness :
  let r := {| Renderer.m_resolution := (1920, 1080); Renderer.max_res := 16384 |} in
  Renderer.m_resolution (Renderer.SetResolution 1 1080 r).1 = (0, 1080) /\
  Device.ValidateResolution 1 1080 (Device.fresh_device 16384) = true /\
  Device.ValidateResolution 0 1080 (Device.fresh_device 16384) = false.
Proof.
  intros r.
  destruct (SetResolution_agrees_with_ValidateResolution 1 1080 r (Device.fresh_device 16384)
              ltac:(lia) ltac:(lia) eq_refl ltac:(cbn; lia)) as (_ & _ & Hone).
  split; [reflexivity|]. split; [reflexivity|].
  destruct (Hone eq_refl eq_refl) as [_ Hrejected]. exact Hrejected.
Defined.

(** ** Renderer: what RenderablesAcquire collects *)

Lemma acquire_entity_lists e (m : Renderer.entity_lists) (c : option Renderer.Camera) t :
  Renderer.IsActive e = true ->
  (Renderer.acquire_entity (m, c) (Some e)).1 t
  = m t ++ (if belongs_to t e then [e] else []).
Proof.
  intros Hactive. unfold Renderer.acquire_entity, belongs_to, is_transparent, has_light_of,
    Renderer.HasMaterial.
  rewrite Hactive. cbn [negb].
  destruct (Renderer.GetRenderable e) as [renderable|];
    [destruct (Renderer.GetMaterial renderable) as [material|];
       [destruct (Qle_bool 1 (Renderer.GetColorAlbedo_w material))|]|];
    (destruct (Renderer.GetLight e) as [light|];
       [destruct (Renderer.GetLightType light)|]);
    destruct (Renderer.GetCamera e) as [camera|];
    destruct t; cbn; by rewrite ?app_nil_r.
Qed.

Lemma acquire_entity_camera e (m : Renderer.entity_lists) (c : option Renderer.Camera) :
  Renderer.IsActive e = true ->
  (Renderer.acquire_entity (m, c) (Some e)).2
  = match Renderer.GetCamera e with Some camera => Some camera | None => c end.
Proof.
  intros Hactive. unfold Renderer.acquire_entity. rewrite Hactive. cbn [negb].
  by destruct (Renderer.GetCamera e).
Qed.

Lemma filter_cons_bool {A : Type} (f : A -> bool) (x : A) (l : list A) :
  filter (fun a => f a) (x :: l)
  = if f x then x :: filter (fun a => f a) l else filter (fun a => f a) l.
Proof.
  destruct (f x) eqn:Hx.
  - apply filter_cons_True. by rewrite Hx.
  - apply filter_cons_False. rewrite Hx. intros [].
Qed.

Lemma acquire_entities_lists entities :
  forall (m : Renderer.entity_lists) (c : option Renderer.Camera) t,
  (fold_left Renderer.acquire_entity entities (m, c)).1 t
  = m t ++ filter (fun e => belongs_to t e) (active_entities entities).
Proof.
  induction entities as [|entity entities IH]; intros m c t.
  - cbn. by rewrite app_nil_r.
  - cbn [fold_left active_entities omap list_omap].
    destruct entity as [e|]; [destruct (Renderer.IsActive e) eqn:Hactive|].
    + destruct (Renderer.acquire_entity (m, c) (Some e)) as [m' c'] eqn:Hstep.
      rewrite IH. change m' with (m', c').1. rewrite <- Hstep.
      rewrite acquire_entity_lists by done.
      rewrite filter_cons_bool. destruct (belongs_to t e).
      * by rewrite <- app_assoc.
      * by rewrite app_nil_r.
    + unfold Renderer.acquire_entity at 2. rewrite Hactive. cbn [negb]. apply IH.
    + apply IH.
Qed.

Lemma acquire_entities_camera entities :
  forall (m : Renderer.entity_lists) (c : option Renderer.Camera),
  (fold_left Renderer.acquire_entity entities (m, c)).2
  = match last (omap Renderer.GetCamera (active_entities entities)) with
    | Some camera => Some camera
    | None => c
    end.
Proof.
  induction entities as [|entity entities IH]; intros m c; [done|].
  cbn [fold_left active_entities omap list_omap].
  destruct entity as [e|]; [destruct (Renderer.IsActive e) eqn:Hactive|].
  - destruct (Renderer.acquire_entity (m, c) (Some e)) as [m' c'] eqn:Hstep.
    rewrite IH. change c' with (m', c').2. rewrite <- Hstep.
    rewrite acquire_entity_camera by done. cbn [omap list_omap].
    destruct (Renderer.GetCamera e) as [camera|]; [|done].
    rewrite last_cons. by destruct (last _).
  - unfold Renderer.acquire_entity at 2. rewrite Hactive. cbn [negb]. apply IH.
  - apply IH.
Qed.

Lemma filter_split {A : Type} (P Q R : A -> bool) (l : list A) :
  (forall a, P a = Q a || R a) -> (forall a, Q a && R a = false) ->
  filter (fun a => Q a) l ++ filter (fun a => R a) l ≡ₚ filter (fun a => P a) l.
Proof.
  intros Hor Hapart. induction l as [|a l IH]; [done|].
  specialize (Hor a). specialize (Hapart a). rewrite !filter_cons_bool, Hor.
  destruct (Q a), (R a); cbn in *; try done.
  - by rewrite IH.
  - rewrite <- Permutation_middle. by rewrite IH.
Qed.

Lemma last_camera (l : list Renderer.Entity) :
  last (omap Renderer.GetCamera l)
  = last (filter (fun e => belongs_to Renderer.Renderer_Object_Camera e) l)
      ≫= Renderer.GetCamera.
Proof.
  induction l as [|e rest IH]; [done|].
  rewrite filter_cons_bool. cbn [omap list_omap belongs_to].
  destruct (Renderer.GetCamera e) as [camera|] eqn:Hcam.
  - rewrite bool_decide_eq_true_2 by eauto. rewrite !last_cons, IH.
    destruct (last (filter _ rest)) as [e'|] eqn:Hlast; cbn.
    + apply last_Some in Hlast as [l' Hl'].
      assert (He' : e' ∈ filter (fun e => belongs_to Renderer.Renderer_Object_Camera e) rest)
        by (rewrite Hl'; apply elem_of_app; right; by left).
      apply list_elem_of_filter in He' as [He' _]. cbn in He'.
      apply bool_decide_unpack in He' as [camera' ->]. done.
    + done.
  - rewrite bool_decide_eq_false_2 by (by apply is_Some_None). exact IH.
Qed.

Section Acquire.
Context `{StdSort}.

Lemma RenderablesSort_perm camera renderables :
  Renderer.RenderablesSort camera renderables ≡ₚ renderables.
Proof.
  unfold Renderer.RenderablesSort. destruct camera as [camera|]; [|done].
  case_match; [done|]. apply std_sort_perm, render_hash_less_swo.
Qed.

(** X12. [RenderablesAcquire] loses and duplicates no renderable: whatever
    its lists held before, afterwards the opaque list is a rearrangement of
    the non-null, active entities with a renderable that is not transparent,
    the transparent list one of those with a material whose albedo alpha is
    below one, and the two together a rearrangement of all active entities
    with a renderable. When no entity carries a camera the two lists keep the
    order of the input. *)
Theorem RenderablesAcquire_keeps_renderables entities :
  let acquired := Renderer.RenderablesAcquire entities in
  let active := active_entities entities in
  acquired.1 Renderer.Renderer_Object_Opaque
    ≡ₚ filter (fun e => belongs_to Renderer.Renderer_Object_Opaque e) active /\
  acquired.1 Renderer.Renderer_Object_Transparent
    ≡ₚ filter (fun e => is_transparent e) active /\
  acquired.1 Renderer.Renderer_Object_Opaque ++ acquired.1 Renderer.Renderer_Object_Transparent
    ≡ₚ filter (fun e => bool_decide (is_Some (Renderer.GetRenderable e))) active /\
  (acquired.2 = None ->
   acquired.1 Renderer.Renderer_Object_Opaque
     = filter (fun e => belongs_to Renderer.Renderer_Object_Opaque e) active /\
   acquired.1 Renderer.Renderer_Object_Transparent
     = filter (fun e => is_transparent e) active).
Proof.
  intros acquired active. subst acquired. unfold Renderer.RenderablesAcquire.
  destruct (fold_left _ _ _) as [m camera] eqn:Hfold.
  assert (Hlists : forall t, m t = filter (fun e => belongs_to t e) active).
  { intros t. change m with (m, camera).1. rewrite <- Hfold.
    apply (acquire_entities_lists entities (fun _ => []) None). }
  cbn [fst snd app] in *. unfold Renderer.set_entities.
  repeat case_decide; try congruence. rewrite !Hlists.
  assert (Hopaque := RenderablesSort_perm camera
            (filter (fun e => belongs_to Renderer.Renderer_Object_Opaque e) active)).
  assert (Htransparent := RenderablesSort_perm camera
            (filter (fun e => belongs_to Renderer.Renderer_Object_Transparent e) active)).
  split; [done|]. split; [done|]. split.
  - rewrite Hopaque, Htransparent. apply filter_split.
    + intros e. cbn. unfold is_transparent.
      destruct (Renderer.GetRenderable e) as [renderable|]; [|done].
      rewrite bool_decide_eq_true_2 by eauto.
      destruct (Renderer.GetMaterial renderable) as [material|]; [|done].
      by destruct (Qle_bool 1 (Renderer.GetColorAlbedo_w material)).
    + intros e. cbn. by destruct (is_transparent e), (bool_decide _).
  - by intros ->.
Qed.

(** X13. The light lists and the camera list of [RenderablesAcquire] are
    not sorted: each holds, in the order of the input, the non-null, active
    entities with a light (of its type) or with a camera; every light of the
    light list is in exactly one of the three typed lists; and the camera the
    renderer keeps is the one of the last entity of the camera list. *)
Theorem RenderablesAcquire_lights_and_camera entities :
  let acquired := Renderer.RenderablesAcquire entities in
  let active := active_entities entities in
  (forall t, t <> Renderer.Renderer_Object_Opaque ->
             t <> Renderer.Renderer_Object_Transparent ->
             acquired.1 t = filter (fun e => belongs_to t e) active) /\
  acquired.1 Renderer.Renderer_Object_LightDirectional ++
  (acquired.1 Renderer.Renderer_Object_LightPoint ++
   acquired.1 Renderer.Renderer_Object_LightSpot)
    ≡ₚ acquired.1 Renderer.Renderer_Object_Light /\
  acquired.2
  = (last (acquired.1 Renderer.Renderer_Object_Camera) ≫= Renderer.GetCamera).
Proof.
  intros acquired active. subst acquired. unfold Renderer.RenderablesAcquire.
  destruct (fold_left _ _ _) as [m camera] eqn:Hfold.
  assert (Hlists : forall t, m t = filter (fun e => belongs_to t e) active).
  { intros t. change m with (m, camera).1. rewrite <- Hfold.
    apply (acquire_entities_lists entities (fun _ => []) None). }
  assert (Hcamera : camera = match last (omap Renderer.GetCamera active) with
                             | Some camera => Some camera
                             | None => None
                             end).
  { change camera with (m, camera).2. rewrite <- Hfold.
    apply (acquire_entities_camera entities (fun _ => []) None). }
  cbn [fst snd app] in *. unfold Renderer.set_entities.
  assert (Hother : forall t, t <> Renderer.Renderer_Object_Opaque ->
             t <> Renderer.Renderer_Object_Transparent ->
             (if decide (t = Renderer.Renderer_Object_Transparent)
              then Renderer.RenderablesSort camera
                     (if decide (Renderer.Renderer_Object_Transparent
                                 = Renderer.Renderer_Object_Opaque)
                      then Renderer.RenderablesSort camera (m Renderer.Renderer_Object_Opaque)
                      else m Renderer.Renderer_Object_Transparent)
              else if decide (t = Renderer.Renderer_Object_Opaque)
                   then Renderer.RenderablesSort camera (m Renderer.Renderer_Object_Opaque)
                   else m t)
             = filter (fun e => belongs_to t e) active).
  { intros t H1 H2. rewrite !decide_False by done. by rewrite Hlists. }
  split; [exact Hother|]. rewrite !Hother by done. split.
  - etransitivity; [apply Permutation_app; [done|apply filter_split]|apply filter_split].
    + intros e. reflexivity.
    + intros e. cbn. unfold has_light_of.
      destruct (Renderer.GetLight e) as [light|]; [|done].
      by destruct (Renderer.GetLightType light).
    + intros e. cbn. unfold has_light_of.
      destruct (Renderer.GetLight e) as [light|]; [|done].
      rewrite bool_decide_eq_true_2 by eauto. by destruct (Renderer.GetLightType light).
    + intros e. cbn. unfold has_light_of.
      destruct (Renderer.GetLight e) as [light|]; [|done].
      by destruct (Renderer.GetLightType light).
  - rewrite Hcamera, last_camera. by destruct (_ ≫= _).
Qed.

End Acquire.

(** ** Renderer: debug lines *)

Section DebugLineDrawing.
Context {float color : Type}.

Lemma drawn_into_DrawLine (from to : @DebugLines.Vector3 float) (color_from color_to : color)
  depth lists :
  DebugLines.drawn_into depth (DebugLines.DrawLine from to color_from color_to depth lists)
  = DebugLines.drawn_into depth lists ++ [(from, color_from); (to, color_to)].
Proof. by destruct depth. Qed.

Lemma left_alone_DrawLine (from to : @DebugLines.Vector3 float) (color_from color_to : color)
  depth lists :
  DebugLines.left_alone depth (DebugLines.DrawLine from to color_from color_to depth lists)
  = DebugLines.left_alone depth lists.
Proof. by destruct depth. Qed.

(** X14. [DrawBox] appends twenty-four vertices of the given colour to the
    list the depth flag picks and leaves the other list alone; read as
    twelve segments they are the twelve edges of the box: any two corners
    that differ along exactly one axis are joined by a segment, in one
    direction or the other. *)
Theorem DrawBox_draws_the_edges (box : @DebugLines.BoundingBox float) (c : color)
  (depth : bool) (lists : DebugLines.line_lists) :
  let drawn := DebugLines.DrawBox box c depth lists in
  exists new,
    DebugLines.drawn_into depth drawn = DebugLines.drawn_into depth lists ++ new /\
    DebugLines.left_alone depth drawn = DebugLines.left_alone depth lists /\
    length new = 24%nat /\
    Forall (fun v => v.2 = c) new /\
    forall a b, DebugLines.joined_by_edge a b = true ->
      ((DebugLines.corner box a, c), (DebugLines.corner box b, c)) ∈ DebugLines.segments new \/
      ((DebugLines.corner box b, c), (DebugLines.corner box a, c)) ∈ DebugLines.segments new.
Proof.
  intros drawn. subst drawn. unfold DebugLines.DrawBox. cbn zeta.
  rewrite !drawn_into_DrawLine, !left_alone_DrawLine, <- !app_assoc. cbn [app].
  eexists. split; [reflexivity|]. split; [reflexivity|]. split; [|split].
  - reflexivity.
  - by repeat constructor.
  - intros a b Hedge.
    set (edges :=
      [((false, false, false), (true, false, false));
       ((true, false, false), (true, true, false));
       ((true, true, false), (false, true, false));
       ((false, true, false), (false, false, false));
       ((false, false, false), (false, false, true));
       ((true, false, false), (true, false, true));
       ((true, true, false), (true, true, true));
       ((false, true, false), (false, true, true));
       ((false, false, true), (true, false, true));
       ((true, false, true), (true, true, true));
       ((true, true, true), (false, true, true));
       ((false, true, true), (false, false, true))]).
    set (segment := fun ab : (bool * bool * bool) * (bool * bool * bool) =>
                      ((DebugLines.corner box ab.1, c), (DebugLines.corner box ab.2, c))).
    change (DebugLines.segments _) with (segment <$> edges).
    assert (Hin : (a, b) ∈ edges \/ (b, a) ∈ edges).
    { destruct a as [[ax ay] az], b as [[bx by_] bz].
      destruct ax, ay, az, bx, by_, bz; try discriminate Hedge; clear; compute_done. }
    destruct Hin as [Hin|Hin]; [left|right];
      exact (list_elem_of_fmap_2 segment _ _ Hin).
Qed.

Variable add : float -> float -> float.
Variable float_5 : float.

(** X15. With a camera, [DrawRectangle] appends four segments of the given
    colour to the list the depth flag picks and leaves the other alone: each
    segment starts where the one before it ends and the last ends where the
    first starts, all at the one depth made of the camera's z, its near plane
    and 5. Without a camera the call does not return. *)
Theorem DrawRectangle_closes_the_outline (rectangle : @DebugLines.Rectangle float)
  (c : color) (depth : bool) (camera : DebugLines.Camera) (lists : DebugLines.line_lists) :
  let cam_z := add (add (DebugLines.GetPosition_z camera) (DebugLines.GetNearPlane camera))
                 float_5 in
  DebugLines.DrawRectangle add float_5 rectangle c depth None lists = None /\
  exists drawn s1 s2 s3 s4,
    DebugLines.DrawRectangle add float_5 rectangle c depth (Some camera) lists = Some drawn /\
    DebugLines.drawn_into depth drawn
    = DebugLines.drawn_into depth lists ++ [s1.1; s1.2; s2.1; s2.2; s3.1; s3.2; s4.1; s4.2] /\
    DebugLines.left_alone depth drawn = DebugLines.left_alone depth lists /\
    s1.2 = s2.1 /\ s2.2 = s3.1 /\ s3.2 = s4.1 /\ s4.2 = s1.1 /\
    Forall (fun v : DebugLines.vertex => DebugLines.z v.1 = cam_z /\ v.2 = c)
      [s1.1; s2.1; s3.1; s4.1] /\
    s1.1.1 = DebugLines.Vector3_new (DebugLines.left rectangle) (DebugLines.top rectangle) cam_z /\
    s3.1.1 = DebugLines.Vector3_new (DebugLines.right rectangle) (DebugLines.bottom rectangle)
               cam_z.
Proof.
  intros cam_z. split; [done|].
  unfold DebugLines.DrawRectangle. fold cam_z. cbn zeta.
  eexists _, (_, _), (_, _), (_, _), (_, _). split; [reflexivity|].
  rewrite !drawn_into_DrawLine, !left_alone_DrawLine, <- !app_assoc. cbn [app fst snd].
  split; [reflexivity|]. split; [reflexivity|]. cbn. by repeat split; repeat constructor.
Qed.

End DebugLineDrawing.

(** ** Renderer: single post-process passes *)

Section SinglePasses.
Context `{Renderer.Backend}.
Variable r : Renderer.Renderer.
Hypothesis begin_ok : forall pso, Renderer.Begin_succeeds pso = true.

(** X16. With every shader compiled and [Begin] succeeding, [Pass_Bloom]
    over a chain of n bloom textures begins 2n passes: the luminance pass,
    n - 1 downsamples, n - 1 upsamples and the blend. When the chain has no
    repeats and does not hold the input texture, the output texture ends up
    with the blend of the input and the image that went down and up the
    chain; for a chain of one texture that image is the luminance pass
    alone. *)
Theorem Pass_Bloom_blends_the_pyramid tex_in tex_out g :
  (forall s, Renderer.IsCompiled r s = true) ->
  Renderer.m_render_tex_bloom r <> [] ->
  let n := length (Renderer.m_render_tex_bloom r) in
  let commands := Renderer.Pass_Bloom tex_in tex_out r in
  begun_passes commands
  = ["Pass_Bloom_Luminance"] ++ replicate (n - 1) "Pass_Downsample" ++
    replicate (n - 1) "Pass_Bloom_Upsample" ++ ["Pass_Bloom_Additive_Blending"] /\
  length (begun_passes commands) = (2 * n)%nat /\
  (NoDup (Renderer.m_render_tex_bloom r) -> tex_in ∉ Renderer.m_render_tex_bloom r ->
   contents (exec commands g) tex_out
   = Image_Shaded "Pass_Bloom_Additive_Blending"
       [contents g tex_in; bloom_pyramid n (contents g tex_in)]) /\
  (n = 1%nat ->
   bloom_pyramid n (contents g tex_in)
   = Image_Shaded "Pass_Bloom_Luminance" [contents g tex_in]).
Proof.
  intros all_compiled Hfilled n commands. subst commands.
  pose proof (begun_passes_Pass_Bloom r all_compiled begin_ok tex_in tex_out) as Hpasses.
  fold n in Hpasses. split; [exact Hpasses|]. split; [|split].
  - rewrite Hpasses, !length_app, !length_replicate. cbn [length].
    assert (n <> 0%nat) by (subst n; by destruct (Renderer.m_render_tex_bloom r)). lia.
  - intros Hnd Hin. by apply exec_Pass_Bloom.
  - by intros ->.
Qed.

(** X17. [Pass_FXAA] hands its two texture references back swapped only
    when it runs. With its three shaders compiled, [Begin] succeeding and
    two different textures, the luminance pass renders the input into the
    output texture, the FXAA pass renders that back into the input texture,
    and no other texture changes; with one of the shaders not compiled
    nothing is recorded and the references stay as they were. *)
Theorem Pass_FXAA_swaps_when_it_runs tex_in tex_out g :
  tex_in <> tex_out ->
  let run := Renderer.Pass_FXAA tex_in tex_out r in
  let luminance := Image_Shaded "Pass_FXAA_Luminance" [contents g tex_in] in
  (Renderer.IsCompiled r Renderer.Shader_Quad_V = true ->
   Renderer.IsCompiled r Renderer.Shader_Luma_P = true ->
   Renderer.IsCompiled r Renderer.Shader_Fxaa_P = true ->
   run.2 = (tex_out, tex_in) /\
   begun_passes run.1 = ["Pass_FXAA_Luminance"; "Pass_FXAA_FXAA"] /\
   contents (exec run.1 g) tex_out = luminance /\
   contents (exec run.1 g) tex_in = Image_Shaded "Pass_FXAA_FXAA" [luminance] /\
   forall t, t <> tex_in -> t <> tex_out -> contents (exec run.1 g) t = contents g t) /\
  (Renderer.IsCompiled r Renderer.Shader_Quad_V = false \/
   Renderer.IsCompiled r Renderer.Shader_Luma_P = false \/
   Renderer.IsCompiled r Renderer.Shader_Fxaa_P = false ->
   run = ([], (tex_in, tex_out))).
Proof.
  intros Hdiff run luminance. subst run luminance. unfold Renderer.Pass_FXAA. split.
  - intros -> -> ->. cbn [negb orb fst snd]. unfold Renderer.begun. rewrite !begin_ok.
    split; [done|]. split; [done|].
    cbn [exec fold_left exec_command app Renderer.bind_quad Renderer.draw_quad
         Renderer.quad_state Renderer.render_target_color_texture Renderer.pass_name
         contents bound_pipeline bound_textures fmap list_fmap].
    unfold write. split; [|split].
    + rewrite decide_False by (by apply not_eq_sym). by rewrite decide_True.
    + by rewrite !decide_True.
    + intros t Hin Hout. by rewrite !decide_False.
  - intros [-> | [-> | ->]]; cbn [negb orb]; by rewrite ?orb_true_r.
Qed.

(** Commands recorded between [Begin] and the next [Begin] draw into the
    colour target of the pipeline state and nowhere else. *)
Lemma begun_frame pipeline_state tex_out body g t :
  Renderer.render_target_color_texture pipeline_state = Some tex_out ->
  t <> tex_out ->
  Forall (fun c => forall other, c <> Renderer.Cmd_Begin other) body ->
  contents (exec (Renderer.begun pipeline_state body) g) t = contents g t.
Proof.
  intros Htarget Ht Hbody. unfold Renderer.begun. rewrite begin_ok.
  cbn [exec fold_left exec_command].
  set (g0 := {| contents := contents g; bound_pipeline := Some pipeline_state;
                bound_textures := [] |}).
  assert (Hinv : bound_pipeline g0 = Some pipeline_state /\ contents g0 t = contents g t)
    by done.
  clearbody g0. revert g0 Hinv.
  induction Hbody as [|c body Hc Hbody IH]; intros g0 [Hbound Hsame]; [done|].
  cbn [fold_left]. apply IH.
  destruct c as [other| | |slot [texture|]| | | |]; cbn; try done.
  - by destruct (Hc other).
  - rewrite Hbound, Htarget. cbn. split; [done|]. unfold write. by rewrite decide_False.
Qed.

(** X18. A post-process stage whose option is on but whose shader is not
    compiled records nothing, and the pair is swapped all the same. With
    dithering the only option set, its pixel shader not compiled and the
    gamma-correction shaders compiled, gamma correction therefore samples the
    second LDR texture, which no pass of the chain has written, and renders
    over the tone-mapped image: what the LDR composition target holds at the
    end does not depend on the HDR composition. *)
Theorem uncompiled_stage_still_swaps g :
  Renderer.GetOption Renderer.Render_Dithering r = true ->
  Forall (fun option => Renderer.GetOption option r = false)
    [Renderer.Render_AntiAliasing_Taa; Renderer.Render_MotionBlur; Renderer.Render_Bloom;
     Renderer.Render_AntiAliasing_Fxaa; Renderer.Render_Sharpening_LumaSharpen;
     Renderer.Render_ChromaticAberration] ->
  Renderer.IsCompiled r Renderer.Shader_Dithering_P = false ->
  Renderer.IsCompiled r Renderer.Shader_GammaCorrection_P = true ->
  Renderer.IsCompiled r Renderer.Shader_Quad_V = true ->
  let targets := Renderer.m_render_targets r in
  Renderer.RenderTarget_Composition_Ldr targets
    <> Renderer.RenderTarget_Composition_Ldr_2 targets ->
  let run := Renderer.Pass_PostProcess r in
  Renderer.RenderTarget_Composition_Ldr run.2 = Renderer.RenderTarget_Composition_Ldr targets /\
  ("Pass_Dithering" ∉ begun_passes run.1) /\
  contents (exec run.1 g) (Renderer.RenderTarget_Composition_Ldr run.2)
  = Image_Shaded "Pass_GammaCorrection"
      [contents g (Renderer.RenderTarget_Composition_Ldr_2 targets)].
Proof.
  intros Hdither Hoff Hshader Hgamma Hquad targets Hdiff run. subst run.
  repeat match goal with
         | Hoff : Forall _ (_ :: _) |- _ => apply Forall_cons in Hoff as [? Hoff]
         end.
  unfold Renderer.Pass_PostProcess, Renderer.optional_stage.
  repeat match goal with Hoption : Renderer.GetOption _ r = _ |- _ => rewrite Hoption end.
  fold targets. cbn [fst snd app Renderer.RenderTarget_Composition_Ldr].
  unfold Renderer.Pass_Dithering, Renderer.Pass_GammaCorrection.
  rewrite Hshader, Hgamma, Hquad. cbn [negb orb app].
  split; [done|]. rewrite begun_passes_app, exec_app.
  set (tone := if negb (Qeq_bool (Renderer.Option_Value_Tonemapping r) 0)
               then Renderer.Pass_ToneMapping _ _ r else Renderer.Pass_Copy _ _ r).
  assert (Htone : contents (exec tone g) (Renderer.RenderTarget_Composition_Ldr_2 targets)
                  = contents g (Renderer.RenderTarget_Composition_Ldr_2 targets) /\
                  ("Pass_Dithering" ∉ begun_passes tone)).
  { subst tone. unfold Renderer.Pass_ToneMapping, Renderer.Pass_Copy.
    destruct (negb (Qeq_bool _ _)); (destruct (_ || _); [split; [done|apply not_elem_of_nil]|]);
      (split; [apply (begun_frame _ (Renderer.RenderTarget_Composition_Ldr targets));
                 [done|by apply not_eq_sym|by repeat constructor]|]);
      unfold Renderer.begun; rewrite begin_ok; cbn;
      by intros [Heq|Hin%elem_of_nil]%elem_of_cons. }
  destruct Htone as [Hframe Hnames]. split.
  - unfold Renderer.begun. rewrite begin_ok. cbn.
    intros [Hin|Hin]%elem_of_app; [done|].
    by apply elem_of_cons in Hin as [Heq|Hin%elem_of_nil].
  - unfold Renderer.begun. rewrite begin_ok.
    cbn [exec fold_left exec_command app Renderer.bind_quad Renderer.draw_quad
         Renderer.quad_state Renderer.render_target_color_texture Renderer.pass_name
         contents bound_pipeline bound_textures fmap list_fmap].
    unfold write. rewrite decide_True by done. by rewrite Hframe.
Qed.

End SinglePasses.

Lemma Pass_Bloom_blends_the_pyramid_witness :
  length (begun_passes (@Renderer.Pass_Bloom example_backend 1 2 (empty_scene 0 1))) = 6%nat.
Proof.
  destruct (@Pass_Bloom_blends_the_pyramid example_backend (empty_scene 0 1)
              (fun _ => eq_refl) 1 2 gpu_before (fun _ => eq_refl) ltac:(discriminate))
    as (_ & Hlength & _).
  exact Hlength.
Defined.

Lemma Pass_FXAA_swaps_when_it_runs_witness :
  (@Renderer.Pass_FXAA example_backend 3 4 (empty_scene 32 1)).2 = (4, 3) /\
  contents (exec (@Renderer.Pass_FXAA example_backend 3 4 (empty_scene 32 1)).1 gpu_before) 3
  = Image_Shaded "Pass_FXAA_FXAA" [Image_Shaded "Pass_FXAA_Luminance" [Image_Before 3]].
Proof.
  destruct (@Pass_FXAA_swaps_when_it_runs example_backend (empty_scene 32 1)
              (fun _ => eq_refl) 3 4 gpu_before ltac:(discriminate)) as [Hruns _].
  destruct (Hruns eq_refl eq_refl eq_refl) as (Hswap & _ & _ & Himage & _).
  split; [exact Hswap|exact Himage].
Defined.

Lemma uncompiled_stage_still_swaps_witness :
  let r := {| Renderer.m_options := 16;
              Renderer.Option_Value_Tonemapping := 1;
              Renderer.IsCompiled s :=
                match s with Renderer.Shader_Dithering_P => false | _ => true end;
              Renderer.m_entities _ := [];
              Renderer.m_render_targets := example_targets;
              Renderer.m_render_tex_bloom := [10; 11; 12];
              Renderer.m_tex_white := 20 |} in
  begun_passes (@Renderer.Pass_PostProcess example_backend r).1
  = ["Pass_ToneMapping"; "Pass_GammaCorrection"] /\
  contents (exec (@Renderer.Pass_PostProcess example_backend r).1 gpu_before) 3
  = Image_Shaded "Pass_GammaCorrection" [Image_Before 4].
Proof.
  intros r.
  destruct (@uncompiled_stage_still_swaps example_backend r (fun _ => eq_refl) gpu_before
              eq_refl ltac:(by repeat constructor) eq_refl eq_refl eq_refl
              ltac:(discriminate)) as (_ & _ & Himage).
  split; [reflexivity|exact Himage].
Defined.

(** ** Renderer: what the depth passes draw *)

Lemma draws_app l1 l2 : draws (l1 ++ l2) = draws l1 ++ draws l2.
Proof. apply filter_app. Qed.

Lemma draws_depth_prepass_entities entities : forall bound,
  draws (Renderer.depth_prepass_entities bound entities)
  = draw_of <$> omap visible_to_camera entities.
Proof.
  induction entities as [|e entities IH]; intros bound; [done|].
  cbn [Renderer.depth_prepass_entities omap list_omap]. unfold visible_to_camera at 1.
  destruct (Renderer.GetRenderable e) as [renderable|]; [|apply IH].
  destruct (Renderer.geometry_ready renderable); [|apply IH].
  destruct (Renderer.in_view_frustrum renderable); [|apply IH].
  cbn [negb andb fmap list_fmap]. rewrite !draws_app, IH.
  by destruct (negb _).
Qed.

Lemma index_buffers_depth_prepass_entities entities : forall bound tail,
  (forall b, index_buffer_at_draws b tail = []) ->
  index_buffer_at_draws (Some (Renderer.Model bound))
    (Renderer.depth_prepass_entities bound entities ++ tail)
  = (fun renderable => Some (Renderer.Model (Renderer.Geometry_GetId renderable)))
      <$> omap visible_to_camera entities.
Proof.
  induction entities as [|e entities IH]; intros bound tail Htail; [apply Htail|].
  cbn [Renderer.depth_prepass_entities omap list_omap]. unfold visible_to_camera at 1.
  destruct (Renderer.GetRenderable e) as [renderable|]; [|by apply IH].
  destruct (Renderer.geometry_ready renderable); [|by apply IH].
  destruct (Renderer.in_view_frustrum renderable); [|by apply IH].
  cbn [negb andb fmap list_fmap].
  destruct (Z.eqb_spec bound (Renderer.Geometry_GetId renderable)) as [->|Hne];
    cbn; by rewrite IH.
Qed.

Lemma index_buffers_depth_prepass_unbound entities tail :
  (forall b, index_buffer_at_draws b tail = []) ->
  Forall (fun renderable => Renderer.Geometry_GetId renderable <> 0)
    (omap visible_to_camera entities) ->
  index_buffer_at_draws None (Renderer.depth_prepass_entities 0 entities ++ tail)
  = (fun renderable => Some (Renderer.Model (Renderer.Geometry_GetId renderable)))
      <$> omap visible_to_camera entities.
Proof.
  intros Htail. induction entities as [|e entities IH]; intros Hids; [apply Htail|].
  cbn [Renderer.depth_prepass_entities omap list_omap] in *.
  unfold visible_to_camera at 1. unfold visible_to_camera at 1 in Hids.
  destruct (Renderer.GetRenderable e) as [renderable|]; [|by apply IH].
  destruct (Renderer.geometry_ready renderable); [|by apply IH].
  destruct (Renderer.in_view_frustrum renderable); [|by apply IH].
  cbn [negb andb fmap list_fmap] in *. apply Forall_cons in Hids as [Hid _].
  destruct (Z.eqb_spec 0 (Renderer.Geometry_GetId renderable)) as [Hzero|Hne];
    [by destruct Hid|].
  cbn. by rewrite index_buffers_depth_prepass_entities.
Qed.

Lemma index_buffers_depth_prepass_first entities tail renderable rest :
  omap visible_to_camera entities = renderable :: rest ->
  Renderer.Geometry_GetId renderable = 0 ->
  head (index_buffer_at_draws None (Renderer.depth_prepass_entities 0 entities ++ tail))
  = Some None.
Proof.
  intros Hvisible Hzero. induction entities as [|e entities IH]; [done|].
  cbn [Renderer.depth_prepass_entities omap list_omap] in *.
  unfold visible_to_camera at 1 in Hvisible.
  destruct (Renderer.GetRenderable e) as [first|]; [|by apply IH].
  destruct (Renderer.geometry_ready first); [|by apply IH].
  destruct (Renderer.in_view_frustrum first); [|by apply IH].
  cbn [negb andb] in *. injection Hvisible as -> _. by rewrite Hzero.
Qed.

Section DepthDraws.
Context `{Renderer.Backend}.

(** X19. With its shader compiled and [Begin] succeeding, the depth
    pre-pass records one draw call per opaque entity that has a renderable
    with geometry inside the view frustum, in the order of the list, and
    none for any other. It binds index and vertex buffer only when the
    geometry id differs from the last one it bound, starting from the id 0:
    when no drawn renderable has the geometry id 0 every draw finds the index
    buffer of its own geometry bound, whereas a first drawn renderable with
    geometry id 0 is drawn without the pass having bound any buffer. *)
Theorem Pass_DepthPrePass_draws_what_the_camera_sees r :
  Renderer.IsCompiled r Renderer.Shader_Depth_V = true ->
  Renderer.Begin_succeeds (Renderer.depth_prepass_state r) = true ->
  let visible :=
    omap visible_to_camera (Renderer.m_entities r Renderer.Renderer_Object_Opaque) in
  let own_geometry :=
    (fun renderable => Some (Renderer.Model (Renderer.Geometry_GetId renderable)))
      <$> visible in
  draws (Renderer.Pass_DepthPrePass r) = draw_of <$> visible /\
  index_buffer_at_draws (Some (Renderer.Model 0)) (Renderer.Pass_DepthPrePass r)
  = own_geometry /\
  (Forall (fun renderable => Renderer.Geometry_GetId renderable <> 0) visible ->
   index_buffer_at_draws None (Renderer.Pass_DepthPrePass r) = own_geometry) /\
  (forall first rest, visible = first :: rest -> Renderer.Geometry_GetId first = 0 ->
   head (index_buffer_at_draws None (Renderer.Pass_DepthPrePass r)) = Some None).
Proof.
  intros Hcompiled Hbegin visible own_geometry. subst visible own_geometry.
  unfold Renderer.Pass_DepthPrePass, Renderer.begun. rewrite Hcompiled, Hbegin.
  cbn [negb].
  assert (Hlist : forall entities : list Renderer.Entity,
            match entities with
            | [] => []
            | e :: rest => Renderer.depth_prepass_entities 0 (e :: rest)
            end = Renderer.depth_prepass_entities 0 entities) by (by intros []).
  rewrite Hlist. split; [|split; [|split]].
  - change (draws (?c :: ?l)) with (draws l).
    rewrite draws_app, draws_depth_prepass_entities. apply app_nil_r.
  - cbn [index_buffer_at_draws]. by apply index_buffers_depth_prepass_entities.
  - intros Hids. cbn [index_buffer_at_draws].
    by apply index_buffers_depth_prepass_unbound.
  - intros first rest Hvisible Hzero. cbn [index_buffer_at_draws].
    by eapply index_buffers_depth_prepass_first.
Qed.

End DepthDraws.

Lemma Pass_DepthPrePass_draws_what_the_camera_sees_witness :
  draws (@Renderer.Pass_DepthPrePass example_backend lit_scene)
  = [Renderer.Cmd_DrawIndexed 36 0 0; Renderer.Cmd_DrawIndexed 36 0 0] /\
  index_buffer_at_draws None (@Renderer.Pass_DepthPrePass example_backend lit_scene)
  = [Some (Renderer.Model 1); Some (Renderer.Model 1)].
Proof.
  destruct (@Pass_DepthPrePass_draws_what_the_camera_sees example_backend lit_scene
              eq_refl eq_refl) as (Hdraws & _ & Hbound & _).
  split; [exact Hdraws|]. apply Hbound. by repeat constructor.
Defined.

(** ** Renderer: the shadow passes of Pass_LightDepth *)

Lemma begun_passes_no_begin commands :
  Forall (fun c => forall other, c <> Renderer.Cmd_Begin other) commands ->
  begun_passes commands = [].
Proof.
  induction 1 as [|c commands Hc _ IH]; [done|].
  unfold begun_passes in *. cbn [omap list_omap]. rewrite IH.
  destruct c; try done. by destruct (Hc pipeline_state).
Qed.

Section ShadowPasses.
Context `{Renderer.Backend}.

Lemma light_depth_entities_draws tex_white light_index array_index entities :
  forall material_id c,
    c ∈ Renderer.light_depth_entities tex_white light_index array_index material_id entities ->
    (forall other, c <> Renderer.Cmd_Begin other) /\
    (is_draw c = true ->
     exists e renderable,
       e ∈ entities /\ shadow_caster e = Some renderable /\
       Renderer.in_light_frustrum renderable light_index array_index = true /\
       c = draw_of renderable).
Proof.
  induction entities as [|e entities IH]; intros material_id c Hc.
  { by apply elem_of_nil in Hc. }
  assert (Hrest : forall material_id,
            c ∈ Renderer.light_depth_entities tex_white light_index array_index
                  material_id entities ->
            (forall other, c <> Renderer.Cmd_Begin other) /\
            (is_draw c = true ->
             exists e' renderable,
               e' ∈ e :: entities /\ shadow_caster e' = Some renderable /\
               Renderer.in_light_frustrum renderable light_index array_index = true /\
               c = draw_of renderable)).
  { intros id Hin. destruct (IH id c Hin) as [Hbegin Hdraw]. split; [done|].
    intros Hd. destruct (Hdraw Hd) as (e' & renderable & He' & Hrest).
    exists e', renderable. split; [by right|done]. }
  cbn [Renderer.light_depth_entities] in Hc.
  destruct (Renderer.GetRenderable e) as [renderable|] eqn:Hrenderable; [|by eapply Hrest].
  destruct (Renderer.GetCastShadows renderable) eqn:Hcasts; cbn [negb] in Hc;
    [|by eapply Hrest].
  destruct (Renderer.geometry_ready renderable) eqn:Hready; cbn [negb] in Hc;
    [|by eapply Hrest].
  destruct (Renderer.GetMaterial renderable) as [material|] eqn:Hmaterial; [|by eapply Hrest].
  destruct (Renderer.in_light_frustrum renderable light_index array_index) eqn:Hfrustrum;
    cbn [negb] in Hc; [|by eapply Hrest].
  destruct (Renderer.UpdateObjectBuffer e array_index) as [updated rebound].
  rewrite !elem_of_app in Hc. destruct Hc as [Hc|[Hc|[Hc|[Hc|Hc]]]].
  - destruct (negb _); [|by apply elem_of_nil in Hc].
    apply list_elem_of_singleton in Hc as ->. by split.
  - apply elem_of_cons in Hc as [->|Hc]; [by split|].
    apply list_elem_of_singleton in Hc as ->. by split.
  - destruct rebound; [|by apply elem_of_nil in Hc].
    apply list_elem_of_singleton in Hc as ->. by split.
  - destruct updated; [|by apply elem_of_nil in Hc].
    apply list_elem_of_singleton in Hc as ->. split; [done|]. intros _.
    exists e, renderable. split; [by left|]. split; [|done].
    unfold shadow_caster. rewrite Hrenderable, Hcasts, Hready, Hmaterial.
    by rewrite bool_decide_eq_true_2 by eauto.
  - by eapply Hrest.
Qed.

Lemma begun_passes_concat_imap {A : Type} (l : list A) :
  forall (f : nat -> A -> list Renderer.command) (names : A -> list string),
    (forall i a, begun_passes (f i a) = names a) ->
    begun_passes (concat (imap f l)) = flat_map names l.
Proof.
  induction l as [|a l IH]; intros f names Hf; [done|].
  cbn [imap concat flat_map]. rewrite begun_passes_app, Hf. f_equal.
  apply IH. intros i a'. apply Hf.
Qed.

(** X20. With both depth shaders compiled, a non-empty entity list and
    [Begin] succeeding, [Pass_LightDepth] begins, light by light in the order
    of the light list, one shadow pass per slice of the light's depth-texture
    array, and none for a light without shadows or without depth texture; the
    transparent pass also leaves out the lights without transparent shadows.
    Whatever the state, every draw call it records is the draw of an entity
    of its list that casts shadows, has its geometry and a material and lies
    in the frustum of some light slice. *)
Theorem Pass_LightDepth_renders_the_shadow_slices object_type r :
  let transparent_pass := bool_decide (object_type = Renderer.Renderer_Object_Transparent) in
  let name := if transparent_pass then "Pass_LightShadowTransparent"
              else "Pass_LightShadow" in
  (Renderer.IsCompiled r Renderer.Shader_Depth_V = true ->
   Renderer.IsCompiled r Renderer.Shader_Depth_P = true ->
   Renderer.m_entities r object_type <> [] ->
   (forall pipeline_state, Renderer.Begin_succeeds pipeline_state = true) ->
   begun_passes (Renderer.Pass_LightDepth object_type r)
   = flat_map (fun light_entity => replicate (shadow_slices transparent_pass light_entity) name)
       (Renderer.m_entities r Renderer.Renderer_Object_Light)) /\
  (forall c, c ∈ Renderer.Pass_LightDepth object_type r -> is_draw c = true ->
     exists e renderable light_index array_index,
       e ∈ Renderer.m_entities r object_type /\
       shadow_caster e = Some renderable /\
       Renderer.in_light_frustrum renderable light_index array_index = true /\
       c = draw_of renderable).
Proof.
  intros transparent_pass name. unfold Renderer.Pass_LightDepth. fold transparent_pass.
  split.
  - intros -> -> Hentities begin_ok. cbn [negb orb].
    destruct (Renderer.m_entities r object_type) as [|e0 entities0] eqn:Hlist; [done|].
    apply begun_passes_concat_imap. intros light_index light_entity.
    unfold Renderer.light_depth_light, shadow_slices. fold name.
    destruct (Renderer.GetLight light_entity) as [light|]; [|done].
    destruct (Renderer.GetShadowsEnabled light); [|done]. cbn [negb andb].
    destruct transparent_pass, (Renderer.GetShadowsTransparentEnabled light);
      cbn [negb andb orb]; try done;
      (destruct (Renderer.GetDepthTexture light) as [[tex_depth array_size]|]; [|done]);
      generalize 0%nat;
      induction (Z.to_nat array_size) as [|n IH]; intros start; try done;
      cbn [seq flat_map replicate]; rewrite begun_passes_app, IH;
      unfold Renderer.begun; rewrite begin_ok;
      change (begun_passes (Renderer.Cmd_Begin ?p :: ?body))
        with (Renderer.pass_name p :: begun_passes body);
      (rewrite begun_passes_no_begin; [done|]);
      apply Forall_app; (split; [|by repeat constructor]);
      apply Forall_forall; intros c Hc;
      by apply light_depth_entities_draws in Hc as [Hbegin _].
  - intros c Hc Hdraw.
    destruct (negb _ || negb _); [by apply elem_of_nil in Hc|].
    destruct (Renderer.m_entities r object_type) as [|e0 entities0] eqn:Hlist;
      [by apply elem_of_nil in Hc|].
    apply list_elem_of_In, in_concat in Hc as (commands & Hcommands & Hc).
    apply list_elem_of_In, elem_of_lookup_imap_1 in Hcommands
      as (light_index & light_entity & -> & _).
    apply list_elem_of_In in Hc. unfold Renderer.light_depth_light in Hc.
    destruct (Renderer.GetLight light_entity) as [light|]; [|by apply elem_of_nil in Hc].
    destruct (negb (Renderer.GetShadowsEnabled light)); [by apply elem_of_nil in Hc|].
    destruct (transparent_pass && _); [by apply elem_of_nil in Hc|].
    destruct (Renderer.GetDepthTexture light) as [[tex_depth array_size]|];
      [|by apply elem_of_nil in Hc].
    apply list_elem_of_In, in_flat_map in Hc as (array_index & _ & Hc).
    apply list_elem_of_In in Hc. unfold Renderer.begun in Hc.
    destruct (Renderer.Begin_succeeds _); [|by apply elem_of_nil in Hc].
    apply elem_of_cons in Hc as [->|Hc]; [done|].
    apply elem_of_app in Hc as [Hc|Hc].
    + apply light_depth_entities_draws in Hc as [_ Hfound].
      destruct (Hfound Hdraw) as (e & renderable & He & Hcaster & Hfrustrum & ->).
      by exists e, renderable, light_index, (Z.of_nat array_index).
    + apply elem_of_cons in Hc as [->|Hc]; [done|].
      by apply list_elem_of_singleton in Hc as ->.
Qed.

End ShadowPasses.

Lemma Pass_LightDepth_renders_the_shadow_slices_witness :
  begun_passes (@Renderer.Pass_LightDepth example_backend Renderer.Renderer_Object_Opaque
                  lit_scene)
  = ["Pass_LightShadow"; "Pass_LightShadow"; "Pass_LightShadow"] /\
  begun_passes (@Renderer.Pass_LightDepth example_backend Renderer.Renderer_Object_Transparent
                  lit_scene)
  = [].
Proof.
  destruct (@Pass_LightDepth_renders_the_shadow_slices example_backend
              Renderer.Renderer_Object_Opaque lit_scene) as [Hpasses _].
  split; [|reflexivity].
  exact (Hpasses eq_refl eq_refl ltac:(discriminate) (fun _ => eq_refl)).
Defined.

(** ** ShaderVariation: the defines and the variation cache *)

Lemma has_flag_bit k v :
  0 <= k -> ShaderVariation.has_flag (Z.shiftl 1 k) v = Z.testbit (ShaderVariation.m_flags v) k.
Proof.
  intros Hk. unfold ShaderVariation.has_flag. rewrite flag_test_bit by done.
  destruct (Z.testbit _ k); [|done].
  rewrite Z.shiftl_1_l. destruct (Z.eqb_spec (2 ^ k) 0) as [Hzero|]; [|done].
  pose proof (Z.pow_pos_nonneg 2 k). lia.
Qed.

Lemma AddDefinesBasedOnMaterial_defines v :
  ShaderVariation.m_defines (ShaderVariation.AddDefinesBasedOnMaterial v)
  = foldr (fun '(i, name) defines =>
             <[name := ShaderVariation.one_or_zero
                         (Z.testbit (ShaderVariation.m_flags v) (Z.of_nat i))]> defines)
      (ShaderVariation.m_defines v)
      (reverse (imap (fun i name => (i, name)) ShaderVariation.material_defines)) /\
  ShaderVariation.m_flags (ShaderVariation.AddDefinesBasedOnMaterial v)
  = ShaderVariation.m_flags v.
Proof.
  unfold ShaderVariation.AddDefinesBasedOnMaterial, ShaderVariation.AddDefine,
    ShaderVariation.HasAlbedoTexture, ShaderVariation.HasRoughnessTexture,
    ShaderVariation.HasMetallicTexture, ShaderVariation.HasNormalTexture,
    ShaderVariation.HasHeightTexture, ShaderVariation.HasOcclusionTexture,
    ShaderVariation.HasEmissionTexture, ShaderVariation.HasMaskTexture,
    ShaderVariation.Variation_Albedo, ShaderVariation.Variation_Roughness,
    ShaderVariation.Variation_Metallic, ShaderVariation.Variation_Normal,
    ShaderVariation.Variation_Height, ShaderVariation.Variation_Occlusion,
    ShaderVariation.Variation_Emission, ShaderVariation.Variation_Mask.
  cbn zeta. rewrite !has_flag_bit by lia. done.
Qed.

(** X21. [AddDefinesBasedOnMaterial] leaves the flags alone and sets each
    of the eight material defines to "1" when the flag bit of its texture is
    set and to "0" when it is not, overwriting what was there and touching no
    other define. The defines therefore tell the low eight bits of the flags
    and nothing more: on equal defines before, two variations end up with
    equal defines exactly when their flags agree modulo 256. *)
Theorem AddDefinesBasedOnMaterial_encodes_the_flags v v' :
  let defines := ShaderVariation.m_defines (ShaderVariation.AddDefinesBasedOnMaterial v) in
  ShaderVariation.m_flags (ShaderVariation.AddDefinesBasedOnMaterial v)
  = ShaderVariation.m_flags v /\
  (forall i name, ShaderVariation.material_defines !! i = Some name ->
     defines !! name
     = Some (if Z.testbit (ShaderVariation.m_flags v) (Z.of_nat i) then "1" else "0")) /\
  (forall name, name ∉ ShaderVariation.material_defines ->
     defines !! name = ShaderVariation.m_defines v !! name) /\
  (ShaderVariation.m_defines v' = ShaderVariation.m_defines v ->
   (ShaderVariation.m_defines (ShaderVariation.AddDefinesBasedOnMaterial v') = defines <->
    ShaderVariation.m_flags v' mod 256 = ShaderVariation.m_flags v mod 256)).
Proof.
  intros defines.
  assert (Hbits : forall u i name, ShaderVariation.material_defines !! i = Some name ->
            ShaderVariation.m_defines (ShaderVariation.AddDefinesBasedOnMaterial u) !! name
            = Some (if Z.testbit (ShaderVariation.m_flags u) (Z.of_nat i) then "1" else "0")).
  { intros u i name Hname.
    destruct (AddDefinesBasedOnMaterial_defines u) as [-> _].
    do 8 (destruct i as [|i]; [injection Hname as <-; cbn;
            rewrite ?lookup_insert_ne by done; by rewrite lookup_insert_eq|]).
    done. }
  assert (Hother : forall u name, name ∉ ShaderVariation.material_defines ->
            ShaderVariation.m_defines (ShaderVariation.AddDefinesBasedOnMaterial u) !! name
            = ShaderVariation.m_defines u !! name).
  { intros u name Hname. destruct (AddDefinesBasedOnMaterial_defines u) as [-> _].
    unfold ShaderVariation.material_defines in Hname.
    rewrite !not_elem_of_cons in Hname. cbn.
    by rewrite !lookup_insert_ne by (intros <-; tauto). }
  split; [apply AddDefinesBasedOnMaterial_defines|]. split; [apply Hbits|].
  split; [apply Hother|]. intros Hbefore. subst defines. split.
  - intros Hsame. apply Z.bits_inj'. intros n Hn.
    change 256 with (2 ^ 8). destruct (Z.ltb_spec n 8) as [Hlow|Hhigh].
    + rewrite !Z.mod_pow2_bits_low by lia.
      assert (Hname : exists name, ShaderVariation.material_defines !! Z.to_nat n = Some name).
      { apply lookup_lt_is_Some. cbn. lia. }
      destruct Hname as [name Hname].
      pose proof (Hbits v (Z.to_nat n) name Hname) as Hv.
      pose proof (Hbits v' (Z.to_nat n) name Hname) as Hv'.
      rewrite Hsame, Hv, Z2Nat.id in Hv' by done.
      by destruct (Z.testbit (ShaderVariation.m_flags v) n),
                  (Z.testbit (ShaderVariation.m_flags v') n).
    + by rewrite !Z.mod_pow2_bits_high by lia.
  - intros Hflags. apply map_eq. intros name.
    destruct (decide (name ∈ ShaderVariation.material_defines)) as [Hin|Hout].
    + apply list_elem_of_lookup in Hin as [i Hname].
      rewrite (Hbits v i name Hname), (Hbits v' i name Hname).
      assert (Hi : (i < 8)%nat) by (apply lookup_lt_Some in Hname; exact Hname).
      assert (Hbit : Z.testbit (ShaderVariation.m_flags v') (Z.of_nat i)
                     = Z.testbit (ShaderVariation.m_flags v) (Z.of_nat i)).
      { rewrite <- (Z.mod_pow2_bits_low (ShaderVariation.m_flags v') 8) by lia.
        rewrite <- (Z.mod_pow2_bits_low (ShaderVariation.m_flags v) 8) by lia.
        change (2 ^ 8) with 256. by rewrite Hflags. }
      by rewrite Hbit.
    + by rewrite (Hother v name Hout), (Hother v' name Hout), Hbefore.
Qed.

Lemma find_first_match {A : Type} (f : A -> bool) (l : list A) :
  match List.find f l with
  | Some a => exists before after,
      l = before ++ a :: after /\ f a = true /\ Forall (fun b => f b = false) before
  | None => Forall (fun b => f b = false) l
  end.
Proof.
  induction l as [|a l IH]; [by constructor|]. cbn [List.find].
  destruct (f a) eqn:Ha.
  - exists [], l. by repeat split.
  - destruct (List.find f l) as [found|].
    + destruct IH as (before & after & -> & Hfound & Hbefore).
      exists (a :: before), after. repeat split; [done|by constructor].
    + by constructor.
Qed.

(** X22. [GetMatchingShader] returns the first shader of the static vector
    whose flags are exactly the ones asked for, and the empty pointer only
    when no listed shader has them. [Compile] never removes or replaces an
    entry: it stores the flags in its object and appends the object once
    more, so the flags just compiled always find a shader with those flags,
    while a shader compiled again with other flags stays listed, now twice,
    and is no longer found under its old flags. *)
Theorem GetMatchingShader_finds_compiled_flags this file_path flags s :
  let compiled := ShaderVariation.Compile this file_path flags s in
  (forall asked,
     match ShaderVariation.GetMatchingShader asked s with
     | Some shader =>
         exists before after,
           ShaderVariation.m_variations s = before ++ shader :: after /\
           ShaderVariation.m_flags (ShaderVariation.objects s shader) = asked /\
           Forall (fun other => ShaderVariation.m_flags (ShaderVariation.objects s other)
                                <> asked) before
     | None =>
         Forall (fun other => ShaderVariation.m_flags (ShaderVariation.objects s other)
                              <> asked) (ShaderVariation.m_variations s)
     end) /\
  ShaderVariation.m_variations compiled = ShaderVariation.m_variations s ++ [this] /\
  ShaderVariation.m_flags (ShaderVariation.objects compiled this) = flags /\
  (forall other, other <> this ->
     ShaderVariation.objects compiled other = ShaderVariation.objects s other) /\
  (exists shader,
     ShaderVariation.GetMatchingShader flags compiled = Some shader /\
     ShaderVariation.m_flags (ShaderVariation.objects compiled shader) = flags) /\
  (forall old, old <> flags ->
     ShaderVariation.GetMatchingShader old compiled <> Some this).
Proof.
  intros compiled.
  assert (Hspec : forall asked s0,
     match ShaderVariation.GetMatchingShader asked s0 with
     | Some shader =>
         exists before after,
           ShaderVariation.m_variations s0 = before ++ shader :: after /\
           ShaderVariation.m_flags (ShaderVariation.objects s0 shader) = asked /\
           Forall (fun other => ShaderVariation.m_flags (ShaderVariation.objects s0 other)
                                <> asked) before
     | None =>
         Forall (fun other => ShaderVariation.m_flags (ShaderVariation.objects s0 other)
                              <> asked) (ShaderVariation.m_variations s0)
     end).
  { intros asked s0. unfold ShaderVariation.GetMatchingShader.
    pose proof (find_first_match
      (fun shader => ShaderVariation.m_flags (ShaderVariation.objects s0 shader) =? asked)
      (ShaderVariation.m_variations s0)) as Hfind.
    destruct (List.find _ _) as [shader|].
    - destruct Hfind as (before & after & Hlist & Hflags & Hbefore).
      exists before, after. split; [done|]. split; [by apply Z.eqb_eq|].
      eapply Forall_impl; [exact Hbefore|]. intros other. by apply Z.eqb_neq.
    - eapply Forall_impl; [exact Hfind|]. intros other. by apply Z.eqb_neq. }
  assert (Hflags : ShaderVariation.m_flags (ShaderVariation.objects compiled this) = flags).
  { subst compiled. cbn. rewrite decide_True by done.
    by destruct (AddDefinesBasedOnMaterial_defines
                   {| ShaderVariation.m_flags := flags;
                      ShaderVariation.m_defines :=
                        ShaderVariation.m_defines (ShaderVariation.objects s this) |})
      as [_ ->]. }
  split; [intros asked; apply Hspec|]. split; [done|]. split; [done|].
  split; [intros other Hother; subst compiled; cbn; by rewrite decide_False|].
  split.
  - pose proof (Hspec flags compiled) as Hfound.
    destruct (ShaderVariation.GetMatchingShader flags compiled) as [shader|].
    + destruct Hfound as (_ & _ & _ & Hshader & _). by exists shader.
    + exfalso. apply Forall_forall with (x := this) in Hfound; [done|].
      subst compiled. cbn. apply elem_of_app. right. by left.
  - intros old Hold Hfound. pose proof (Hspec old compiled) as Hgot.
    rewrite Hfound in Hgot. destruct Hgot as (_ & _ & _ & Hshader & _). congruence.
Qed.

(** ** BoundingBox *)

Section Boxes.
Context {float : Type}.
Variable lt : float -> float -> bool.
Variables Min Max : float -> float -> float.
Variables Vector3_Infinity Vector3_InfinityNeg : @BoundingBox.Vector3 float.

Local Abbreviation box := (@BoundingBox.BoundingBox float).
Local Abbreviation vector := (@BoundingBox.Vector3 float).
Local Abbreviation IsInside_point := (BoundingBox.IsInside_point lt).
Local Abbreviation IsInside_box := (BoundingBox.IsInside_box lt).

Lemma IsInside_point_Inside (b : box) (p : vector) :
  IsInside_point b p = BoundingBox.Inside <->
  (lt (BoundingBox.x p) (BoundingBox.x (BoundingBox.m_min b)) = false /\
   lt (BoundingBox.x (BoundingBox.m_max b)) (BoundingBox.x p) = false) /\
  (lt (BoundingBox.y p) (BoundingBox.y (BoundingBox.m_min b)) = false /\
   lt (BoundingBox.y (BoundingBox.m_max b)) (BoundingBox.y p) = false) /\
  (lt (BoundingBox.z p) (BoundingBox.z (BoundingBox.m_min b)) = false /\
   lt (BoundingBox.z (BoundingBox.m_max b)) (BoundingBox.z p) = false).
Proof.
  unfold BoundingBox.IsInside_point.
  repeat match goal with |- context [lt ?a ?b] => destruct (lt a b) end;
    cbn; intuition congruence.
Qed.

Lemma IsInside_point_cases (b : box) (p : vector) :
  IsInside_point b p = BoundingBox.Inside \/ IsInside_point b p = BoundingBox.Outside.
Proof. unfold BoundingBox.IsInside_point. destruct (_ || _); auto. Qed.

Lemma IsInside_box_not_Outside (a b : box) :
  IsInside_box a b <> BoundingBox.Outside <->
  (lt (BoundingBox.x (BoundingBox.m_max b)) (BoundingBox.x (BoundingBox.m_min a)) = false /\
   lt (BoundingBox.x (BoundingBox.m_max a)) (BoundingBox.x (BoundingBox.m_min b)) = false) /\
  (lt (BoundingBox.y (BoundingBox.m_max b)) (BoundingBox.y (BoundingBox.m_min a)) = false /\
   lt (BoundingBox.y (BoundingBox.m_max a)) (BoundingBox.y (BoundingBox.m_min b)) = false) /\
  (lt (BoundingBox.z (BoundingBox.m_max b)) (BoundingBox.z (BoundingBox.m_min a)) = false /\
   lt (BoundingBox.z (BoundingBox.m_max a)) (BoundingBox.z (BoundingBox.m_min b)) = false).
Proof.
  unfold BoundingBox.IsInside_box.
  destruct (lt (BoundingBox.x (BoundingBox.m_max b)) _),
           (lt (BoundingBox.x (BoundingBox.m_max a)) (BoundingBox.x (BoundingBox.m_min b))),
           (lt (BoundingBox.y (BoundingBox.m_max b)) _),
           (lt (BoundingBox.y (BoundingBox.m_max a)) (BoundingBox.y (BoundingBox.m_min b))),
           (lt (BoundingBox.z (BoundingBox.m_max b)) _),
           (lt (BoundingBox.z (BoundingBox.m_max a)) (BoundingBox.z (BoundingBox.m_min b)));
    cbn [orb]; try (intuition congruence).
  destruct (_ || _); intuition congruence.
Qed.

Lemma IsInside_box_Inside (a b : box) :
  IsInside_box a b = BoundingBox.Inside <->
  IsInside_box a b <> BoundingBox.Outside /\
  (lt (BoundingBox.x (BoundingBox.m_min b)) (BoundingBox.x (BoundingBox.m_min a)) = false /\
   lt (BoundingBox.x (BoundingBox.m_max a)) (BoundingBox.x (BoundingBox.m_max b)) = false) /\
  (lt (BoundingBox.y (BoundingBox.m_min b)) (BoundingBox.y (BoundingBox.m_min a)) = false /\
   lt (BoundingBox.y (BoundingBox.m_max a)) (BoundingBox.y (BoundingBox.m_max b)) = false) /\
  (lt (BoundingBox.z (BoundingBox.m_min b)) (BoundingBox.z (BoundingBox.m_min a)) = false /\
   lt (BoundingBox.z (BoundingBox.m_max a)) (BoundingBox.z (BoundingBox.m_max b)) = false).
Proof.
  unfold BoundingBox.IsInside_box.
  destruct (_ || _); [intuition congruence|].
  destruct (lt (BoundingBox.x (BoundingBox.m_min b)) _),
           (lt (BoundingBox.x (BoundingBox.m_max a)) (BoundingBox.x (BoundingBox.m_max b))),
           (lt (BoundingBox.y (BoundingBox.m_min b)) _),
           (lt (BoundingBox.y (BoundingBox.m_max a)) (BoundingBox.y (BoundingBox.m_max b))),
           (lt (BoundingBox.z (BoundingBox.m_min b)) _),
           (lt (BoundingBox.z (BoundingBox.m_max a)) (BoundingBox.z (BoundingBox.m_max b)));
    cbn [orb]; intuition congruence.
Qed.

(** The order of floats that are not NaN: nothing is below itself, and
    [a] is not below [c] when it is not below [b] and [b] not below [c]. *)
Hypothesis lt_irreflexive : forall a, lt a a = false.
Hypothesis not_lt_transitive :
  forall a b c, lt a b = false -> lt b c = false -> lt a c = false.

(** X23. [IsInside] of two boxes agrees with [IsInside] of a point, on
    floats that are not NaN: when it answers [Outside] the two boxes have
    no point in common, and for a box whose minimum is nowhere above its
    maximum it answers [Inside] exactly when every point inside that box is
    inside this one. *)
Theorem IsInside_box_agrees_with_points (this other : box) :
  (IsInside_box this other = BoundingBox.Outside ->
   forall p, ~ (IsInside_point this p = BoundingBox.Inside /\
                IsInside_point other p = BoundingBox.Inside)) /\
  (BoundingBox.well_formed lt other ->
   (IsInside_box this other = BoundingBox.Inside <->
    forall p, IsInside_point other p = BoundingBox.Inside ->
              IsInside_point this p = BoundingBox.Inside)).
Proof.
  split.
  - intros Hout p [Hthis Hother].
    apply IsInside_point_Inside in Hthis as ([? ?] & [? ?] & [? ?]).
    apply IsInside_point_Inside in Hother as ([? ?] & [? ?] & [? ?]).
    enough (IsInside_box this other <> BoundingBox.Outside) by done.
    apply IsInside_box_not_Outside. repeat split; eauto using not_lt_transitive.
  - intros (Hx & Hy & Hz). split.
    + intros Hin p Hother.
      apply IsInside_box_Inside in Hin as (_ & [? ?] & [? ?] & [? ?]).
      apply IsInside_point_Inside in Hother as ([? ?] & [? ?] & [? ?]).
      apply IsInside_point_Inside. repeat split; eauto using not_lt_transitive.
    + intros Hall.
      assert (Hmin : IsInside_point this (BoundingBox.m_min other) = BoundingBox.Inside).
      { apply Hall, IsInside_point_Inside. by rewrite !lt_irreflexive. }
      assert (Hmax : IsInside_point this (BoundingBox.m_max other) = BoundingBox.Inside).
      { apply Hall, IsInside_point_Inside. by rewrite !lt_irreflexive. }
      apply IsInside_point_Inside in Hmin as ([? ?] & [? ?] & [? ?]).
      apply IsInside_point_Inside in Hmax as ([? ?] & [? ?] & [? ?]).
      apply IsInside_box_Inside. split; [apply IsInside_box_not_Outside|]; by repeat split.
Qed.

(** What MathHelper.h promises of [Min] and [Max], and what the two
    infinite vectors are. *)
Hypothesis Max_either : forall a b, Max a b = a \/ Max a b = b.
Hypothesis Max_upper : forall a b, lt (Max a b) a = false /\ lt (Max a b) b = false.
Hypothesis Min_either : forall a b, Min a b = a \/ Min a b = b.
Hypothesis Min_lower : forall a b, lt a (Min a b) = false /\ lt b (Min a b) = false.
Hypothesis Infinity_top : forall a,
  lt (BoundingBox.x Vector3_Infinity) a = false /\
  lt (BoundingBox.y Vector3_Infinity) a = false /\
  lt (BoundingBox.z Vector3_Infinity) a = false.
Hypothesis InfinityNeg_bottom : forall a,
  lt a (BoundingBox.x Vector3_InfinityNeg) = false /\
  lt a (BoundingBox.y Vector3_InfinityNeg) = false /\
  lt a (BoundingBox.z Vector3_InfinityNeg) = false.

Local Abbreviation include_point := (BoundingBox.include_point Min Max).
Local Abbreviation BoundingBox_of_points :=
  (BoundingBox.BoundingBox_of_points Min Max Vector3_Infinity Vector3_InfinityNeg).

Lemma include_point_holds_it (b : box) (p : vector) :
  IsInside_point (include_point b p) p = BoundingBox.Inside.
Proof.
  apply IsInside_point_Inside. cbn.
  repeat split; solve [apply Max_upper | apply Min_lower].
Qed.

Lemma include_point_keeps (b : box) (p q : vector) :
  IsInside_point b q = BoundingBox.Inside ->
  IsInside_point (include_point b p) q = BoundingBox.Inside.
Proof.
  intros Hq. apply IsInside_point_Inside in Hq as ([? ?] & [? ?] & [? ?]).
  apply IsInside_point_Inside. cbn.
  repeat split;
    solve [eapply not_lt_transitive; [eassumption|apply (proj1 (Min_lower _ _))]
          |eapply not_lt_transitive; [apply (proj1 (Max_upper _ _))|eassumption]].
Qed.

Lemma fold_include_point_holds (points : list vector) (b : box) (q : vector) :
  q ∈ points \/ IsInside_point b q = BoundingBox.Inside ->
  IsInside_point (fold_left include_point points b) q = BoundingBox.Inside.
Proof.
  revert b. induction points as [|p points IH]; intros b Hq; cbn [fold_left].
  - destruct Hq as [Hq|Hq]; [by apply elem_of_nil in Hq|done].
  - apply IH. destruct Hq as [Hq|Hq].
    + apply elem_of_cons in Hq as [->|Hq]; [right; apply include_point_holds_it|by left].
    + right. by apply include_point_keeps.
Qed.

Local Abbreviation within := (BoundingBox.within lt).

Lemma include_point_within (other b : box) (p : vector) :
  within other b -> IsInside_point other p = BoundingBox.Inside ->
  within other (include_point b p).
Proof.
  intros ([? ?] & [? ?] & [? ?]) Hp.
  apply IsInside_point_Inside in Hp as ([? ?] & [? ?] & [? ?]).
  unfold BoundingBox.within. cbn.
  repeat split;
    match goal with
    | |- context [Min ?a ?b] => by destruct (Min_either a b) as [-> | ->]
    | |- context [Max ?a ?b] => by destruct (Max_either a b) as [-> | ->]
    end.
Qed.

Lemma fold_include_point_within (other : box) (points : list vector) (b : box) :
  within other b ->
  (forall p, p ∈ points -> IsInside_point other p = BoundingBox.Inside) ->
  within other (fold_left include_point points b).
Proof.
  revert b. induction points as [|p points IH]; intros b Hb Hall; cbn [fold_left]; [done|].
  apply IH.
  - apply include_point_within; [done|]. apply Hall. by left.
  - intros q Hq. apply Hall. by right.
Qed.

(** X24. On floats that are not NaN, the box built from a list of points
    holds every one of them, and it is the smallest such box: a box that
    holds all the points of a list that is not empty has the built box
    [Inside]. Built from no points it is the empty box of [BoundingBox()],
    which holds no point with an x coordinate below infinity. *)
Theorem BoundingBox_of_points_is_the_smallest (points : list vector) :
  (forall p, p ∈ points ->
     IsInside_point (BoundingBox_of_points points) p = BoundingBox.Inside) /\
  (forall other, points <> [] ->
     (forall p, p ∈ points -> IsInside_point other p = BoundingBox.Inside) ->
     IsInside_box other (BoundingBox_of_points points) = BoundingBox.Inside) /\
  (points = [] ->
   forall p, lt (BoundingBox.x p) (BoundingBox.x Vector3_Infinity) = true ->
     IsInside_point (BoundingBox_of_points points) p = BoundingBox.Outside).
Proof.
  assert (Hholds : forall p, p ∈ points ->
            IsInside_point (BoundingBox_of_points points) p = BoundingBox.Inside).
  { intros p Hp. apply fold_include_point_holds. by left. }
  split; [done|]. split.
  - intros other Hsome Hall.
    assert (Hwithin : within other (BoundingBox_of_points points)).
    { apply fold_include_point_within; [|done]. unfold BoundingBox.within. cbn.
      repeat split; solve [apply Infinity_top | apply InfinityNeg_bottom]. }
    destruct points as [|p rest]; [done|].
    assert (Hp : p ∈ p :: rest) by by left.
    pose proof (Hholds p Hp) as Hbuilt. pose proof (Hall p Hp) as Hother.
    apply IsInside_point_Inside in Hbuilt as ([? ?] & [? ?] & [? ?]).
    apply IsInside_point_Inside in Hother as ([? ?] & [? ?] & [? ?]).
    destruct Hwithin as ([? ?] & [? ?] & [? ?]).
    apply IsInside_box_Inside.
    split; [apply IsInside_box_not_Outside|]; repeat split;
      eauto using not_lt_transitive.
  - intros -> p Hp. unfold BoundingBox.IsInside_point. cbn. by rewrite Hp.
Qed.

(** X25. [Merge] takes the minimum coordinate by coordinate, but the y and
    z of the merged maximum are computed from the x coordinates: they equal
    the merged x, whatever the y and z maxima of the two boxes were. A point
    of the merged-in box whose y lies above that x is left outside the
    result. *)
Theorem Merge_takes_the_maximum_from_x (this other : box) :
  let merged := BoundingBox.Merge Min Max this other in
  BoundingBox.m_min merged
  = {| BoundingBox.x := Min (BoundingBox.x (BoundingBox.m_min this))
                            (BoundingBox.x (BoundingBox.m_min other));
       BoundingBox.y := Min (BoundingBox.y (BoundingBox.m_min this))
                            (BoundingBox.y (BoundingBox.m_min other));
       BoundingBox.z := Min (BoundingBox.z (BoundingBox.m_min this))
                            (BoundingBox.z (BoundingBox.m_min other)) |} /\
  BoundingBox.x (BoundingBox.m_max merged)
  = Max (BoundingBox.x (BoundingBox.m_max this)) (BoundingBox.x (BoundingBox.m_max other)) /\
  BoundingBox.y (BoundingBox.m_max merged) = BoundingBox.x (BoundingBox.m_max merged) /\
  BoundingBox.z (BoundingBox.m_max merged) = BoundingBox.x (BoundingBox.m_max merged) /\
  (forall p, lt (BoundingBox.x (BoundingBox.m_max merged)) (BoundingBox.y p) = true ->
     IsInside_point merged p = BoundingBox.Outside).
Proof.
  intros merged.
  assert (Hagain : Max (Max (BoundingBox.x (BoundingBox.m_max this))
                            (BoundingBox.x (BoundingBox.m_max other)))
                       (BoundingBox.x (BoundingBox.m_max other))
                   = Max (BoundingBox.x (BoundingBox.m_max this))
                         (BoundingBox.x (BoundingBox.m_max other))).
  { destruct (Max_either (BoundingBox.x (BoundingBox.m_max this))
                         (BoundingBox.x (BoundingBox.m_max other))) as [Hm|Hm].
    - by rewrite Hm at 1.
    - rewrite Hm.
      by destruct (Max_either (BoundingBox.x (BoundingBox.m_max other))
                              (BoundingBox.x (BoundingBox.m_max other))). }
  assert (Hy : BoundingBox.y (BoundingBox.m_max merged)
               = BoundingBox.x (BoundingBox.m_max merged)) by exact Hagain.
  repeat split; [done..|].
  intros p Hp. destruct (IsInside_point_cases merged p) as [Hin|]; [|done].
  apply IsInside_point_Inside in Hin as (_ & [_ Habove] & _).
  rewrite Hy in Habove. congruence.
Qed.

End Boxes.

Lemma extended_lt_irreflexive a : BoundingBox.extended_lt a a = false.
Proof. destruct a; cbn; [done| |done]. apply Z.ltb_irrefl. Qed.

Lemma extended_not_lt_transitive a b c :
  BoundingBox.extended_lt a b = false -> BoundingBox.extended_lt b c = false ->
  BoundingBox.extended_lt a c = false.
Proof. destruct a, b, c; cbn; try done. rewrite !Z.ltb_ge. lia. Qed.

Lemma extended_Max_either a b :
  BoundingBox.extended_Max a b = a \/ BoundingBox.extended_Max a b = b.
Proof. unfold BoundingBox.extended_Max. destruct (BoundingBox.extended_lt b a); auto. Qed.

Lemma extended_Min_either a b :
  BoundingBox.extended_Min a b = a \/ BoundingBox.extended_Min a b = b.
Proof. unfold BoundingBox.extended_Min. destruct (BoundingBox.extended_lt a b); auto. Qed.

Lemma extended_Max_upper a b :
  BoundingBox.extended_lt (BoundingBox.extended_Max a b) a = false /\
  BoundingBox.extended_lt (BoundingBox.extended_Max a b) b = false.
Proof.
  unfold BoundingBox.extended_Max. destruct a as [|a|], b as [|b|]; cbn;
    rewrite ?Z.ltb_irrefl; try done.
  destruct (Z.ltb_spec b a); cbn; rewrite ?Z.ltb_irrefl, ?Z.ltb_ge; split; done || lia.
Qed.

Lemma extended_Min_lower a b :
  BoundingBox.extended_lt a (BoundingBox.extended_Min a b) = false /\
  BoundingBox.extended_lt b (BoundingBox.extended_Min a b) = false.
Proof.
  unfold BoundingBox.extended_Min. destruct a as [|a|], b as [|b|]; cbn;
    rewrite ?Z.ltb_irrefl; try done.
  destruct (Z.ltb_spec a b); cbn; rewrite ?Z.ltb_irrefl, ?Z.ltb_ge; split; done || lia.
Qed.

Lemma IsInside_box_agrees_with_points_witness :
  let this := {| BoundingBox.m_min := BoundingBox.point 0 0 0;
                 BoundingBox.m_max := BoundingBox.point 9 9 9 |} in
  let other := {| BoundingBox.m_min := BoundingBox.point 1 2 3;
                  BoundingBox.m_max := BoundingBox.point 4 5 6 |} in
  BoundingBox.IsInside_box BoundingBox.extended_lt this other = BoundingBox.Inside /\
  BoundingBox.IsInside_box BoundingBox.extended_lt other this = BoundingBox.Intersects /\
  (BoundingBox.IsInside_box BoundingBox.extended_lt this other = BoundingBox.Outside ->
   forall p, ~ (BoundingBox.IsInside_point BoundingBox.extended_lt this p
                = BoundingBox.Inside /\
                BoundingBox.IsInside_point BoundingBox.extended_lt other p
                = BoundingBox.Inside)) /\
  (BoundingBox.well_formed BoundingBox.extended_lt other ->
   (BoundingBox.IsInside_box BoundingBox.extended_lt this other = BoundingBox.Inside <->
    forall p, BoundingBox.IsInside_point BoundingBox.extended_lt other p
              = BoundingBox.Inside ->
              BoundingBox.IsInside_point BoundingBox.extended_lt this p
              = BoundingBox.Inside)).
Proof.
  intros this other. split; [reflexivity|]. split; [reflexivity|].
  exact (IsInside_box_agrees_with_points BoundingBox.extended_lt
           extended_lt_irreflexive extended_not_lt_transitive this other).
Defined.

Lemma BoundingBox_of_points_is_the_smallest_witness :
  let points := [BoundingBox.point 1 5 2; BoundingBox.point 4 0 3] in
  let built := BoundingBox.BoundingBox_of_points BoundingBox.extended_Min
                 BoundingBox.extended_Max BoundingBox.all_PlusInfinity
                 BoundingBox.all_MinusInfinity points in
  built = {| BoundingBox.m_min := BoundingBox.point 1 0 2;
             BoundingBox.m_max := BoundingBox.point 4 5 3 |} /\
  (forall p, p ∈ points ->
     BoundingBox.IsInside_point BoundingBox.extended_lt built p = BoundingBox.Inside) /\
  (forall other, points <> [] ->
     (forall p, p ∈ points ->
        BoundingBox.IsInside_point BoundingBox.extended_lt other p = BoundingBox.Inside) ->
     BoundingBox.IsInside_box BoundingBox.extended_lt other built = BoundingBox.Inside) /\
  (points = [] ->
   forall p, BoundingBox.extended_lt (BoundingBox.x p)
               (BoundingBox.x BoundingBox.all_PlusInfinity) = true ->
     BoundingBox.IsInside_point BoundingBox.extended_lt built p = BoundingBox.Outside).
Proof.
  intros points built. split; [reflexivity|].
  apply (BoundingBox_of_points_is_the_smallest BoundingBox.extended_lt
           BoundingBox.extended_Min BoundingBox.extended_Max
           BoundingBox.all_PlusInfinity BoundingBox.all_MinusInfinity
           extended_not_lt_transitive
           extended_Max_either extended_Max_upper
           extended_Min_either extended_Min_lower).
  - intros a. by destruct a.
  - intros a. by destruct a.
Defined.

Lemma Merge_takes_the_maximum_from_x_witness :
  let this := {| BoundingBox.m_min := BoundingBox.point 0 0 0;
                 BoundingBox.m_max := BoundingBox.point 1 1 1 |} in
  let other := {| BoundingBox.m_min := BoundingBox.point 0 0 0;
                  BoundingBox.m_max := BoundingBox.point 2 7 7 |} in
  let merged := BoundingBox.Merge BoundingBox.extended_Min BoundingBox.extended_Max
                  this other in
  BoundingBox.m_max merged = BoundingBox.point 2 2 2 /\
  BoundingBox.IsInside_point BoundingBox.extended_lt merged (BoundingBox.m_max other)
  = BoundingBox.Outside /\
  BoundingBox.y (BoundingBox.m_max merged) = BoundingBox.x (BoundingBox.m_max merged).
Proof.
  intros this other merged. split; [reflexivity|]. split; [reflexivity|].
  exact (proj1 (proj2 (proj2 (Merge_takes_the_maximum_from_x BoundingBox.extended_lt
           BoundingBox.extended_Min BoundingBox.extended_Max
           extended_Max_either this other)))).
Defined.

(** ** ResourceCache *)

Section Resources.
Variable NOT_ASSIGNED : string.
Variable resource_at : Z -> ResourceCache.Resource.

Local Abbreviation GetAll := ResourceCache.GetAll.
Local Abbreviation GetByName := (ResourceCache.GetByName resource_at).
Local Abbreviation Add := (ResourceCache.Add resource_at).
Local Abbreviation name_of := (fun r => ResourceCache.GetResourceName (resource_at r)).

Lemma foldl_app_groups (groups : list (Z * list Z)) (resources : list Z) :
  foldl (fun resources resourceGroup => resources ++ resourceGroup.2) resources groups
  = resources ++ concat groups.*2.
Proof.
  revert resources. induction groups as [|g groups IH]; intros resources; cbn.
  - by rewrite app_nil_r.
  - by rewrite IH, app_assoc.
Qed.

Lemma GetAll_concat m : GetAll m = concat (ResourceCache.resource_groups m).*2.
Proof. unfold ResourceCache.GetAll. by rewrite foldl_app_groups. Qed.

Lemma GetAll_Permutation m : GetAll m ≡ₚ concat (map_to_list m).*2.
Proof.
  rewrite GetAll_concat. unfold ResourceCache.resource_groups.
  by rewrite merge_sort_Permutation.
Qed.

Lemma elem_of_GetAll r m :
  r ∈ GetAll m <-> exists type group, m !! type = Some group /\ r ∈ group.
Proof.
  rewrite GetAll_Permutation. rewrite list_elem_of_In, in_concat. split.
  - intros (group & Hgroup & Hr). apply list_elem_of_In, list_elem_of_fmap in Hgroup
      as ([type group'] & -> & Hpair).
    apply elem_of_map_to_list in Hpair. exists type, group'.
    split; [done|]. by apply list_elem_of_In.
  - intros (type & group & Hgroup & Hr). exists group. split; [|by apply list_elem_of_In].
    apply list_elem_of_In, list_elem_of_fmap. exists (type, group).
    split; [done|]. by apply elem_of_map_to_list.
Qed.

Lemma first_named_spec name groups :
  match ResourceCache.first_named resource_at name groups with
  | Some r => r ∈ concat groups.*2 /\ name_of r = name
  | None => forall r, r ∈ concat groups.*2 -> name_of r <> name
  end.
Proof.
  induction groups as [|[type group] groups IH]; cbn.
  - intros r Hr. by apply elem_of_nil in Hr.
  - destruct (List.find _ group) as [r|] eqn:Hfind.
    + apply find_some in Hfind as [Hr Hname]. split.
      * apply elem_of_app. left. by apply list_elem_of_In.
      * unfold ResourceCache.named in Hname. by apply bool_decide_eq_true in Hname.
    + destruct (ResourceCache.first_named resource_at name groups) as [r|].
      * destruct IH as [Hr Hname]. split; [|done]. apply elem_of_app. by right.
      * intros r Hr. apply elem_of_app in Hr as [Hr|Hr]; [|by apply IH].
        apply list_elem_of_In in Hr.
        pose proof (find_none _ _ Hfind r Hr) as Hname.
        unfold ResourceCache.named in Hname. by apply bool_decide_eq_false in Hname.
Qed.

Lemma GetByName_spec name m :
  match GetByName name m with
  | Some r => r ∈ GetAll m /\ name_of r = name
  | None => forall r, r ∈ GetAll m -> name_of r <> name
  end.
Proof.
  unfold ResourceCache.GetByName. rewrite GetAll_concat. apply first_named_spec.
Qed.

Lemma existsb_named name groups :
  existsb (fun resourceGroup : Z * list Z =>
             existsb (ResourceCache.named resource_at name) resourceGroup.2) groups
  = true <->
  is_Some (ResourceCache.first_named resource_at name groups).
Proof.
  induction groups as [|[type group] groups IH]; cbn.
  - split; [done|]. by intros [? ?].
  - destruct (List.find _ group) as [r|] eqn:Hfind.
    + apply find_some in Hfind as [Hr Hname]. split; [done|]. intros _.
      apply orb_true_iff. left. apply existsb_exists. by exists r.
    + rewrite orb_true_iff, IH. split; [|by right]. intros [Hgroup|]; [|done].
      apply existsb_exists in Hgroup as (r & Hr & Hname).
      pose proof (find_none _ _ Hfind r Hr). congruence.
Qed.

Lemma IsCachedByName_true name m :
  (ResourceCache.IsCachedByName NOT_ASSIGNED resource_at name m).1 = true <->
  name <> NOT_ASSIGNED /\ is_Some (GetByName name m).
Proof.
  unfold ResourceCache.IsCachedByName. case_bool_decide as Hname; cbn [fst].
  - split; [done|tauto].
  - rewrite existsb_named. unfold ResourceCache.GetByName. tauto.
Qed.

(** X26. [GetByName] returns a cached resource of that name and the empty
    pointer only when no cached resource has it. [IsCachedByName] answers
    true exactly when [GetByName] finds a resource, except for the name
    [NOT_ASSIGNED]: for it the answer is always false, and a warning is
    logged, even when a resource of that name is cached. *)
Theorem IsCachedByName_agrees_with_GetByName name m :
  match GetByName name m with
  | Some r => r ∈ GetAll m /\ ResourceCache.GetResourceName (resource_at r) = name
  | None => forall r, r ∈ GetAll m -> ResourceCache.GetResourceName (resource_at r) <> name
  end /\
  ((ResourceCache.IsCachedByName NOT_ASSIGNED resource_at name m).1 = true <->
   name <> NOT_ASSIGNED /\ is_Some (GetByName name m)) /\
  ((ResourceCache.IsCachedByName NOT_ASSIGNED resource_at name m).2 <> [] <->
   name = NOT_ASSIGNED).
Proof.
  split; [apply GetByName_spec|]. split; [apply IsCachedByName_true|].
  unfold ResourceCache.IsCachedByName. case_bool_decide as Hname; cbn [snd]; [done|].
  split; [done|]. by intros ->.
Qed.

Lemma Add_lookup r m type :
  Add (Some r) m !! type
  = if decide (type = ResourceCache.GetResourceType (resource_at r))
    then Some (default [] (m !! type) ++ [r])
    else m !! type.
Proof.
  cbn. unfold ResourceCache.cache. rewrite insert_insert_eq. case_decide as Htype.
  - subst type. by rewrite lookup_insert_eq.
  - by rewrite lookup_insert_ne.
Qed.

Lemma group_at_lookup type m type' :
  (ResourceCache.group_at type m).2 !! type'
  = if decide (type' = type) then Some (default [] (m !! type)) else m !! type'.
Proof.
  cbn. unfold ResourceCache.cache. case_decide as Htype.
  - subst type'. by rewrite lookup_insert_eq.
  - by rewrite lookup_insert_ne.
Qed.

(** X27. [Add] ignores the null pointer. Any other resource goes to the
    back of the group of its type and no other group changes, so the cache
    lists what it listed before and the new resource once more, also when
    the same pointer was cached already. The name of the added resource is
    then found by [GetByName], and by [IsCachedByName] unless the name is
    [NOT_ASSIGNED]. *)
Theorem Add_appends_to_the_group_of_the_type r m :
  let added := Add (Some r) m in
  Add None m = m /\
  (forall type,
     (ResourceCache.GetByType type added).1
     = if decide (type = ResourceCache.GetResourceType (resource_at r))
       then (ResourceCache.GetByType type m).1 ++ [r]
       else (ResourceCache.GetByType type m).1) /\
  GetAll added ≡ₚ r :: GetAll m /\
  (exists found, GetByName (ResourceCache.GetResourceName (resource_at r)) added = Some found /\
     ResourceCache.GetResourceName (resource_at found)
     = ResourceCache.GetResourceName (resource_at r)) /\
  (ResourceCache.GetResourceName (resource_at r) <> NOT_ASSIGNED ->
   (ResourceCache.IsCachedByName NOT_ASSIGNED resource_at
      (ResourceCache.GetResourceName (resource_at r)) added).1 = true).
Proof.
  intros added.
  assert (Hin : r ∈ GetAll added).
  { apply elem_of_GetAll. eexists _, _. split.
    - subst added. rewrite Add_lookup. by rewrite decide_True.
    - apply elem_of_app. right. by left. }
  assert (Hfound : exists found,
            GetByName (ResourceCache.GetResourceName (resource_at r)) added = Some found /\
            ResourceCache.GetResourceName (resource_at found)
            = ResourceCache.GetResourceName (resource_at r)).
  { pose proof (GetByName_spec (ResourceCache.GetResourceName (resource_at r)) added) as Hspec.
    destruct (GetByName _ added) as [found|].
    - exists found. by destruct Hspec.
    - by destruct (Hspec r Hin). }
  split; [done|]. split; [|split; [|split; [done|]]].
  - intros type. unfold ResourceCache.GetByType, ResourceCache.group_at. cbn [fst].
    subst added. rewrite Add_lookup. by case_decide.
  - rewrite !GetAll_Permutation. subst added. cbn. unfold ResourceCache.cache in *.
    rewrite insert_insert_eq.
    set (type := ResourceCache.GetResourceType (resource_at r)).
    destruct (m !! type) as [group|] eqn:Hgroup; cbn [default].
    + rewrite <- (map_to_list_delete m type group Hgroup).
      rewrite <- insert_delete_eq.
      rewrite map_to_list_insert by apply lookup_delete_eq.
      cbn. rewrite <- app_assoc. cbn. by rewrite <- Permutation_middle.
    + by rewrite map_to_list_insert by done.
  - intros Hname.
    apply IsCachedByName_true. split; [done|]. by destruct Hfound as (found & -> & _).
Qed.

#[local] Instance type_le_transitive : Transitive ResourceCache.type_le.
Proof. intros a b c. unfold ResourceCache.type_le. lia. Qed.

#[local] Instance type_le_total : Total ResourceCache.type_le.
Proof. intros a b. unfold ResourceCache.type_le. lia. Qed.

Lemma elem_of_resource_groups (g : Z * list Z) (m : ResourceCache.cache) :
  g ∈ ResourceCache.resource_groups m <-> m !! g.1 = Some g.2.
Proof.
  unfold ResourceCache.resource_groups. rewrite merge_sort_Permutation.
  destruct g as [type group]. apply elem_of_map_to_list.
Qed.

Lemma StronglySorted_filter {A : Type} (R : relation A) (P : A -> Prop)
    `{forall a, Decision (P a)} (l : list A) :
  StronglySorted R l -> StronglySorted R (filter P l).
Proof.
  induction 1 as [|a l Hl IH Ha]; [constructor|].
  destruct (decide (P a)) as [Hp|Hp].
  - rewrite filter_cons_True by done. constructor; [done|].
    apply Forall_forall. intros b Hb. apply list_elem_of_filter in Hb as [_ Hb].
    by apply (proj1 (Forall_forall _ _) Ha).
  - by rewrite filter_cons_False.
Qed.

Lemma filter_all {A : Type} (P : A -> Prop) `{forall a, Decision (P a)} (l : list A) :
  Forall P l -> filter P l = l.
Proof.
  induction 1 as [|a l Ha Hl IH]; [done|]. by rewrite filter_cons_True, IH.
Qed.

(** A group that is empty is not seen by the loops over the groups. *)
Lemma empty_groups_do_not_count (type : Z) (groups : list (Z * list Z)) :
  Forall (fun g => g.1 = type -> g.2 = []) groups ->
  concat (filter (fun g => g.1 <> type) groups).*2 = concat groups.*2 /\
  forall name,
    ResourceCache.first_named resource_at name (filter (fun g => g.1 <> type) groups)
    = ResourceCache.first_named resource_at name groups /\
    existsb (fun resourceGroup : Z * list Z =>
               existsb (ResourceCache.named resource_at name) resourceGroup.2)
            (filter (fun g => g.1 <> type) groups)
    = existsb (fun resourceGroup : Z * list Z =>
                 existsb (ResourceCache.named resource_at name) resourceGroup.2) groups.
Proof.
  induction 1 as [|[type' group] groups Hg Hgroups [IHall IHname]]; [done|].
  destruct (decide (type' = type)) as [Htype|Htype].
  - rewrite filter_cons_False by (cbn; tauto). cbn in Hg. rewrite (Hg Htype). cbn.
    split; [done|]. intros name. apply IHname.
  - rewrite filter_cons_True by done. cbn. rewrite IHall. split; [done|].
    intros name. destruct (IHname name) as [-> ->]. done.
Qed.

Lemma resource_groups_group_at (type : Z) (m : ResourceCache.cache) :
  m !! type = None ->
  filter (fun g => g.1 <> type) (ResourceCache.resource_groups (ResourceCache.group_at type m).2)
  = ResourceCache.resource_groups m /\
  Forall (fun g => g.1 = type -> g.2 = [])
         (ResourceCache.resource_groups (ResourceCache.group_at type m).2).
Proof.
  intros Hnone. split.
  - symmetry. apply (Sorted_unique_strong ResourceCache.type_le).
    + intros x1 x2 Hx1 Hx2 Hle Hge.
      apply list_elem_of_filter in Hx2 as [Hne Hx2].
      apply elem_of_resource_groups in Hx1, Hx2.
      rewrite group_at_lookup, decide_False in Hx2 by done.
      unfold ResourceCache.type_le in Hle, Hge.
      assert (Hkey : x1.1 = x2.1) by lia. rewrite Hkey in Hx1.
      destruct x1, x2; cbn in *. congruence.
    + apply StronglySorted_Sorted, StronglySorted_merge_sort; apply _.
    + apply StronglySorted_Sorted, StronglySorted_filter, StronglySorted_merge_sort; apply _.
    + apply NoDup_Permutation.
      * unfold ResourceCache.resource_groups.
        rewrite merge_sort_Permutation. apply NoDup_map_to_list.
      * apply NoDup_filter. unfold ResourceCache.resource_groups.
        rewrite merge_sort_Permutation. apply NoDup_map_to_list.
      * intros g. rewrite !list_elem_of_filter, !elem_of_resource_groups, group_at_lookup.
        case_decide as Hg.
        -- split; [|tauto]. intros Hlookup. rewrite Hg in Hlookup. congruence.
        -- tauto.
  - apply Forall_forall. intros g Hg Htype. apply elem_of_resource_groups in Hg.
    rewrite group_at_lookup, decide_True, Hnone in Hg by done. cbn in Hg. congruence.
Qed.

Lemma group_at_keeps_the_loops (type : Z) (m : ResourceCache.cache) :
  let m' := (ResourceCache.group_at type m).2 in
  GetAll m' = GetAll m /\
  forall name,
    GetByName name m' = GetByName name m /\
    ResourceCache.IsCachedByName NOT_ASSIGNED resource_at name m'
    = ResourceCache.IsCachedByName NOT_ASSIGNED resource_at name m.
Proof.
  intros m'. destruct (m !! type) as [group|] eqn:Hgroup.
  - assert (Hsame : m' = m).
    { subst m'. cbn. rewrite Hgroup. cbn. by apply insert_id. }
    by rewrite Hsame.
  - destruct (resource_groups_group_at type m Hgroup) as [Hfilter Hempty].
    fold m' in Hfilter, Hempty.
    destruct (empty_groups_do_not_count type (ResourceCache.resource_groups m') Hempty)
      as [Hall Hname].
    rewrite Hfilter in Hall, Hname. split.
    + by rewrite !GetAll_concat.
    + intros name. destruct (Hname name) as [Hfirst Hexists].
      unfold ResourceCache.GetByName, ResourceCache.IsCachedByName.
      by rewrite Hfirst, Hexists.
Qed.

Lemma foldl_wrap32 (usage : Z -> Z) (group : list Z) (sizeKB : Z) :
  foldl (fun sizeKB r => wrap32 (sizeKB + usage r)) (wrap32 sizeKB) group
  = wrap32 (sizeKB + foldr Z.add 0 (usage <$> group)).
Proof.
  revert sizeKB. induction group as [|r group IH]; intros sizeKB; cbn.
  - by rewrite Z.add_0_r.
  - replace (wrap32 (wrap32 sizeKB + usage r)) with (wrap32 (sizeKB + usage r)).
    + rewrite IH. f_equal. lia.
    + unfold wrap32. by rewrite Zplus_mod_idemp_l.
Qed.

Lemma sum_snoc (usage : Z -> Z) (group : list Z) (r : Z) :
  foldr Z.add 0 (usage <$> group ++ [r]) = foldr Z.add 0 (usage <$> group) + usage r.
Proof. induction group as [|a group IH]; cbn; [lia|]. rewrite IH. lia. Qed.

(** X28. [GetMemoryUsageKB] returns the sum of what the resources of the
    type use, reduced modulo 2^32, so adding a resource raises the usage of
    its type by what it uses, modulo 2^32. Like [GetByType] it makes the map
    hold an empty group for a type that had none, which changes no later
    answer of [GetAll], [GetByName] or [IsCachedByName]. *)
Theorem GetMemoryUsageKB_is_the_sum_modulo_2_32 type m r :
  let usage := fun r => ResourceCache.Resource_GetMemoryUsageKB (resource_at r) in
  let after := (ResourceCache.GetMemoryUsageKB resource_at type m).2 in
  (ResourceCache.GetMemoryUsageKB resource_at type m).1
  = (foldr Z.add 0 (usage <$> (ResourceCache.GetByType type m).1)) mod 2 ^ 32 /\
  (ResourceCache.GetMemoryUsageKB resource_at
     (ResourceCache.GetResourceType (resource_at r)) (Add (Some r) m)).1
  = ((ResourceCache.GetMemoryUsageKB resource_at
        (ResourceCache.GetResourceType (resource_at r)) m).1 + usage r) mod 2 ^ 32 /\
  after = (ResourceCache.GetByType type m).2 /\
  GetAll after = GetAll m /\
  (forall name,
     GetByName name after = GetByName name m /\
     ResourceCache.IsCachedByName NOT_ASSIGNED resource_at name after
     = ResourceCache.IsCachedByName NOT_ASSIGNED resource_at name m).
Proof.
  intros usage after.
  assert (Hsum : forall type m,
            (ResourceCache.GetMemoryUsageKB resource_at type m).1
            = wrap32 (foldr Z.add 0 (usage <$> default [] (m !! type)))).
  { intros type0 m0. unfold ResourceCache.GetMemoryUsageKB, ResourceCache.group_at. cbn [fst].
    change 0 with (wrap32 0) at 1. by rewrite (foldl_wrap32 usage). }
  split; [apply Hsum|]. split.
  - rewrite !Hsum, Add_lookup, decide_True by done. cbn.
    rewrite sum_snoc. unfold wrap32. change UINT32_MOD with (2 ^ 32).
    by rewrite Zplus_mod_idemp_l.
  - split; [done|]. apply (group_at_keeps_the_loops type m).
Qed.

End Resources.

(** ** RHI_VertexBuffer *)

(** X29. All three creating functions of the vertex buffer record the same
    size: the product of stride and vertex count reduced modulo 2^32,
    because it is taken in 32 bits before it is widened to 64. The recorded
    size is the number of bytes of the vertices exactly when that number is
    below 2^32. *)
Theorem vertex_buffer_size_is_a_32_bit_product _Create sizeof_T vertex_count :
  0 <= sizeof_T < 2 ^ 32 -> 0 <= vertex_count < 2 ^ 32 ->
  let buffer := (VertexBuffer.Create _Create sizeof_T vertex_count).2 in
  (VertexBuffer.Create_vector _Create sizeof_T vertex_count).2 = buffer /\
  (VertexBuffer.CreateDynamic _Create sizeof_T vertex_count).2 = buffer /\
  VertexBuffer.m_stride buffer = sizeof_T /\
  VertexBuffer.m_vertex_count buffer = vertex_count /\
  VertexBuffer.m_size_gpu buffer = (sizeof_T * vertex_count) mod 2 ^ 32 /\
  (VertexBuffer.m_size_gpu buffer = sizeof_T * vertex_count <->
   sizeof_T * vertex_count < 2 ^ 32).
Proof.
  intros Hsize Hcount buffer.
  assert (Hwrap : forall n, 0 <= n < 2 ^ 32 -> wrap32 n = n).
  { intros n Hn. unfold wrap32, UINT32_MOD. by apply Z.mod_small. }
  assert (Hgpu : VertexBuffer.m_size_gpu buffer = (sizeof_T * vertex_count) mod 2 ^ 32).
  { subst buffer. cbn. rewrite (Hwrap sizeof_T Hsize).
    unfold wrap32, UINT32_MOD, VertexBuffer.UINT64_MOD.
    pose proof (Z.mod_pos_bound (sizeof_T * vertex_count) (2 ^ 32)).
    apply Z.mod_small. lia. }
  split; [|split; [done|split; [|split; [done|split; [done|]]]]].
  - unfold VertexBuffer.Create_vector, VertexBuffer.Create. cbn [snd].
    by rewrite (Hwrap vertex_count Hcount).
  - subst buffer. cbn. by apply Hwrap.
  - rewrite Hgpu. split.
    + intros Hsame. pose proof (Z.mod_pos_bound (sizeof_T * vertex_count) (2 ^ 32)). lia.
    + intros Hsmall. apply Z.mod_small. nia.
Qed.

Lemma vertex_buffer_size_is_a_32_bit_product_witness :
  let buffer := (VertexBuffer.Create (fun _ => true) 32 (2 ^ 27)).2 in
  VertexBuffer.m_size_gpu buffer = 0 /\
  (VertexBuffer.Create_vector (fun _ => true) 32 (2 ^ 27)).2 = buffer /\
  (VertexBuffer.CreateDynamic (fun _ => true) 32 (2 ^ 27)).2 = buffer /\
  VertexBuffer.m_stride buffer = 32 /\
  VertexBuffer.m_vertex_count buffer = 2 ^ 27 /\
  VertexBuffer.m_size_gpu buffer = (32 * 2 ^ 27) mod 2 ^ 32 /\
  (VertexBuffer.m_size_gpu buffer = 32 * 2 ^ 27 <-> 32 * 2 ^ 27 < 2 ^ 32).
Proof.
  intros buffer. split; [reflexivity|].
  apply (vertex_buffer_size_is_a_32_bit_product (fun _ => true) 32 (2 ^ 27)); lia.
Defined.

(** ** Renderer::SetOptionValue *)

Section OptionValueSetting.
Variable Clamp : Q -> Q -> Q -> Q.

Lemma recreate_shadow_maps_enabled entities recreated :
  OptionValues.recreate_shadow_maps entities = Some recreated ->
  omap (fun e => match Renderer.GetLight e with
                 | Some light => if Renderer.GetShadowsEnabled light then Some light else None
                 | None => None
                 end) entities = recreated /\
  Forall (fun e => is_Some (Renderer.GetLight e)) entities.
Proof.
  revert recreated. induction entities as [|e entities IH]; intros recreated; cbn.
  - intros [= <-]. by split.
  - destruct (Renderer.GetLight e) as [light|] eqn:Hlight; [|done].
    destruct (OptionValues.recreate_shadow_maps entities) as [rest|]; [|done].
    intros [= <-]. destruct (IH rest eq_refl) as [-> Hall].
    split; [by destruct (Renderer.GetShadowsEnabled light)|].
    constructor; [by rewrite Hlight|done].
Qed.

Lemma recreate_shadow_maps_fails entities :
  OptionValues.recreate_shadow_maps entities = None ->
  exists e, e ∈ entities /\ Renderer.GetLight e = None.
Proof.
  induction entities as [|e entities IH]; cbn; [done|].
  destruct (Renderer.GetLight e) as [light|] eqn:Hlight.
  - destruct (OptionValues.recreate_shadow_maps entities) as [rest|]; [done|].
    intros _. destruct (IH eq_refl) as (e' & He' & Hnone).
    exists e'. split; [by right|done].
  - intros _. exists e. split; [by left|done].
Qed.

(** X30. [SetOptionValue] leaves the option with a value equal to the
    clamped one and touches no other option. Shadow maps are created anew
    only when the option is the shadow resolution and its stored value
    differed from the clamped one, and then for exactly the lights with
    shadows enabled; repeating the call changes nothing and creates none.
    The call fails only in that loop, on a light entity without a light. *)
Theorem SetOptionValue_stores_the_clamped_value option value s :
  let wanted := OptionValues.clamped Clamp option value s in
  match OptionValues.SetOptionValue Clamp option value s with
  | Some (s', recreated) =>
      (OptionValues.m_option_values s' option == wanted)%Q /\
      (forall other, other <> option ->
         OptionValues.m_option_values s' other = OptionValues.m_option_values s other) /\
      (recreated <> [] ->
       option = OptionValues.Option_Value_ShadowResolution /\
       ~ (OptionValues.m_option_values s option == wanted)%Q) /\
      (option = OptionValues.Option_Value_ShadowResolution ->
       ~ (OptionValues.m_option_values s option == wanted)%Q ->
       recreated = omap (fun e => match Renderer.GetLight e with
                                  | Some light =>
                                      if Renderer.GetShadowsEnabled light
                                      then Some light else None
                                  | None => None
                                  end) (OptionValues.light_entities s)) /\
      OptionValues.SetOptionValue Clamp option value s' = Some (s', [])
  | None =>
      option = OptionValues.Option_Value_ShadowResolution /\
      ~ (OptionValues.m_option_values s option == wanted)%Q /\
      exists e, e ∈ OptionValues.light_entities s /\ Renderer.GetLight e = None
  end.
Proof.
  intros wanted.
  assert (Hcall : OptionValues.SetOptionValue Clamp option value s
    = if Qeq_bool (OptionValues.m_option_values s option) wanted then Some (s, [])
      else if decide (option = OptionValues.Option_Value_ShadowResolution)
      then match OptionValues.recreate_shadow_maps (OptionValues.light_entities s) with
           | Some recreated => Some (OptionValues.store option wanted s, recreated)
           | None => None
           end
      else Some (OptionValues.store option wanted s, [])) by done.
  assert (Hstored : OptionValues.clamped Clamp option value
                      (OptionValues.store option wanted s) = wanted) by done.
  assert (Hagain : OptionValues.SetOptionValue Clamp option value
                     (OptionValues.store option wanted s)
                   = Some (OptionValues.store option wanted s, [])).
  { unfold OptionValues.SetOptionValue. rewrite Hstored. cbn.
    rewrite decide_True by done.
    by rewrite (proj2 (Qeq_bool_iff wanted wanted) (Qeq_refl wanted)). }
  rewrite Hcall.
  destruct (Qeq_bool (OptionValues.m_option_values s option) wanted) eqn:Hsame.
  - apply Qeq_bool_iff in Hsame as Heq. split; [done|]. split; [done|].
    split; [done|]. split; [tauto|]. by rewrite Hcall.
  - assert (Hdiffers : ~ (OptionValues.m_option_values s option == wanted)%Q).
    { intros Heq. apply Qeq_bool_iff in Heq. congruence. }
    assert (Hvalue : (OptionValues.m_option_values (OptionValues.store option wanted s) option
                      == wanted)%Q).
    { cbn. rewrite decide_True by done. apply Qeq_refl. }
    assert (Hothers : forall other, other <> option ->
              OptionValues.m_option_values (OptionValues.store option wanted s) other
              = OptionValues.m_option_values s other).
    { intros other Hother. cbn. by rewrite decide_False. }
    destruct (decide (option = OptionValues.Option_Value_ShadowResolution)) as [Hshadow|Hshadow].
    + destruct (OptionValues.recreate_shadow_maps (OptionValues.light_entities s))
        as [recreated|] eqn:Hloop.
      * apply recreate_shadow_maps_enabled in Hloop as [Hrecreated _].
        split; [done|]. split; [done|]. split; [done|]. split; [done|]. exact Hagain.
      * split; [done|]. split; [done|]. by apply recreate_shadow_maps_fails.
    + split; [done|]. split; [done|]. split; [done|]. split; [done|]. exact Hagain.
Qed.

End OptionValueSetting.
